(** * BakeCall / BakeryGhar telephony bridge: codec, resampler, order store,
      tool-call dispatch and session relay, embedded from the JavaScript
      sources ([audio-utils.js], [server.js] and their earlier revisions). *)

From Stdlib Require Import ZArith QArith Qminmax Lqa Lia List Floats.
From stdpp Require Import gmap strings list pretty.

Local Open Scope Z_scope.
#[local] Set Warnings "-inexact-float,-register-all".

(** ** Typed-array conventions shared by the audio code *)

(** What an [Int16Array] keeps of an integer that is stored into it. *)
Definition wrap_int16 (z : Z) : Z := (z + 32768) mod 65536 - 32768.

(** What a [Uint8Array] keeps of an integer that is stored into it. *)
Definition wrap_uint8 (z : Z) : Z := z mod 256.

(** Where the audio code computes on halves, quarters and eighths of
    16-bit integers, doubles carry every intermediate value exactly and a
    rational stands for the double. (The one revision that multiplies by
    0.2 and 0.6 is computed on binary64 instead, see [tap_gain25].) *)

(** The integer part of a number, its fraction dropped toward zero. *)
Definition Qtruncate (q : Q) : Z := Z.quot (Qnum q) (Z.pos (Qden q)).

(** [ToInt16] of a number: the fraction is dropped (toward zero), then the
    integer wraps. *)
Definition to_int16 (q : Q) : Z := wrap_int16 (Qtruncate q).

Definition is_int16 (z : Z) : Prop := -32768 <= z <= 32767.

(** Element read [a[i]]: [None] stands for [undefined]. *)
Definition js_get (a : list Z) (i : Z) : option Z :=
  if i <? 0 then None else nth_error a (Z.to_nat i).

(** Storing [undefined] into a typed array leaves 0. *)
Definition store_int16 (v : option Z) : Z :=
  match v with Some z => wrap_int16 z | None => 0 end.
Definition store_uint8 (v : option Z) : Z :=
  match v with Some z => wrap_uint8 z | None => 0 end.

(** [for (let i = lo; i < lo + n; i++)] as the list of the values of [i]. *)
Fixpoint zrange (lo : Z) (n : nat) : list Z :=
  match n with
  | O => []
  | S n' => lo :: zrange (lo + 1) n'
  end.

(** ** Codec: the two lookup tables of [initTables] *)

Module Codec.

Definition BIAS : Z := 0x84.
Definition CLIP : Z := 8159.
Definition SEG_MASK : Z := 0x70.
Definition SEG_SHIFT : Z := 4.
Definition SIGN_BIT : Z := 0x80.

(** Body of the first loop: the value written to [ulawToLinear[i]]. *)
Definition ulawToLinear_entry (i : Z) : Z :=
  let ulaw := Z.lnot i in
  let t := Z.shiftl (Z.land ulaw 0x0f) 3 + BIAS in
  let t := Z.shiftl t (Z.shiftr (Z.land ulaw SEG_MASK) SEG_SHIFT) in
  wrap_int16 (if Z.land ulaw SIGN_BIT =? 0 then t - BIAS else BIAS - t).

(** The nested [if (sample > ...)] ladder that picks the exponent. *)
Definition exponent_of (sample : Z) : Z :=
  if sample >? 0x1F then
    if sample >? 0x3F then
      if sample >? 0x7F then
        if sample >? 0xFF then
          if sample >? 0x1FF then
            if sample >? 0x3FF then
              if sample >? 0x7FF then 7 else 6
            else 5
          else 4
        else 3
      else 2
    else 1
  else 0.

(** Body of the second loop: the value written to [linearToUlaw[i + 32768]]. *)
Definition linearToUlaw_entry (i : Z) : Z :=
  let sample := i in
  let sign := Z.land (Z.shiftr sample 8) 0x80 in
  let sample := if sample <? 0 then - sample else sample in
  let sample := if sample >? CLIP then CLIP else sample in
  let sample := sample + BIAS in
  let exponent := exponent_of sample in
  let mantissa := Z.land (Z.shiftr sample (exponent + 3)) 0x0F in
  let ulawByte := Z.lnot (Z.lor (Z.lor sign (Z.shiftl exponent 4)) mantissa) in
  wrap_uint8 (Z.land ulawByte 0xFF).

Definition ulawToLinear : list Z := map ulawToLinear_entry (zrange 0 256).

Definition linearToUlaw : list Z := map linearToUlaw_entry (zrange (-32768) (Z.to_nat 65536)).

(** [decodeUlaw(buffer)]: one table read per byte. *)
Definition decodeUlaw (buffer : list Z) : list Z :=
  map (fun b => store_int16 (js_get ulawToLinear b)) buffer.

(** [encodeUlaw(buffer)]: one table read per sample, at [val + 32768]. *)
Definition encodeUlaw (buffer : list Z) : list Z :=
  map (fun val => store_uint8 (js_get linearToUlaw (val + 32768))) buffer.

End Codec.


(** ** Resampler *)

Module Resampler.

(** In-bounds element read of a sample array (every read below is guarded
    by the loop bound, so the default is never returned). *)
Definition rd (a : list Z) (i : nat) : Z := nth i a 0.

(** The interpolated sample, [(current + next) / 2], as the array keeps
    it. *)
Definition mean_div (current next : Z) : Z :=
  to_int16 ((inject_Z current + inject_Z next) / 2)%Q.

(** The same in the earliest revision, [(current + next) * 0.5]. *)
Definition mean_mul (current next : Z) : Z :=
  to_int16 ((inject_Z current + inject_Z next) * 0.5)%Q.

(** One turn of the loop of [upsample8kTo16k]; [mean] is the interpolated
    sample. *)
Definition upsample_iter (mean : Z -> Z -> Z) (pcm8k result : list Z)
    (i : nat) : list Z :=
  let len := length pcm8k in
  let current := rd pcm8k i in
  let next :=
    if Z.of_nat i <? Z.of_nat len - 1 then rd pcm8k (i + 1) else current in
  let result := <[(i * 2)%nat := to_int16 (inject_Z current)]> result in
  <[(i * 2 + 1)%nat := mean current next]> result.

Definition upsample_loop (mean : Z -> Z -> Z) (pcm8k : list Z) : list Z :=
  let len := length pcm8k in
  foldl (upsample_iter mean pcm8k) (replicate (len * 2) 0) (seq 0 len).

Definition upsample8kTo16k : list Z -> list Z := upsample_loop mean_div.

(** [upsample8kTo16k] of the earliest revision. *)
Definition upsample8kTo16k_half : list Z -> list Z := upsample_loop mean_mul.

(** [Math.max(-32768, Math.min(32767, p))]. *)
Definition clamp16 (p : Q) : Q := Qmax (-32768)%Q (Qmin 32767%Q p).

(** The filtered value written to [result[i]] in the revisions that scale,
    clamp and filter; [gain] and the three weights are the constants in
    which those revisions differ. *)
Definition tap_cfg (gain w1 w2 w3 : Q) (a b c : Z) : Z :=
  let p1 := (inject_Z a * gain)%Q in
  let p2 := (inject_Z b * gain)%Q in
  let p3 := (inject_Z c * gain)%Q in
  let p1 := clamp16 p1 in
  let p2 := clamp16 p2 in
  let p3 := clamp16 p3 in
  to_int16 (p1 * w1 + p2 * w2 + p3 * w3)%Q.

(** The filtered value of the revision without gain and clamp. *)
Definition tap_weighted (a b c : Z) : Z :=
  to_int16 (inject_Z a * 0.25 + inject_Z b * 0.5 + inject_Z c * 0.25)%Q.

(** One turn of the loop shared by the filtering revisions of
    [downsample24kTo8k]; [tap] is the filtered value. *)
Definition downsample_iter (tap : Z -> Z -> Z -> Z)
    (pcm24k result : list Z) (i : nat) : list Z :=
  let len := length pcm24k in
  let idx := (i * 3)%nat in
  if (idx + 2 <? len)%nat then
    <[i := tap (rd pcm24k idx) (rd pcm24k (idx + 1)) (rd pcm24k (idx + 2))]>
      result
  else
    <[i := wrap_int16 (rd pcm24k idx)]> result.

Definition downsample_loop (tap : Z -> Z -> Z -> Z) (pcm24k : list Z)
    : list Z :=
  let len := length pcm24k in
  let targetLen := (len / 3)%nat in
  foldl (downsample_iter tap pcm24k) (replicate targetLen 0) (seq 0 targetLen).

(** [downsample24kTo8k], revision "Professional DSP Pipeline v3": gain 1.5,
    weights 0.25 / 0.5 / 0.25. *)
Definition downsample24kTo8k_gain15 : list Z -> list Z :=
  downsample_loop (tap_cfg 1.5%Q 0.25%Q 0.5%Q 0.25%Q).

(** [downsample24kTo8k], revision "Weighted Average Downsampling": weights
    0.25 / 0.5 / 0.25, no gain and no clamp. *)
Definition downsample24kTo8k_weighted : list Z -> list Z :=
  downsample_loop tap_weighted.

(** [downsample24kTo8k], earliest revision ("Take every 3rd sample"): no
    filter. *)
Definition downsample24kTo8k_take3rd (pcm24k : list Z) : list Z :=
  let len := length pcm24k in
  let targetLen := (len / 3)%nat in
  foldl (fun result i => <[i := wrap_int16 (rd pcm24k (i * 3))]> result)
        (replicate targetLen 0) (seq 0 targetLen).

(** [downsample24kTo8k], revision "Professional DSP Pipeline" (the one
    [server.js] loads): gain 2.5, weights 0.2 / 0.6 / 0.2. These products
    are not exact in doubles, so this one is computed on binary64 itself. *)

(** A sample of the [Int16Array] as a double. *)
Definition float_of_sample (z : Z) : float :=
  if z <? 0 then PrimFloat.opp (PrimFloat.of_uint63 (Uint63.of_Z (- z)))
  else PrimFloat.of_uint63 (Uint63.of_Z z).

Definition fmin (x y : float) : float := if PrimFloat.ltb y x then y else x.
Definition fmax (x y : float) : float := if PrimFloat.ltb x y then y else x.

(** A double with its fraction dropped (toward zero). *)
Definition float_trunc (f : float) : Z :=
  match Prim2SF f with
  | S754_finite s m e =>
      let mag := if 0 <=? e then Z.pos m * 2 ^ e else Z.pos m / 2 ^ (- e) in
      if s then - mag else mag
  | _ => 0
  end.

(** [ToInt16] of a double. *)
Definition float_to_int16 (f : float) : Z := wrap_int16 (float_trunc f).

(** The filtered value: scale, clamp, filter, store. *)
Definition tap_gain25 (a b c : Z) : Z :=
  let p1 := (float_of_sample a * 2.5)%float in
  let p2 := (float_of_sample b * 2.5)%float in
  let p3 := (float_of_sample c * 2.5)%float in
  let p1 := fmax (-32768)%float (fmin 32767%float p1) in
  let p2 := fmax (-32768)%float (fmin 32767%float p2) in
  let p3 := fmax (-32768)%float (fmin 32767%float p3) in
  float_to_int16 (p1 * 0.2 + p2 * 0.6 + p3 * 0.2)%float.

(** The two halves of [tap_gain25] by name: a sample scaled and clamped,
    and the filter over three such values. *)
Definition scale_clamp25 (z : Z) : float :=
  fmax (-32768)%float (fmin 32767%float (float_of_sample z * 2.5)%float).

Definition filter25 (p1 p2 p3 : float) : float :=
  (p1 * 0.2 + p2 * 0.6 + p3 * 0.2)%float.

Definition downsample24kTo8k_gain25 : list Z -> list Z :=
  downsample_loop tap_gain25.

End Resampler.

(** ** Binary64: measuring the doubles of the gain 2.5 revision *)

Module Binary64.

(** The value of a finite double on the scale [2^-200]; every double the
    filter produces has an exponent above -200. *)
Definition SFscaled (f : spec_float) : Z :=
  match f with
  | S754_finite s m e => (if s then - Z.pos m else Z.pos m) * 2 ^ (e + 200)
  | _ => 0
  end.

(** Zero, or finite with an exponent that is at least [lo]. *)
Definition tame (lo : Z) (f : spec_float) : Prop :=
  match f with
  | S754_zero _ => True
  | S754_finite _ _ e => lo <= e
  | _ => False
  end.

(** The test that a weighted sample is zero or a double with exponent at
    least -60 whose value lies between [lo / 10] and [hi / 10]. *)
Definition term_ok (lo hi : Z) (f : float) : bool :=
  match Prim2SF f with
  | S754_zero _ => true
  | S754_finite s m e =>
      let v := 10 * (if s then - Z.pos m else Z.pos m) in
      (-60 <=? e) &&
      (Z.shiftl lo 60 <=? Z.shiftl v (e + 60)) &&
      (Z.shiftl v (e + 60) <=? Z.shiftl hi 60)
  | _ => false
  end.

(** The test that, for the sample [z], the clamped double is in the
    16-bit range and both of its weighted forms are moderate: within
    [-6553.7, 6553.5] for the weight 0.2 and [-19660.9, 19660.3] for the
    weight 0.6. *)
Definition terms_ok (z : Z) : bool :=
  PrimFloat.leb (-32768)%float (Resampler.scale_clamp25 z) &&
  PrimFloat.leb (Resampler.scale_clamp25 z) 32767%float &&
  term_ok (-65537) 65535 (Resampler.scale_clamp25 z * 0.2)%float &&
  term_ok (-196609) 196603 (Resampler.scale_clamp25 z * 0.6)%float.

(** Twice the exact value of a sample scaled by 2.5 and clamped: [5z]
    kept within [-65536, 65534]. *)
Definition clamped_twice (z : Z) : Z := Z.max (-65536) (Z.min 65534 (5 * z)).

(** The test that ten times a double lies within [2^-30] of the integer
    [k] (and that its exponent is at least -60). *)
Definition term_near (k : Z) (f : float) : bool :=
  match Prim2SF f with
  | S754_zero _ => k =? 0
  | S754_finite s m e =>
      let v := 10 * (if s then - Z.pos m else Z.pos m) in
      (-60 <=? e) &&
      (Z.abs (Z.shiftl v (e + 60) - Z.shiftl k 60) <=? 2 ^ 30)
  | _ => false
  end.

(** The test that, for the sample [z], both weighted forms of the clamped
    double are that close to the exact fifth and three fifths of the
    clamped value. *)
Definition terms_near (z : Z) : bool :=
  term_near (clamped_twice z) (Resampler.scale_clamp25 z * 0.2)%float &&
  term_near (3 * clamped_twice z) (Resampler.scale_clamp25 z * 0.6)%float.

End Binary64.

(** ** Order store: [orders.json] seen through [JSON.parse] *)

Module Store.

(** JSON values of a tool call's arguments and of the status route's body. *)
Inductive value : Type :=
| VStr (s : string)
| VNum (n : Z)
| VArr (items : list value)
| VObj (fields : list (string * value)).

(** An order is a plain object: a finite map from property names. *)
Abbreviation order := (gmap string value).

(** The file as [fs.existsSync] and [JSON.parse(fs.readFileSync(...))] see
    it. The server only ever writes [JSON.stringify] of an array of order
    objects, so a file that parses holds such an array; a file cut short or
    damaged does not parse. *)
Inductive file : Type :=
| NoFile
| Unparseable (text : string)
| Saved (orders : list order).

Definition getSavedOrders (f : file) : list order :=
  match f with
  | NoFile => []
  | Unparseable _ => []
  | Saved orders => orders
  end.

(** [orders.unshift(order); fs.writeFileSync(ORDERS_FILE, JSON.stringify(orders))] *)
Definition saveOrderToFile (o : order) (f : file) : file :=
  let orders := getSavedOrders f in
  Saved (o :: orders).

(** The first revision reads the file inline instead of calling
    [getSavedOrders]. *)
Definition saveOrderToFile_inline (o : order) (f : file) : file :=
  let orders :=
    match f with
    | NoFile => []
    | Unparseable _ => []
    | Saved parsed => parsed
    end in
  Saved (o :: orders).

(** [o.id === orderId], with [orderId] a string (a route parameter). *)
Definition id_is (orderId : string) (o : order) : bool :=
  match o !! "id" with
  | Some (VStr s) => String.eqb s orderId
  | _ => false
  end.

(** [Array.prototype.findIndex]; [None] stands for -1. *)
Fixpoint findIndex {A : Type} (p : A -> bool) (l : list A) : option nat :=
  match l with
  | [] => None
  | x :: l' => if p x then Some O else S <$> findIndex p l'
  end.

(** [o.status = status] as it reaches the file: [JSON.stringify] drops a
    property whose value is [undefined] ([None]). *)
Definition set_status (status : option value) (o : order) : order :=
  match status with
  | Some v => <["status" := v]> o
  | None => delete "status" o
  end.

Definition updateOrderStatus (orderId : string) (status : option value)
    (f : file) : file * bool :=
  let orders := getSavedOrders f in
  match findIndex (id_is orderId) orders with
  | Some index => (Saved (alter (set_status status) index orders), true)
  | None => (f, false)
  end.

(** Reply of the route [POST /api/orders/:id/status]. *)
Inductive reply : Type := Success200 | NotFound404.

Definition post_order_status (id : string) (status : option value)
    (f : file) : file * reply :=
  let '(f, found) := updateOrderStatus id status f in
  if found then (f, Success200) else (f, NotFound404).

End Store.

(** ** Session relay: the closure of one [wss.on('connection')] call *)

Module Relay.
Import Store.

(** One entry of [msg.toolCall.functionCalls]. *)
Record functionCall : Type := {
  fc_id : string;
  fc_name : string;
  fc_args : gmap string value
}.

(** What [Date.now()] and [new Date().toISOString()] return while one
    function call is handled. *)
Record clock : Type := { now_ms : Z; now_iso : string }.

(** What [base64ToUint8] returns for [inlineData.data]: a Node [Buffer], a
    window of [byteLength] bytes that starts [byteOffset] bytes into the
    [ArrayBuffer] behind it. Node cuts the window of a chunk of under 4096
    bytes out of a pool of 8192 bytes that all such chunks share, so that
    the [ArrayBuffer] is then the whole pool, whatever else it holds; a
    larger chunk has an [ArrayBuffer] of its own. [buffer] is the
    [ArrayBuffer], kept as the 16-bit samples that an [Int16Array] over it
    reads: model audio is 16-bit PCM, so the [ArrayBuffer] of a chunk has
    an even number of bytes, as the pool has (over an odd number of bytes
    the [Int16Array] constructor would throw). *)
Record Buffer : Type := {
  buffer : list Z;
  byteOffset : nat;
  byteLength : nat
}.

(** The samples of the chunk itself: those of the window (a window in the
    pool starts at a multiple of 8 bytes). *)
Definition chunk_samples (data : Buffer) : list Z :=
  take (byteLength data / 2) (drop (byteOffset data / 2) (buffer data)).

(** A message of the model session, as [onmessage] looks at it. [audio]
    is [inlineData.data] decoded by [base64ToUint8], when that is there. *)
Record server_msg : Type := {
  audio : option Buffer;
  toolCall : option (list (functionCall * clock));
  interrupted : bool
}.

(** Messages written to the telephony socket with [ws.send]. *)
Inductive tel_msg : Type :=
| TelMedia (streamSid : string) (payload : list Z)
| TelClear (streamSid : string).

(** Messages handed to the model session. *)
Inductive model_msg : Type :=
| RealtimeText (text : string)
| RealtimeAudio (pcm16k : list Z)
| ToolResponse (id name : string) (result : gmap string value).

(** Messages of the telephony socket, after [JSON.parse]. *)
Inductive tel_event : Type :=
| TStart (streamSid : option string) (caller : option string)
| TMedia (payload : list Z)
| TStop.

(** Callbacks of the model session. *)
Inductive model_event : Type :=
| MOpen
| MMessage (msg : server_msg)
| MClose
| MError.

(** What can happen to a session: a telephony message, a callback of the
    model session, or the telephony socket closing from the far end
    ([TelClose]), for which the server registers no handler. *)
Inductive event : Type :=
| Tel (e : tel_event)
| Mod (e : model_event)
| TelClose.

Inductive model_state : Type := Absent | Connecting | Live | Closed.

(** The closure variables, the two connections and the order file.
    [to_model] holds what has been handed to the model session with
    [sendRealtimeInput] and [sendToolResponse]; [close_requested] tells
    whether [close] has been called, or is waiting to be called, on it. *)
Record session : Type := {
  streamSid : option string;
  geminiSession : bool;
  isSessionOpen : bool;
  callerId : string;
  ws_open : bool;
  model : model_state;
  to_telephony : list tel_msg;
  to_model : list model_msg;
  orders_file : file;
  close_requested : bool
}.

Definition set_streamSid (v : option string) (s : session) : session :=
  {| streamSid := v; geminiSession := geminiSession s;
     isSessionOpen := isSessionOpen s; callerId := callerId s;
     ws_open := ws_open s; model := model s;
     to_telephony := to_telephony s; to_model := to_model s;
     orders_file := orders_file s;
     close_requested := close_requested s |}.

Definition set_geminiSession (v : bool) (s : session) : session :=
  {| streamSid := streamSid s; geminiSession := v;
     isSessionOpen := isSessionOpen s; callerId := callerId s;
     ws_open := ws_open s; model := model s;
     to_telephony := to_telephony s; to_model := to_model s;
     orders_file := orders_file s;
     close_requested := close_requested s |}.

Definition set_isSessionOpen (v : bool) (s : session) : session :=
  {| streamSid := streamSid s; geminiSession := geminiSession s;
     isSessionOpen := v; callerId := callerId s;
     ws_open := ws_open s; model := model s;
     to_telephony := to_telephony s; to_model := to_model s;
     orders_file := orders_file s;
     close_requested := close_requested s |}.

Definition set_callerId (v : string) (s : session) : session :=
  {| streamSid := streamSid s; geminiSession := geminiSession s;
     isSessionOpen := isSessionOpen s; callerId := v;
     ws_open := ws_open s; model := model s;
     to_telephony := to_telephony s; to_model := to_model s;
     orders_file := orders_file s;
     close_requested := close_requested s |}.

Definition set_ws_open (v : bool) (s : session) : session :=
  {| streamSid := streamSid s; geminiSession := geminiSession s;
     isSessionOpen := isSessionOpen s; callerId := callerId s;
     ws_open := v; model := model s;
     to_telephony := to_telephony s; to_model := to_model s;
     orders_file := orders_file s;
     close_requested := close_requested s |}.

Definition set_model (v : model_state) (s : session) : session :=
  {| streamSid := streamSid s; geminiSession := geminiSession s;
     isSessionOpen := isSessionOpen s; callerId := callerId s;
     ws_open := ws_open s; model := v;
     to_telephony := to_telephony s; to_model := to_model s;
     orders_file := orders_file s;
     close_requested := close_requested s |}.

Definition set_close_requested (v : bool) (s : session) : session :=
  {| streamSid := streamSid s; geminiSession := geminiSession s;
     isSessionOpen := isSessionOpen s; callerId := callerId s;
     ws_open := ws_open s; model := model s;
     to_telephony := to_telephony s; to_model := to_model s;
     orders_file := orders_file s; close_requested := v |}.

Definition set_orders_file (v : file) (s : session) : session :=
  {| streamSid := streamSid s; geminiSession := geminiSession s;
     isSessionOpen := isSessionOpen s; callerId := callerId s;
     ws_open := ws_open s; model := model s;
     to_telephony := to_telephony s; to_model := to_model s;
     orders_file := v; close_requested := close_requested s |}.

(** [ws.send(JSON.stringify(m))]: a socket that is closed delivers nothing. *)
Definition ws_send (m : tel_msg) (s : session) : session :=
  if ws_open s then
    {| streamSid := streamSid s; geminiSession := geminiSession s;
       isSessionOpen := isSessionOpen s; callerId := callerId s;
       ws_open := ws_open s; model := model s;
       to_telephony := to_telephony s ++ [m]; to_model := to_model s;
       orders_file := orders_file s;
       close_requested := close_requested s |}
  else s.

(** [sessionPromise.then(s => s.send...(m))]: delivered once the session
    is live, in the order of the calls. *)
Definition model_send (m : model_msg) (s : session) : session :=
  match model s with
  | Connecting | Live =>
    {| streamSid := streamSid s; geminiSession := geminiSession s;
       isSessionOpen := isSessionOpen s; callerId := callerId s;
       ws_open := ws_open s; model := model s;
       to_telephony := to_telephony s; to_model := to_model s ++ [m];
       orders_file := orders_file s;
       close_requested := close_requested s |}
  | Absent | Closed => s
  end.

(** Truthiness of [streamSid]: [null], [undefined] and the empty string
    are falsy. *)
Definition truthy (v : option string) : option string :=
  match v with
  | Some sid => if String.eqb sid "" then None else Some sid
  | None => None
  end.

(** The audio branch of [onmessage]. [new Int16Array(data.buffer)] is a
    view of the whole [ArrayBuffer] behind the decoded chunk, not of the
    chunk's window. *)
Definition send_audio (data : Buffer) (s : session) : session :=
  let pcm24k := buffer data in
  let pcm8k := Resampler.downsample24kTo8k_gain25 pcm24k in
  let ulaw := Codec.encodeUlaw pcm8k in
  match truthy (streamSid s) with
  | Some sid => ws_send (TelMedia sid ulaw) s
  | None => s
  end.

(** The object literal [{ id: orderId, ...fc.args, created_at, status }]:
    a later property replaces an earlier one of the same name. *)
Definition newOrder (with_status : bool) (orderId : string) (fc : functionCall)
    (c : clock) : order :=
  let o := fc_args fc ∪ {[ "id" := VStr orderId ]} in
  let o := <["created_at" := VStr (now_iso c)]> o in
  if with_status then <["status" := VStr "created"]> o else o.

Definition result_success : gmap string value :=
  {[ "status" := VStr "success" ]}.

Definition result_created (orderId : string) : gmap string value :=
  <["order_id" := VStr orderId]> {[ "status" := VStr "created" ]}.

(** One turn of [for (const fc of msg.toolCall.functionCalls)]. The first
    revision stores no [status] in the order ([with_status = false]) and
    only logs a [transfer_to_agent] call. *)
Definition toolCall_iter (with_status : bool) (s : session)
    (call : functionCall * clock) : session :=
  let '(fc, c) := call in
  let result := result_success in
  let '(s, result) :=
    if String.eqb (fc_name fc) "create_order" then
      let orderId := "ord_" +:+ pretty (now_ms c) in
      let o := newOrder with_status orderId fc c in
      (set_orders_file (saveOrderToFile o (orders_file s)) s,
       result_created orderId)
    else (s, result) in
  model_send (ToolResponse (fc_id fc) (fc_name fc) result) s.

(** The interruption branch of [onmessage]. *)
Definition send_clear (s : session) : session :=
  match truthy (streamSid s) with
  | Some sid => ws_send (TelClear sid) s
  | None => s
  end.

(** [onmessage]: audio, then tool calls, then the interruption flag. *)
Definition onmessage (with_status : bool) (msg : server_msg) (s : session)
    : session :=
  let s := match audio msg with
           | Some data => send_audio data s
           | None => s
           end in
  let s := match toolCall msg with
           | Some calls => foldl (toolCall_iter with_status) s calls
           | None => s
           end in
  if interrupted msg then send_clear s else s.

(** The inbound audio path of [ws.on('message')]. *)
Definition forward_media (payload : list Z) (s : session) : session :=
  if isSessionOpen s && geminiSession s then
    let pcm8k := Codec.decodeUlaw payload in
    let pcm16k := Resampler.upsample8kTo16k pcm8k in
    model_send (RealtimeAudio pcm16k) s
  else s.

(** *** First revision ("BakeCall AI"): the model session is requested on
    connection *)
Module V1.

Definition connection : session :=
  {| streamSid := None; geminiSession := true; isSessionOpen := false;
     callerId := "Unknown"; ws_open := true; model := Connecting;
     to_telephony := []; to_model := []; orders_file := NoFile;
     close_requested := false |}.

Definition onopen (s : session) : session :=
  let s := set_isSessionOpen true s in
  model_send (RealtimeText "Say 'Hello! How can I help you order today?'") s.

Definition onclose (s : session) : session :=
  let s := set_isSessionOpen false s in
  set_ws_open false s.

(** [geminiSession.then(s => s.close())]: the close is only asked for. It
    is called once the session is there (a session that is still
    connecting opens first), and [onclose] runs when the session tells that
    it has ended. *)
Definition close_model (s : session) : session := set_close_requested true s.

Definition on_ws_message (e : tel_event) (s : session) : session :=
  match e with
  | TStart sid _ => set_streamSid sid s
  | TMedia payload => forward_media payload s
  | TStop => close_model s
  end.

Definition on_model (e : model_event) (s : session) : session :=
  match e with
  | MOpen => onopen (set_model Live s)
  | MMessage msg => onmessage false msg s
  | MClose => onclose (set_model Closed s)
  | MError => s
  end.

Definition step (s : session) (e : event) : session :=
  match e with
  | Tel e => on_ws_message e s
  | Mod e => on_model e s
  | TelClose => set_ws_open false s
  end.

End V1.

(** *** Second revision ("BakeryGhar"): the model session is requested on
    the [start] event. A [start] that comes again requests a new session;
    [model] follows the latest one. *)
Module V2.

Definition connection : session :=
  {| streamSid := None; geminiSession := false; isSessionOpen := false;
     callerId := "Unknown"; ws_open := true; model := Absent;
     to_telephony := []; to_model := []; orders_file := NoFile;
     close_requested := false |}.

(** [geminiSession = sessionPromise], the promise of a session that has
    just been requested: nothing has been asked of it yet. *)
Definition startGeminiSession (s : session) : session :=
  set_geminiSession true (set_close_requested false (set_model Connecting s)).

Definition onopen (s : session) : session := set_isSessionOpen true s.

Definition onclose (s : session) : session := set_isSessionOpen false s.

(** [geminiSession.then(s => s.close())], as in the first revision. *)
Definition close_model (s : session) : session := set_close_requested true s.

Definition on_ws_message (e : tel_event) (s : session) : session :=
  match e with
  | TStart sid caller =>
      let s := set_streamSid sid s in
      let s := set_callerId (default "Unknown" (truthy caller)) s in
      startGeminiSession s
  | TMedia payload => forward_media payload s
  | TStop => if geminiSession s then close_model s else s
  end.

Definition on_model (e : model_event) (s : session) : session :=
  match e with
  | MOpen => onopen (set_model Live s)
  | MMessage msg => onmessage true msg s
  | MClose => onclose (set_model Closed s)
  | MError => s
  end.

Definition step (s : session) (e : event) : session :=
  match e with
  | Tel e => on_ws_message e s
  | Mod e => on_model e s
  | TelClose => set_ws_open false s
  end.

End V2.

(** The events the environment can deliver in a state: telephony messages
    while the socket is open, model callbacks as the session's life allows
    (whether or not its close has been asked for), and the closing of the
    telephony socket from the far end while it is open. *)
Definition deliverable (s : session) (e : event) : bool :=
  match e with
  | Tel _ => ws_open s
  | Mod MOpen => match model s with Connecting => true | _ => false end
  | Mod (MMessage _) => match model s with Live => true | _ => false end
  | Mod MClose | Mod MError =>
      match model s with Connecting | Live => true | _ => false end
  | TelClose => ws_open s
  end.

Inductive reachable (init : session) (step : session -> event -> session)
    : session -> Prop :=
| reach_init : reachable init step init
| reach_step s e :
    reachable init step s -> deliverable s e = true ->
    reachable init step (step s e).

End Relay.

(** ** The claims in the specification's own terms *)

Module Claimed.
Import Store Relay.

(** Segment field of a code, as the decoder reads it. *)
Definition segment_of_code (code : Z) : Z :=
  Z.shiftr (Z.land (Z.lnot code) Codec.SEG_MASK) Codec.SEG_SHIFT.

(** Distance between two neighbouring decoder outputs of a segment; the
    companding law keeps the round-trip error within half of it. *)
Definition quantization_step (code : Z) : Z := 2 ^ (segment_of_code code + 3).

(** "decoding the encoded value reproduces the original within the
    quantization error bound", with the whole step as the bound. *)
Definition roundtrip_within_bound (s : Z) : Prop :=
  exists code d : Z,
    Codec.encodeUlaw [s] = [code] /\ Codec.decodeUlaw [code] = [d] /\
    Z.abs (d - s) <= quantization_step code.

(** The test that the round-trip error of [s] is larger than the whole
    quantization step of the segment [s] was coded in. *)
Definition off_by_more_than_a_step (s : Z) : bool :=
  let code := Codec.linearToUlaw_entry s in
  quantization_step code <? Z.abs (Codec.ulawToLinear_entry code - s).

(** "holds the arithmetic mean of [a] and [b]". *)
Definition arithmetic_mean (m a b : Z) : Prop :=
  (inject_Z m == (inject_Z a + inject_Z b) / 2)%Q.

Definition upsample_law (up : list Z -> list Z) (pcm8k : list Z) : Prop :=
  length (up pcm8k) = (2 * length pcm8k)%nat /\
  forall (i : nat) (x : Z), pcm8k !! i = Some x ->
    up pcm8k !! (2 * i)%nat = Some x /\
    exists m : Z, up pcm8k !! (2 * i + 1)%nat = Some m /\
      arithmetic_mean m x (default x (pcm8k !! S i)).

(** "the weighted combination of the anchor and its two neighbours". *)
Definition weighted_combination (w1 w2 w3 : Q) (m a b c : Z) : Prop :=
  (inject_Z m == inject_Z a * w1 + inject_Z b * w2 + inject_Z c * w3)%Q.

(** Length [floor(n/3)]; weights that sum to 1; a tail shorter than three
    samples passed through. *)
Definition downsample_law (down : list Z -> list Z) (w1 w2 w3 : Q)
    (pcm24k : list Z) : Prop :=
  (w1 + w2 + w3 == 1)%Q /\
  length (down pcm24k) = (length pcm24k / 3)%nat /\
  forall i : nat, (i < length pcm24k / 3)%nat ->
    exists m : Z, down pcm24k !! i = Some m /\
      match pcm24k !! (3 * i)%nat,
            pcm24k !! (3 * i + 1)%nat, pcm24k !! (3 * i + 2)%nat with
      | Some a, Some b, Some c => weighted_combination w1 w2 w3 m a b c
      | Some a, _, _ => m = a
      | None, _, _ => False
      end.

(** The fields the tool schema of [create_order] requires. *)
Definition required_fields : list string :=
  ["customer_name"; "phone_number"; "address"; "items"; "delivery_datetime"].

Definition missing_required (args : gmap string value) : Prop :=
  exists k : string, k ∈ required_fields /\ args !! k = None.

(** "a result indicating failure": neither of the two results that
    report that the call was carried out. *)
Definition failure_result (r : gmap string value) : Prop :=
  r !! "status" <> Some (VStr "success") /\
  r !! "status" <> Some (VStr "created").

(** The call is answered with a failure result. *)
Definition answered_with_failure (with_status : bool) (s : session)
    (call : functionCall * clock) : Prop :=
  exists r : gmap string value,
    to_model (toolCall_iter with_status s call) =
      to_model s ++ [ToolResponse (fc_id call.1) (fc_name call.1) r] /\
    failure_result r.

(** The call leaves the stored orders as they were. *)
Definition nothing_persisted (with_status : bool) (s : session)
    (call : functionCall * clock) : Prop :=
  getSavedOrders (orders_file (toolCall_iter with_status s call)) =
  getSavedOrders (orders_file s).

(** The tool call scenario of the specification, with [address] left
    out of the arguments. *)
Definition call_missing_address : functionCall * clock :=
  ({| fc_id := "call-1"; fc_name := "create_order";
      fc_args :=
        {[ "customer_name" := VStr "Asha";
           "phone_number" := VStr "+9779800000000";
           "items" :=
             VArr [VObj [("product", VStr "Black Forest");
                         ("weight", VStr "1kg");
                         ("quantity", VNum 1)]];
           "delivery_datetime" := VStr "2025-01-01T10:00" ]} |},
   {| now_ms := 1700000000000; now_iso := "2023-11-14T22:13:20.000Z" |}).

(** A call as it stands once telephony has started and the model
    session has opened (second revision). *)
Definition call_in_progress : session :=
  foldl V2.step V2.connection
    [Tel (TStart (Some "MZ1") (Some "+9779800000000")); Mod MOpen].

(** "Streaming": both sides are up and the stream is identified. *)
Definition streaming (s : session) (sid : string) : Prop :=
  ws_open s = true /\ model s = Live /\ isSessionOpen s = true /\
  truthy (streamSid s) = Some sid.

(** "the very next message sent to telephony is a clear/flush signal". *)
Definition clear_comes_next (with_status : bool) (s : session)
    (msg : server_msg) (sid : string) : Prop :=
  exists rest : list tel_msg,
    to_telephony (onmessage with_status msg s) =
      to_telephony s ++ TelClear sid :: rest.

(** "one side open, the other silently abandoned". *)
Definition half_open (s : session) : Prop :=
  (ws_open s = true /\ model s = Closed) \/
  (ws_open s = false /\ (model s = Connecting \/ model s = Live)).

End Claimed.

(** ** Routes that read the order store *)

Module Routes.
Import Store.

(** [app.get('/api/orders', ...)]: the reply is [res.json(getSavedOrders())]. *)
Definition get_orders (f : file) : list order := getSavedOrders f.

End Routes.

(** ** What goes over the two connections *)

Module Wire.
Import Relay.

(** The [streamSid] field of a message written to the telephony socket. *)
Definition tel_streamSid (m : tel_msg) : string :=
  match m with
  | TelMedia sid _ => sid
  | TelClear sid => sid
  end.

(** The stream ids that the [start] events of a run have announced. *)
Definition announced (events : list event) : list string :=
  omap (fun e => match e with
                 | Tel (TStart (Some sid) _) => Some sid
                 | _ => None
                 end) events.

(** Whether a message handed to the model session is a text prompt. *)
Definition is_text (m : model_msg) : bool :=
  match m with
  | RealtimeText _ => true
  | _ => false
  end.

(** The [sendToolResponse] that the dispatch loop issues for one function
    call: [result] starts as [{status: "success"}] and only [create_order]
    replaces it. *)
Definition answer (call : functionCall * clock) : model_msg :=
  ToolResponse (fc_id call.1) (fc_name call.1)
    (if String.eqb (fc_name call.1) "create_order"
     then result_created ("ord_" +:+ pretty (now_ms call.2))
     else result_success).

End Wire.

(** ** System instruction: the caller's number in the prompt *)

Module Prompt.

(** The double quote character. *)
Definition dq : string := String (Ascii.ascii_of_nat 34) EmptyString.

(** Whether the character [c] is the one that the string [s] consists of. *)
Definition is_char (c : Ascii.ascii) (s : string) : bool :=
  String.eqb (String c EmptyString) s.

(** [SYSTEM_INSTRUCTION_TEMPLATE], cut at the placeholder and at the date:
    the text before the placeholder, the text between the placeholder and
    the date, and the rest. Strings are sequences of bytes here (UTF-8);
    the placeholder and the characters that [replace] looks for are ASCII,
    so what is found is the same as in the code units of the source. *)
Definition prompt_before : string :=
  "
SYSTEM: You are the front-desk voice assistant for 'BakeryGhar'.
VOICE: Female, Indian/Nepali accent. Warm, energetic, and professional.
ROLE: efficient order taker. Do not be chatty. Get the details accurately.

CONTEXT: 
- User Phone Number: ".

Definition prompt_after : string :=
  " (Already known, verify only if needed).
- Current Date: ".

Definition prompt_rest : string :=
  "

MENU:
- Cakes: Black Forest, Red Velvet, Truffle, Pineapple, White Forest.
- Sizes: 1lb, 2lb, 1kg, 2kg.
- Pastries: Chocolate, Vanilla, Strawberry.

PROCESS:
1. Greet: " +:+ dq +:+
  "Namaste! Welcome to BakeryGhar. How can I help you today?" +:+ dq +:+
  "
2. Order Taking:
   - Ask for **Product** and **Flavor**.
   - Ask for **Weight/Size** (Required for cakes).
   - Ask for **Quantity**.
3. Logistics (Crucial):
   - Ask **When do you need this?** (Date and Time).
   - Ask **Delivery Address**.
   - Ask **Name**.
4. Confirmation:
   - Repeat the order summary: " +:+ dq +:+
  "1kg Black Forest Cake for [Time] at [Address]." +:+ dq +:+
  "
   - Ask " +:+ dq +:+
  "Is this correct?" +:+ dq +:+
  "
5. Closing:
   - If confirmed, save the order.
   - Say " +:+ dq +:+
  "Order placed! We will send an SMS shortly. Thank you!" +:+ dq +:+
  "

RULES:
- Handle dates intelligently.
- If the user speaks Nepali, switch to Nepali immediately.
- If asked for custom designs or prices, transfer to a human agent.
".

(** [date] is what [new Date().toDateString()] returned when the module was
    loaded. *)
Definition SYSTEM_INSTRUCTION_TEMPLATE (date : string) : string :=
  prompt_before +:+ "{{CALLER_NUMBER}}" +:+ prompt_after +:+ date +:+ prompt_rest.

(** [s] without its prefix [pat], if it starts with [pat]. *)
Fixpoint strip_prefix (pat s : string) : option string :=
  match pat with
  | EmptyString => Some s
  | String a pat' =>
      match s with
      | EmptyString => None
      | String b s' => if Ascii.eqb a b then strip_prefix pat' s' else None
      end
  end.

(** [StringIndexOf(s, pat, 0)], as the text before and the text after the
    first place where [pat] occurs in [s]. *)
Fixpoint split_at_first (pat s : string) : option (string * string) :=
  match strip_prefix pat s with
  | Some rest => Some (EmptyString, rest)
  | None =>
      match s with
      | EmptyString => None
      | String c s' =>
          match split_at_first pat s' with
          | Some (before, after) => Some (String c before, after)
          | None => None
          end
      end
  end.

(** [GetSubstitution] for a pattern that is a string: there are no capture
    groups, so [$$], [$&], [$`] and [$'] are expanded and every other [$]
    stands for itself. *)
Fixpoint get_substitution (matched before after template : string) : string :=
  match template with
  | EmptyString => EmptyString
  | String c rest =>
      if is_char c "$" then
        match rest with
        | EmptyString => String c EmptyString
        | String d rest' =>
            if is_char d "$" then
              "$" +:+ get_substitution matched before after rest'
            else if is_char d "&" then
              matched +:+ get_substitution matched before after rest'
            else if is_char d "`" then
              before +:+ get_substitution matched before after rest'
            else if is_char d "'" then
              after +:+ get_substitution matched before after rest'
            else String c (get_substitution matched before after rest)
        end
      else String c (get_substitution matched before after rest)
  end.

(** [s.replace(pat, replacement)] with a string pattern: the first
    occurrence only. *)
Definition js_replace (s pat replacement : string) : string :=
  match split_at_first pat s with
  | None => s
  | Some (before, after) =>
      before +:+ get_substitution pat before after replacement +:+ after
  end.

(** [dynamicSystemInstruction] of [startGeminiSession]. *)
Definition dynamicSystemInstruction (date callerId : string) : string :=
  js_replace (SYSTEM_INSTRUCTION_TEMPLATE date) "{{CALLER_NUMBER}}" callerId.

(** Whether a string is free of [$]. *)
Fixpoint no_dollar (s : string) : bool :=
  match s with
  | EmptyString => true
  | String c rest => negb (is_char c "$") && no_dollar rest
  end.

End Prompt.

(** * Properties *)

(** ** Typed arrays and number conversion *)

Lemma wrap_int16_id (z : Z) : is_int16 z -> wrap_int16 z = z.
Proof.
  unfold is_int16, wrap_int16. intros Hz.
  rewrite Z.mod_small; lia.
Qed.

Lemma wrap_int16_range (z : Z) : is_int16 (wrap_int16 z).
Proof.
  unfold is_int16, wrap_int16.
  pose proof (Z.mod_pos_bound (z + 32768) 65536). lia.
Qed.

(** Truncation sees the number, not the fraction it is written as. *)
Lemma Qtruncate_wd (p q : Q) : (p == q)%Q -> Qtruncate p = Qtruncate q.
Proof.
  destruct p as [a b], q as [c d]. unfold Qeq, Qtruncate. simpl. intros E.
  rewrite <- (Z.quot_mul_cancel_r a (Z.pos b) (Z.pos d)) by lia.
  rewrite E.
  rewrite (Z.mul_comm (Z.pos b) (Z.pos d)).
  apply Z.quot_mul_cancel_r; lia.
Qed.

Lemma Qtruncate_inject_Z (z : Z) : Qtruncate (inject_Z z) = z.
Proof. unfold Qtruncate. simpl. apply Z.quot_1_r. Qed.

Lemma Qtruncate_half (z : Z) : Qtruncate (inject_Z z / 2)%Q = Z.quot z 2.
Proof.
  unfold Qtruncate. simpl. f_equal. lia.
Qed.

(** A number between two integers of opposite sign keeps its bounds when
    its fraction is dropped. *)
Lemma Qtruncate_between (lo hi : Z) (q : Q) :
  lo <= 0 <= hi ->
  (inject_Z lo <= q)%Q -> (q <= inject_Z hi)%Q ->
  lo <= Qtruncate q <= hi.
Proof.
  destruct q as [a b]. unfold Qle, Qtruncate. simpl.
  intros [Hlo Hhi] Hl Hu.
  destruct (Z.le_gt_cases 0 a) as [Ha | Ha].
  - rewrite Z.quot_div_nonneg by lia. split.
    + pose proof (Z.div_pos a (Z.pos b)). lia.
    + apply Z.div_le_upper_bound; lia.
  - rewrite <- (Z.opp_involutive a), Z.quot_opp_l by lia.
    rewrite Z.quot_div_nonneg by lia. split.
    + enough (- a / Z.pos b <= - lo) by lia.
      apply Z.div_le_upper_bound; lia.
    + pose proof (Z.div_pos (- a) (Z.pos b)). lia.
Qed.

Lemma js_get_zrange (f : Z -> Z) (n : nat) (lo i : Z) :
  0 <= i < Z.of_nat n -> js_get (map f (zrange lo n)) i = Some (f (lo + i)).
Proof.
  unfold js_get. intros Hi.
  destruct (Z.ltb_spec i 0) as [? | _]; [lia |].
  revert lo i Hi. induction n as [| n IH]; intros lo i Hi; [lia |].
  destruct (Z.eq_dec i 0) as [-> | Hne].
  - simpl. now rewrite Z.add_0_r.
  - replace (Z.to_nat i) with (S (Z.to_nat (i - 1))) by lia.
    simpl. rewrite IH by lia. f_equal. f_equal. lia.
Qed.

Lemma elem_of_zrange (n : nat) (lo z : Z) :
  lo <= z < lo + Z.of_nat n -> In z (zrange lo n).
Proof.
  revert lo. induction n as [| n IH]; intros lo Hz; [lia |].
  simpl. destruct (Z.eq_dec lo z) as [-> | Hne]; [now left |].
  right. apply IH. lia.
Qed.

(** ** Loops that fill a result array *)

(** A loop that writes slot [i] on turn [i] leaves [g i] in every slot it
    has visited and the rest untouched. *)
Lemma fill_loop (step : list Z -> nat -> list Z) (g : nat -> Z)
    (r0 : list Z) (k : nat) :
  (forall r i, step r i = <[i := g i]> r) ->
  (k <= length r0)%nat ->
  length (foldl step r0 (seq 0 k)) = length r0 /\
  (forall i, (i < k)%nat -> foldl step r0 (seq 0 k) !! i = Some (g i)) /\
  (forall j, (k <= j)%nat -> foldl step r0 (seq 0 k) !! j = r0 !! j).
Proof.
  intros Hstep. induction k as [| k IH]; intros Hk.
  - simpl. repeat split; intros; lia || done.
  - destruct IH as (Hlen & Hlo & Hhi); [lia |].
    rewrite seq_S, foldl_app. simpl. rewrite Hstep.
    split; [by rewrite length_insert |]. split.
    + intros i Hi. destruct (decide (i = k)) as [-> | Hne].
      * apply list_lookup_insert_eq. lia.
      * rewrite list_lookup_insert_ne by done. apply Hlo. lia.
    + intros j Hj. rewrite list_lookup_insert_ne by lia. apply Hhi. lia.
Qed.

(** The same for a loop that writes the two slots [2i] and [2i+1]. *)
Lemma fill_loop_pairs (step : list Z -> nat -> list Z) (g h : nat -> Z)
    (r0 : list Z) (k : nat) :
  (forall r i, step r i = <[(i * 2 + 1)%nat := h i]> (<[(i * 2)%nat := g i]> r)) ->
  (k * 2 <= length r0)%nat ->
  length (foldl step r0 (seq 0 k)) = length r0 /\
  (forall i, (i < k)%nat ->
     foldl step r0 (seq 0 k) !! (i * 2)%nat = Some (g i) /\
     foldl step r0 (seq 0 k) !! (i * 2 + 1)%nat = Some (h i)) /\
  (forall j, (k * 2 <= j)%nat -> foldl step r0 (seq 0 k) !! j = r0 !! j).
Proof.
  intros Hstep. induction k as [| k IH]; intros Hk.
  - simpl. repeat split; intros; lia || done.
  - destruct IH as (Hlen & Hlo & Hhi); [lia |].
    rewrite seq_S, foldl_app. simpl. rewrite Hstep.
    split; [by rewrite !length_insert |]. split.
    + intros i Hi. destruct (decide (i = k)) as [-> | Hne].
      * split.
        -- rewrite list_lookup_insert_ne by lia.
           apply list_lookup_insert_eq. lia.
        -- apply list_lookup_insert_eq. rewrite length_insert. lia.
      * rewrite !list_lookup_insert_ne by lia. apply Hlo. lia.
    + intros j Hj. rewrite !list_lookup_insert_ne by lia. apply Hhi. lia.
Qed.

Lemma rd_lookup (a : list Z) (i : nat) (x : Z) :
  a !! i = Some x -> Resampler.rd a i = x.
Proof.
  unfold Resampler.rd. intros H. revert i H.
  induction a as [| y a IH]; intros [| i] H; simpl in *; try done.
  - by inversion H.
  - by apply IH.
Qed.

(** ** Binary64 rounding *)

(** Number of bits of a positive mantissa. *)
Lemma digits2_pos_bounds (m : positive) :
  2 ^ (Z.pos (digits2_pos m) - 1) <= Z.pos m < 2 ^ Z.pos (digits2_pos m).
Proof.
  induction m as [m IH | m IH |]; cbn [digits2_pos].
  - rewrite Pos2Z.inj_succ.
    replace (Z.succ (Z.pos (digits2_pos m)) - 1) with (Z.pos (digits2_pos m) - 1 + 1) by lia.
    rewrite Z.pow_succ_r by lia.
    destruct (Z.eq_dec (Z.pos (digits2_pos m)) 1) as [E | E].
    + rewrite E in *. simpl in *. lia.
    + rewrite Z.pow_add_r by lia. simpl (2 ^ 1). lia.
  - rewrite Pos2Z.inj_succ.
    replace (Z.succ (Z.pos (digits2_pos m)) - 1) with (Z.pos (digits2_pos m) - 1 + 1) by lia.
    rewrite Z.pow_succ_r by lia.
    rewrite Z.pow_add_r by lia. simpl (2 ^ 1). lia.
  - simpl. lia.
Qed.

Lemma digits2_pos_le (m : positive) (k : Z) :
  Z.pos m < 2 ^ k -> Z.pos (digits2_pos m) <= k.
Proof.
  intros H. destruct (Z.le_gt_cases (Z.pos (digits2_pos m)) k) as [? | Hgt]; [done |].
  pose proof (digits2_pos_bounds m) as [Hlo _].
  assert (0 <= k). { destruct (Z.le_gt_cases 0 k); [done |]. rewrite Z.pow_neg_r in H by lia. lia. }
  assert (2 ^ k <= 2 ^ (Z.pos (digits2_pos m) - 1)) by (apply Z.pow_le_mono_r; lia).
  lia.
Qed.

Lemma digits2_pos_ge (m : positive) (k : Z) :
  2 ^ k <= Z.pos m -> 0 <= k -> k + 1 <= Z.pos (digits2_pos m).
Proof.
  intros H Hk. destruct (Z.le_gt_cases (k + 1) (Z.pos (digits2_pos m))) as [? | Hgt]; [done |].
  pose proof (digits2_pos_bounds m) as [_ Hhi].
  assert (2 ^ Z.pos (digits2_pos m) <= 2 ^ k) by (apply Z.pow_le_mono_r; lia).
  lia.
Qed.

(** One right shift halves a mantissa that is not negative. *)
Lemma shr_1_m (mrs : shr_record) :
  0 <= shr_m mrs -> shr_m (shr_1 mrs) = shr_m mrs / 2 /\ 0 <= shr_m (shr_1 mrs).
Proof.
  destruct mrs as [m r s]. cbn [shr_m]. intros Hm.
  destruct m as [| [p | p |] |]; cbn [shr_1 shr_m]; try lia.
  - split; [| lia]. reflexivity.
  - split; [| lia].
    apply (Z.div_unique_pos _ _ _ 1); lia.
  - split; [| lia].
    apply (Z.div_unique_pos _ _ _ 0); lia.
  - split; [reflexivity | lia].
Qed.

Lemma pow2_xO (p : positive) : 2 ^ Z.pos p~0 = 2 ^ Z.pos p * 2 ^ Z.pos p.
Proof. rewrite Pos2Z.inj_xO, <- Z.pow_add_r by lia. f_equal. lia. Qed.

Lemma pow2_xI (p : positive) : 2 ^ Z.pos p~1 = 2 * (2 ^ Z.pos p * 2 ^ Z.pos p).
Proof.
  rewrite Pos2Z.inj_xI, <- Z.pow_add_r, <- Z.pow_succ_r by lia. f_equal. lia.
Qed.

Lemma iter_shr_1_m (p : positive) (mrs : shr_record) :
  0 <= shr_m mrs ->
  shr_m (SpecFloat.iter_pos shr_1 p mrs) = shr_m mrs / 2 ^ Z.pos p /\
  0 <= shr_m (SpecFloat.iter_pos shr_1 p mrs).
Proof.
  revert mrs. induction p as [p IH | p IH |]; intros mrs Hm;
    cbn [SpecFloat.iter_pos].
  - destruct (shr_1_m mrs Hm) as [E1 H1].
    destruct (IH _ H1) as [E2 H2]. destruct (IH _ H2) as [E3 H3].
    split; [| done]. rewrite E3, E2, E1, pow2_xI.
    assert (0 < 2 ^ Z.pos p) by (apply Z.pow_pos_nonneg; lia).
    rewrite !Z.div_div by lia. reflexivity.
  - destruct (IH _ Hm) as [E2 H2]. destruct (IH _ H2) as [E3 H3].
    split; [| done]. rewrite E3, E2, pow2_xO.
    assert (0 < 2 ^ Z.pos p) by (apply Z.pow_pos_nonneg; lia).
    rewrite !Z.div_div by lia. reflexivity.
  - destruct (shr_1_m mrs Hm) as [E1 H1]. split; [| done]. by rewrite E1.
Qed.

(** Shifting left by [d] bits. *)
Lemma iter_xO (m d : positive) :
  Z.pos (Pos.iter xO m d) = Z.pos m * 2 ^ Z.pos d.
Proof.
  rewrite Pos2Nat.inj_iter. rewrite <- (positive_nat_Z d).
  induction (Pos.to_nat d) as [| n IH].
  - simpl. lia.
  - rewrite Nat2Z.inj_succ, Z.pow_succ_r by lia.
    cbn [nat_rect]. rewrite Pos2Z.inj_xO. unfold Pos.iter in IH |- *.
    simpl in IH |- *. lia.
Qed.

Lemma quotient_window (m P A q r : Z) :
  0 < P -> m = P * q + r -> 0 <= r < P -> A * P <= m < 2 * (A * P) ->
  A <= q < 2 * A.
Proof.
  intros HP Hm Hr [Hlo Hhi]. split.
  - destruct (Z.le_gt_cases A q); [done |].
    assert (P * (q + 1) <= P * A) by (apply Z.mul_le_mono_nonneg_l; lia).
    lia.
  - destruct (Z.lt_ge_cases q (2 * A)); [done |].
    assert (P * (2 * A) <= P * q) by (apply Z.mul_le_mono_nonneg_l; lia).
    lia.
Qed.

Lemma rounding_error_window (m P q r m1 X A : Z) :
  0 < P -> 0 <= A -> m = P * q + r -> 0 <= r < P ->
  q <= m1 <= q + 1 -> m1 - 1 <= X <= m1 -> 2 * A * P <= m ->
  A * Z.abs (X * P - m) <= m.
Proof.
  intros HP HA Hm Hr Hm1 HX Hbig.
  assert (Hup : X * P <= (q + 1) * P) by (apply Z.mul_le_mono_nonneg_r; lia).
  assert (Hdn : (q - 1) * P <= X * P) by (apply Z.mul_le_mono_nonneg_r; lia).
  assert (Herr : Z.abs (X * P - m) <= 2 * P) by lia.
  assert (A * Z.abs (X * P - m) <= A * (2 * P))
    by (apply Z.mul_le_mono_nonneg_l; lia).
  lia.
Qed.

Lemma round_nearest_even_cases (q : Z) (l : location) :
  round_nearest_even q l = q \/ round_nearest_even q l = q + 1.
Proof.
  destruct l as [| []]; simpl; auto. destruct (Z.even q); auto.
Qed.

(** The second shift of [binary_round_aux]: a mantissa of 53 bits stays,
    one of 54 bits (the carry of the rounding) loses its last bit. *)
Lemma second_shift (sx : bool) (m1 e' : Z) :
  2 ^ 52 <= m1 <= 2 ^ 53 -> -1021 <= e' <= 960 ->
  exists (m' : positive) (j : Z),
    (let '(mrs'', e'') :=
       shr (shr_record_of_loc m1 loc_Exact) e'
         (Z.max (Zdigits2 m1 + e' - 53) (3 - 1024 - 53) - e') in
     match shr_m mrs'' with
     | 0 => S754_zero sx
     | Z.pos m0 =>
         if e'' <=? 1024 - 53 then S754_finite sx m0 e'' else S754_infinity sx
     | Z.neg _ => S754_nan
     end) = S754_finite sx m' (e' + j) /\
    0 <= j <= 1 /\
    m1 - 1 <= Z.pos m' * 2 ^ j <= m1.
Proof.
  intros Hm1 He.
  destruct m1 as [| mp |]; try (change (2 ^ 52) with 4503599627370496 in Hm1; lia).
  cbn [Zdigits2 shr_record_of_loc].
  assert (Hd1 : 53 <= Z.pos (digits2_pos mp) <= 54).
  { split.
    - apply (digits2_pos_ge mp 52); lia.
    - apply digits2_pos_le. change (2 ^ 54) with (2 * 2 ^ 53). lia. }
  destruct (Z.eq_dec (Z.pos (digits2_pos mp)) 53) as [E | E].
  - rewrite E.
    replace (Z.max (53 + e' - 53) (3 - 1024 - 53) - e') with 0 by lia.
    cbn [shr shr_m].
    exists mp, 0. rewrite Z.add_0_r.
    destruct (Z.leb_spec e' (1024 - 53)) as [_ | ?]; [| lia].
    split; [reflexivity |]. split; [lia |].
    rewrite Z.pow_0_r. lia.
  - replace (Z.pos (digits2_pos mp)) with 54 by lia.
    replace (Z.max (54 + e' - 53) (3 - 1024 - 53) - e') with 1 by lia.
    cbn [shr SpecFloat.iter_pos].
    destruct (shr_1_m {| shr_m := Z.pos mp; shr_r := false; shr_s := false |})
      as [Hh Hh0]; [simpl; lia |].
    cbn [shr_m] in Hh.
    pose proof (Z.div_mod (Z.pos mp) 2 ltac:(lia)) as Hdm.
    pose proof (Z.mod_pos_bound (Z.pos mp) 2 ltac:(lia)) as Hmod.
    rewrite <- Hh in Hdm.
    destruct (shr_m (shr_1 {| shr_m := Z.pos mp; shr_r := false; shr_s := false |}))
      as [| h |] eqn:Hshr.
    + change (2 ^ 52) with 4503599627370496 in Hm1. lia.
    + exists h, 1.
      destruct (Z.leb_spec (e' + 1) (1024 - 53)) as [_ | ?]; [| lia].
      split; [reflexivity |]. split; [lia |].
      change (2 ^ 1) with 2. lia.
    + lia.
Qed.

(** Rounding a positive mantissa to 53 bits, away from the subnormal and
    the overflow range: the result is finite, its exponent does not
    decrease, and its value is within [2^-51] of the exact value. *)
Lemma binary_round_aux_bound (sx : bool) (m : positive) (ex : Z) :
  -1021 <= ex -> Z.pos (digits2_pos m) + ex <= 900 ->
  exists (m' : positive) (k : Z),
    binary_round_aux prec emax sx (Z.pos m) ex loc_Exact =
      S754_finite sx m' (ex + k) /\
    0 <= k <= Z.max 0 (Z.pos (digits2_pos m) - 52) /\
    2 ^ 51 * Z.abs (Z.pos m' * 2 ^ k - Z.pos m) <= Z.pos m.
Proof.
  intros Hlo Hhi.
  pose proof (digits2_pos_bounds m) as [Hdlo Hdhi].
  set (d := Z.pos (digits2_pos m)) in *.
  unfold binary_round_aux, shr_fexp, fexp, emin, prec, emax.
  cbn [Zdigits2]. fold d.
  destruct (Z.le_gt_cases d 53) as [Hd | Hd].
  - (* the mantissa fits: nothing is shifted out *)
    assert (Hn : Z.max (d + ex - 53) (3 - 1024 - 53) - ex <= 0) by lia.
    assert (Hshr : forall mrs,
               shr mrs ex (Z.max (d + ex - 53) (3 - 1024 - 53) - ex) = (mrs, ex)).
    { intros mrs. unfold shr.
      destruct (Z.max (d + ex - 53) (3 - 1024 - 53) - ex); try reflexivity; lia. }
    rewrite Hshr.
    cbn [shr_record_of_loc shr_m loc_of_shr_record round_nearest_even Zdigits2].
    fold d. rewrite Hshr. cbn [shr_m].
    exists m, 0. rewrite Z.add_0_r.
    destruct (Z.leb_spec ex (1024 - 53)) as [_ | ?]; [| lia].
    split; [reflexivity |]. split; [lia |].
    rewrite Z.pow_0_r, Z.mul_1_r, Z.sub_diag. simpl. lia.
  - (* [d - 53] bits are shifted out *)
    assert (Hn : Z.max (d + ex - 53) (3 - 1024 - 53) - ex = d - 53) by lia.
    rewrite Hn.
    destruct (d - 53) as [| p |] eqn:Hp; try lia.
    cbn [shr].
    destruct (iter_shr_1_m p (shr_record_of_loc (Z.pos m) loc_Exact))
      as [Hq Hq0]; [simpl; lia |].
    cbn [shr_record_of_loc shr_m] in Hq.
    set (mrs' := SpecFloat.iter_pos shr_1 p (shr_record_of_loc (Z.pos m) loc_Exact)) in *.
    set (q := shr_m mrs') in *.
    assert (Hpow : 0 < 2 ^ Z.pos p) by (apply Z.pow_pos_nonneg; lia).
    assert (Hsplit : 2 ^ d = 2 ^ 53 * 2 ^ Z.pos p).
    { rewrite <- Z.pow_add_r by lia. f_equal. lia. }
    assert (Hsplit' : 2 ^ (d - 1) = 2 ^ 52 * 2 ^ Z.pos p).
    { rewrite <- Z.pow_add_r by lia. f_equal. lia. }
    pose proof (Z.div_mod (Z.pos m) (2 ^ Z.pos p) ltac:(lia)) as Hdm.
    pose proof (Z.mod_pos_bound (Z.pos m) (2 ^ Z.pos p) Hpow) as Hmod.
    rewrite <- Hq in Hdm.
    assert (Hq52 : 2 ^ 52 <= q < 2 ^ 53).
    { change (2 ^ 53) with (2 * 2 ^ 52).
      apply (quotient_window (Z.pos m) (2 ^ Z.pos p) (2 ^ 52) q
               (Z.pos m mod 2 ^ Z.pos p)); try done.
      rewrite <- Hsplit'.
      replace (2 * 2 ^ (d - 1)) with (2 ^ d); [lia |].
      rewrite Hsplit, Hsplit'. change (2 ^ 53) with (2 * 2 ^ 52). lia. }
    assert (Hm1 : q <= round_nearest_even q (loc_of_shr_record mrs') <= q + 1).
    { destruct (round_nearest_even_cases q (loc_of_shr_record mrs')) as [-> | ->];
        lia. }
    set (m1 := round_nearest_even q (loc_of_shr_record mrs')) in *.
    destruct (second_shift sx m1 (ex + Z.pos p)) as (m' & j & Hres & Hj & Hm');
      [lia | lia |].
    rewrite Hres. exists m', (Z.pos p + j).
    split; [f_equal; lia |]. split; [lia |].
    rewrite Z.pow_add_r by lia.
    rewrite Hsplit' in Hdlo.
    change (2 ^ 52) with (2 * 2 ^ 51) in Hdlo.
    replace (Z.pos m' * (2 ^ Z.pos p * 2 ^ j))
      with (Z.pos m' * 2 ^ j * 2 ^ Z.pos p) by lia.
    apply (rounding_error_window (Z.pos m) (2 ^ Z.pos p) q
             (Z.pos m mod 2 ^ Z.pos p) m1); try done; lia.
Qed.

Lemma digits2_pos_shift (m : positive) (t : Z) (mz : positive) :
  0 <= t -> Z.pos mz = Z.pos m * 2 ^ t ->
  Z.pos (digits2_pos mz) <= Z.pos (digits2_pos m) + t.
Proof.
  intros Ht E. apply digits2_pos_le. rewrite E, Z.pow_add_r by lia.
  pose proof (digits2_pos_bounds m) as [_ Hhi].
  apply Z.mul_lt_mono_pos_r; [apply Z.pow_pos_nonneg; lia | done].
Qed.

Lemma shl_align_spec (mx : positive) (ex ex' : Z) :
  exists (mz : positive) (ez : Z),
    shl_align mx ex ex' = (mz, ez) /\
    ez = Z.min ex ex' /\
    Z.pos mz = Z.pos mx * 2 ^ (ex - ez).
Proof.
  unfold shl_align.
  destruct (ex' - ex) as [| d | d] eqn:Hd.
  - exists mx, ex. split; [done |]. split; [lia |].
    rewrite Z.sub_diag, Z.pow_0_r. lia.
  - exists mx, ex. split; [done |]. split; [lia |].
    rewrite Z.sub_diag, Z.pow_0_r. lia.
  - exists (Pos.iter xO mx d), ex'. split; [done |]. split; [lia |].
    rewrite iter_xO. f_equal. f_equal. lia.
Qed.

(** [binary_round] of a positive mantissa, with the error measured on a
    common scale [2^e0]. *)
Lemma binary_round_bound (sx : bool) (mx : positive) (ex e0 : Z) :
  -900 <= ex -> Z.pos (digits2_pos mx) + ex <= 900 -> e0 <= ex - 52 ->
  exists (m' : positive) (e' : Z),
    binary_round prec emax sx mx ex = S754_finite sx m' e' /\
    ex - 52 <= e' /\
    2 ^ 51 * Z.abs (Z.pos m' * 2 ^ (e' - e0) - Z.pos mx * 2 ^ (ex - e0)) <=
    Z.pos mx * 2 ^ (ex - e0).
Proof.
  intros Hlo Hhi He0. unfold binary_round.
  destruct (shl_align_spec mx ex (fexp prec emax (Z.pos (digits2_pos mx) + ex)))
    as (mz & ez & -> & Hez & Hmz).
  assert (Hez' : ex - 52 <= ez <= ex).
  { unfold fexp, emin, prec, emax in Hez.
    pose proof (Pos2Z.is_pos (digits2_pos mx)). lia. }
  destruct (binary_round_aux_bound sx mz ez) as (m' & k & -> & Hk & Herr).
  { lia. }
  { pose proof (digits2_pos_shift mx (ex - ez) mz ltac:(lia) Hmz). lia. }
  exists m', (ez + k). split; [done |]. split; [lia |].
  replace (ez + k - e0) with (k + (ez - e0)) by lia.
  replace (ex - e0) with ((ex - ez) + (ez - e0)) by lia.
  rewrite !Z.pow_add_r by lia. rewrite !Z.mul_assoc, <- Hmz.
  assert (HS : 0 < 2 ^ (ez - e0)) by (apply Z.pow_pos_nonneg; lia).
  rewrite <- Z.mul_sub_distr_r, Z.abs_mul, (Z.abs_eq (2 ^ (ez - e0))) by lia.
  rewrite Z.mul_assoc. apply Z.mul_le_mono_nonneg_r; lia.
Qed.

Lemma scaled_small_digits (mm : positive) (ez : Z) :
  -200 <= ez -> Z.pos mm * 2 ^ (ez + 200) <= 2 ^ 221 ->
  Z.pos (digits2_pos mm) + ez <= 22.
Proof.
  intros Hez Hle.
  assert (Hp : 0 < 2 ^ (ez + 200)) by (apply Z.pow_pos_nonneg; lia).
  destruct (Z.le_gt_cases ez 22) as [Hsmall | Hbig].
  - enough (Z.pos (digits2_pos mm) <= 22 - ez) by lia.
    apply digits2_pos_le.
    apply (Z.mul_lt_mono_pos_r (2 ^ (ez + 200))); [done |].
    rewrite <- Z.pow_add_r by lia.
    replace (22 - ez + (ez + 200)) with 222 by lia.
    change (2 ^ 222) with (2 * 2 ^ 221).
    assert (0 < 2 ^ 221) by (apply Z.pow_pos_nonneg; lia). lia.
  - exfalso.
    assert (2 ^ 222 <= 2 ^ (ez + 200)) by (apply Z.pow_le_mono_r; lia).
    change (2 ^ 222) with (2 * 2 ^ 221) in *.
    assert (0 < 2 ^ 221) by (apply Z.pow_pos_nonneg; lia).
    assert (1 * 2 ^ (ez + 200) <= Z.pos mm * 2 ^ (ez + 200))
      by (apply Z.mul_le_mono_nonneg_r; lia).
    lia.
Qed.

Lemma aligned_scaled (s : bool) (m mz : positive) (e ez : Z) :
  -200 <= ez <= e -> Z.pos mz = Z.pos m * 2 ^ (e - ez) ->
  cond_Zopp s (Z.pos mz) * 2 ^ (ez + 200) = Binary64.SFscaled (S754_finite s m e).
Proof.
  intros He Hmz. unfold Binary64.SFscaled, cond_Zopp.
  replace (e + 200) with ((e - ez) + (ez + 200)) by lia.
  rewrite (Z.pow_add_r 2 (e - ez) (ez + 200)) by lia.
  destruct s; rewrite Hmz; ring.
Qed.

(** Adding two tame doubles of moderate size gives a tame double whose
    value is within [2^-51] of the exact sum. *)
Lemma SF64add_bound (x y : spec_float) (lo : Z) :
  -148 <= lo -> Binary64.tame lo x -> Binary64.tame lo y ->
  Z.abs (Binary64.SFscaled x) <= 2 ^ 220 -> Z.abs (Binary64.SFscaled y) <= 2 ^ 220 ->
  Binary64.tame (lo - 52) (SF64add x y) /\
  2 ^ 51 * Z.abs (Binary64.SFscaled (SF64add x y) - (Binary64.SFscaled x + Binary64.SFscaled y)) <=
  Z.abs (Binary64.SFscaled x + Binary64.SFscaled y).
Proof.
  intros Hlo Hx Hy Bx By.
  destruct x as [sx | | | sx mx ex], y as [sy | | | sy my ey];
    try contradiction; cbn [Binary64.tame] in Hx, Hy.
  - (* zero + zero *)
    assert (E : Binary64.SFscaled (SF64add (S754_zero sx) (S754_zero sy)) = 0)
      by (destruct sx, sy; reflexivity).
    rewrite E. split; [by destruct sx, sy |].
    simpl. rewrite Z.mul_0_r. done.
  - (* zero + finite *)
    cbn [SF64add SFadd]. unfold SF64add; cbn [SFadd].
    split; [cbn [Binary64.tame]; lia |].
    cbn [Binary64.SFscaled]. rewrite Z.add_0_l, Z.sub_diag. simpl (Z.abs 0).
    rewrite Z.mul_0_r. apply Z.abs_nonneg.
  - (* finite + zero *)
    unfold SF64add; cbn [SFadd].
    split; [cbn [Binary64.tame]; lia |].
    cbn [Binary64.SFscaled]. rewrite Z.add_0_r, Z.sub_diag. simpl (Z.abs 0).
    rewrite Z.mul_0_r. apply Z.abs_nonneg.
  - (* finite + finite *)
    unfold SF64add; cbn [SFadd].
    set (ez := Z.min ex ey).
    destruct (shl_align_spec mx ex ez) as (mz1 & e1 & -> & He1 & Hmz1).
    destruct (shl_align_spec my ey ez) as (mz2 & e2 & -> & He2 & Hmz2).
    cbn [fst].
    replace e1 with ez in Hmz1 by lia. replace e2 with ez in Hmz2 by lia.
    clear e1 He1 e2 He2.
    pose proof (aligned_scaled sx mx mz1 ex ez ltac:(lia) Hmz1) as S1.
    pose proof (aligned_scaled sy my mz2 ey ez ltac:(lia) Hmz2) as S2.
    set (M := cond_Zopp sx (Z.pos mz1) + cond_Zopp sy (Z.pos mz2)) in *.
    assert (HS : M * 2 ^ (ez + 200) =
                 Binary64.SFscaled (S754_finite sx mx ex) + Binary64.SFscaled (S754_finite sy my ey)).
    { unfold M. rewrite Z.mul_add_distr_r, S1, S2. done. }
    rewrite <- HS.
    assert (Hp : 0 < 2 ^ (ez + 200)) by (apply Z.pow_pos_nonneg; lia).
    assert (Hbig : Z.abs M * 2 ^ (ez + 200) <= 2 ^ 221).
    { rewrite <- (Z.abs_eq (2 ^ (ez + 200))), <- Z.abs_mul, HS by lia.
      change (2 ^ 221) with (2 ^ 220 + 2 ^ 220). lia. }
    unfold binary_normalize.
    destruct M as [| mm | mm] eqn:HM.
    + split; [done |]. simpl. rewrite Z.mul_0_r. done.
    + destruct (binary_round_bound false mm ez (-200)) as (m' & e' & -> & He' & Herr).
      { lia. }
      { pose proof (scaled_small_digits mm ez ltac:(lia) Hbig). lia. }
      { lia. }
      split; [cbn [Binary64.tame]; lia |].
      cbn [Binary64.SFscaled].
      replace (e' - -200) with (e' + 200) in Herr by lia.
      replace (ez - -200) with (ez + 200) in Herr by lia.
      rewrite (Z.abs_eq (Z.pos mm * _)) by lia. done.
    + destruct (binary_round_bound true mm ez (-200)) as (m' & e' & -> & He' & Herr).
      { lia. }
      { pose proof (scaled_small_digits mm ez ltac:(lia) Hbig). lia. }
      { lia. }
      split; [cbn [Binary64.tame]; lia |].
      cbn [Binary64.SFscaled].
      replace (e' - -200) with (e' + 200) in Herr by lia.
      replace (ez - -200) with (ez + 200) in Herr by lia.
      replace (- Z.pos m' * 2 ^ (e' + 200) - Z.neg mm * 2 ^ (ez + 200))
        with (- (Z.pos m' * 2 ^ (e' + 200) - Z.pos mm * 2 ^ (ez + 200))) by lia.
      rewrite Z.abs_opp.
      rewrite (Z.abs_neq (Z.neg mm * _)) by lia.
      replace (- (Z.neg mm * 2 ^ (ez + 200))) with (Z.pos mm * 2 ^ (ez + 200)) by lia.
      done.
Qed.

Lemma terms_ok_all (z : Z) : is_int16 z -> Binary64.terms_ok z = true.
Proof.
  intros Hz.
  assert (Hall : forallb Binary64.terms_ok (zrange (-32768) (Z.to_nat 65536)) = true)
    by (vm_compute; reflexivity).
  rewrite forallb_forall in Hall. apply Hall, elem_of_zrange.
  unfold is_int16 in Hz. lia.
Qed.

Lemma tame_weaken (lo lo' : Z) (f : spec_float) :
  lo' <= lo -> Binary64.tame lo f -> Binary64.tame lo' f.
Proof. destruct f; simpl; try done. lia. Qed.

Lemma term_ok_spec (lo hi : Z) (f : float) :
  lo <= 0 <= hi -> Binary64.term_ok lo hi f = true ->
  Binary64.tame (-60) (Prim2SF f) /\
  lo * 2 ^ 200 <= 10 * Binary64.SFscaled (Prim2SF f) <= hi * 2 ^ 200.
Proof.
  intros Hlh. unfold Binary64.term_ok.
  assert (HT : 0 < 2 ^ 200) by (apply Z.pow_pos_nonneg; lia).
  destruct (Prim2SF f) as [s | s | | s m e]; try done.
  - intros _. split; [done |]. simpl (Binary64.SFscaled _). nia.
  - intros H. apply andb_prop in H as [H Hhi]. apply andb_prop in H as [He Hlo].
    apply Z.leb_le in He, Hlo, Hhi.
    rewrite !Z.shiftl_mul_pow2 in Hlo, Hhi by lia.
    split; [done |]. cbn [Binary64.SFscaled].
    replace (e + 200) with ((e + 60) + 140) by lia.
    change 200 with (60 + 140).
    rewrite !Z.pow_add_r by lia.
    assert (H140 : 0 < 2 ^ 140) by (apply Z.pow_pos_nonneg; lia).
    split.
    + replace (lo * (2 ^ 60 * 2 ^ 140)) with (lo * 2 ^ 60 * 2 ^ 140) by ring.
      replace (10 * ((if s then - Z.pos m else Z.pos m) * (2 ^ (e + 60) * 2 ^ 140)))
        with (10 * (if s then - Z.pos m else Z.pos m) * 2 ^ (e + 60) * 2 ^ 140)
        by ring.
      apply Z.mul_le_mono_nonneg_r; lia.
    + replace (hi * (2 ^ 60 * 2 ^ 140)) with (hi * 2 ^ 60 * 2 ^ 140) by ring.
      replace (10 * ((if s then - Z.pos m else Z.pos m) * (2 ^ (e + 60) * 2 ^ 140)))
        with (10 * (if s then - Z.pos m else Z.pos m) * 2 ^ (e + 60) * 2 ^ 140)
        by ring.
      apply Z.mul_le_mono_nonneg_r; lia.
Qed.

(** A double strictly between -32769 and 32768 truncates to a 16-bit
    integer. *)
Lemma truncation_in_range (s : bool) (m : positive) (e : Z) :
  -200 <= e ->
  -32769 * 2 ^ 200 < Binary64.SFscaled (S754_finite s m e) < 32768 * 2 ^ 200 ->
  is_int16 (let mag := if 0 <=? e then Z.pos m * 2 ^ e
                       else Z.pos m / 2 ^ (- e) in
            if s then - mag else mag).
Proof.
  intros He. cbn [Binary64.SFscaled]. intros Hv.
  assert (Hmag : forall mag : Z, 0 <= mag ->
                   mag * 2 ^ 200 <= Z.pos m * 2 ^ (e + 200) ->
                   is_int16 (if s then - mag else mag)).
  { intros mag Hmag0 Hle. unfold is_int16.
    assert (HT : 0 < 2 ^ 200) by (apply Z.pow_pos_nonneg; lia).
    destruct s.
    - assert (mag * 2 ^ 200 < 32769 * 2 ^ 200) by lia.
      assert (mag < 32769) by (apply (Z.mul_lt_mono_pos_r (2 ^ 200)); lia).
      lia.
    - assert (mag * 2 ^ 200 < 32768 * 2 ^ 200) by lia.
      assert (mag < 32768) by (apply (Z.mul_lt_mono_pos_r (2 ^ 200)); lia).
      lia. }
  cbv zeta. destruct (Z.leb_spec 0 e) as [Hpos | Hneg].
  - apply Hmag.
    + apply Z.mul_nonneg_nonneg; [lia | apply Z.pow_nonneg; lia].
    + rewrite Z.pow_add_r by lia. lia.
  - assert (Hp : 0 < 2 ^ (- e)) by (apply Z.pow_pos_nonneg; lia).
    apply Hmag.
    + apply Z.div_pos; lia.
    + replace 200 with (- e + (e + 200)) at 1 by lia.
      rewrite Z.pow_add_r by lia.
      rewrite Z.mul_assoc.
      apply Z.mul_le_mono_nonneg_r; [apply Z.pow_nonneg; lia |].
      rewrite Z.mul_comm. apply Z.mul_div_le. done.
Qed.


Lemma tap_gain25_no_wrap (a b c : Z) :
  is_int16 a -> is_int16 b -> is_int16 c ->
  let f := Resampler.filter25 (Resampler.scale_clamp25 a)
             (Resampler.scale_clamp25 b) (Resampler.scale_clamp25 c) in
  Resampler.tap_gain25 a b c = Resampler.float_trunc f /\
  is_int16 (Resampler.float_trunc f).
Proof.
  intros Ha Hb Hc f. subst f.
  enough (Hr : is_int16
                 (Resampler.float_trunc
                    (Resampler.filter25 (Resampler.scale_clamp25 a)
                       (Resampler.scale_clamp25 b) (Resampler.scale_clamp25 c)))).
  { split; [| done]. apply (wrap_int16_id _ Hr). }
  pose proof (terms_ok_all a Ha) as Ta. pose proof (terms_ok_all b Hb) as Tb.
  pose proof (terms_ok_all c Hc) as Tc.
  unfold Binary64.terms_ok in Ta, Tb, Tc.
  apply andb_prop in Ta as [Ta _]. apply andb_prop in Ta as [_ Ta].
  apply andb_prop in Tb as [_ Tb].
  apply andb_prop in Tc as [Tc _]. apply andb_prop in Tc as [_ Tc].
  apply term_ok_spec in Ta as [TX BX]; [| lia].
  apply term_ok_spec in Tb as [TY BY]; [| lia].
  apply term_ok_spec in Tc as [TW BW]; [| lia].
  unfold Resampler.float_trunc, Resampler.filter25. rewrite !add_spec.
  set (X := Prim2SF (Resampler.scale_clamp25 a * 0.2)) in *.
  set (Y := Prim2SF (Resampler.scale_clamp25 b * 0.6)) in *.
  set (W := Prim2SF (Resampler.scale_clamp25 c * 0.2)) in *.
  assert (HT : 0 < 2 ^ 200) by (apply Z.pow_pos_nonneg; lia).
  assert (H220 : 2 ^ 220 = 1048576 * 2 ^ 200).
  { change 220 with (20 + 200). rewrite Z.pow_add_r by lia. reflexivity. }
  destruct (SF64add_bound X Y (-60)) as [T1 E1]; try done; try lia.
  set (R1 := SF64add X Y) in *.
  change (2 ^ 51) with 2251799813685248 in E1.
  destruct (SF64add_bound R1 W (-112)) as [T2 E2]; try lia.
  { done. }
  { apply (tame_weaken (-60)); [lia | done]. }
  set (R2 := SF64add R1 W) in *.
  change (2 ^ 51) with 2251799813685248 in E2.
  assert (Hv : -32769 * 2 ^ 200 < Binary64.SFscaled R2 < 32768 * 2 ^ 200) by lia.
  destruct R2 as [s | s | | s m e]; try done; try (unfold is_int16; lia).
  apply truncation_in_range; [cbn [Binary64.tame] in T2; lia | done].
Qed.

(** The revision with gain 2.5 against exact arithmetic: each weighted
    double is checked, over all 65536 samples, to lie within [2^-30] of
    the exact tenth; the two additions add a relative error of [2^-51]
    each; so the filtered double is closer than [2^-20] to the exact
    combination, which is a whole number of tenths. *)
Lemma terms_near_all (z : Z) : is_int16 z -> Binary64.terms_near z = true.
Proof.
  intros Hz.
  assert (Hall : forallb Binary64.terms_near (zrange (-32768) (Z.to_nat 65536)) = true)
    by (vm_compute; reflexivity).
  rewrite forallb_forall in Hall. apply Hall, elem_of_zrange.
  unfold is_int16 in Hz. lia.
Qed.

Lemma quot_step (T d lo hi : Z) :
  0 < T -> lo * T < T * d -> T * d < hi * T -> lo < d < hi.
Proof. intros HT H1 H2. nia. Qed.

Lemma quot_near_tenths (V K : Z) :
  1048576 * Z.abs (10 * V - K * 2 ^ 200) <= 2 ^ 200 ->
  Z.quot V (2 ^ 200) = Z.quot K 10 \/
  (Z.rem K 10 = 0 /\ Z.quot V (2 ^ 200) = Z.quot K 10 - Z.sgn K).
Proof.
  intros H.
  assert (HT : 1048576 < 2 ^ 200) by (vm_compute; reflexivity).
  pose proof (Z.quot_rem' V (2 ^ 200)) as EV.
  pose proof (Z.quot_rem' K 10) as EK.
  pose proof (Z.rem_bound_pos_neg V (2 ^ 200)) as BVn.
  pose proof (Z.rem_bound_pos V (2 ^ 200)) as BVp.
  pose proof (Z.rem_bound_pos_neg K 10) as BKn.
  pose proof (Z.rem_bound_pos K 10) as BKp.
  revert H HT EV EK BVn BVp BKn BKp.
  generalize (2 ^ 200). intros T.
  generalize (Z.quot V T) (Z.rem V T) (Z.quot K 10) (Z.rem K 10).
  intros m p k r H HT EV EK BVn BVp BKn BKp.
  assert (ET : T * m = T * (m - k) + T * k) by ring.
  assert (EKT : K * T = 10 * (T * k) + r * T) by (rewrite EK; ring).
  remember (m - k) as d eqn:Hdk.
  destruct (Z.lt_trichotomy K 0) as [HK | [HK | HK]].
  - rewrite (Z.sgn_neg K HK).
    assert (HKT : K * T <= - T) by nia.
    assert (HV : V < 0) by lia.
    specialize (BVn ltac:(lia) ltac:(lia)). specialize (BKn ltac:(lia) ltac:(lia)).
    assert (Hr : - 9 * T <= r * T <= 0) by nia.
    assert (Hd : -1 < d < 2) by (apply (quot_step T); lia).
    assert (Hd' : d = 0 \/ d = 1) by lia.
    destruct Hd' as [Hd0 | Hd1]; [left; lia |]. right.
    split; [| lia]. rewrite Hd1 in ET.
    assert (Hr0 : - T < 10 * (r * T)) by lia. nia.
  - rewrite HK in H, EK, BKp. rewrite Z.mul_0_l, Z.sub_0_r in H.
    specialize (BKp ltac:(lia) ltac:(lia)).
    left. assert (Hk : k = 0) by lia.
    assert (Hm : -1 < m < 1); [| lia].
    destruct (Z.le_gt_cases 0 V) as [HV | HV].
    + specialize (BVp ltac:(lia) ltac:(lia)). apply (quot_step T); lia.
    + specialize (BVn ltac:(lia) ltac:(lia)). apply (quot_step T); lia.
  - rewrite (Z.sgn_pos K HK).
    assert (HKT : T <= K * T) by nia.
    assert (HV : 0 < V) by lia.
    specialize (BVp ltac:(lia) ltac:(lia)). specialize (BKp ltac:(lia) ltac:(lia)).
    assert (Hr : 0 <= r * T <= 9 * T) by nia.
    assert (Hd : -2 < d < 1) by (apply (quot_step T); lia).
    assert (Hd' : d = 0 \/ d = -1) by lia.
    destruct Hd' as [Hd0 | Hd1]; [left; lia |]. right.
    split; [| lia]. rewrite Hd1 in ET.
    assert (Hr0 : 10 * (r * T) < T) by lia. nia.
Qed.

Lemma term_near_spec (k : Z) (f : float) :
  Binary64.term_near k f = true ->
  Binary64.tame (-60) (Prim2SF f) /\
  Z.abs (10 * Binary64.SFscaled (Prim2SF f) - k * 2 ^ 200) <= 2 ^ 170.
Proof.
  unfold Binary64.term_near.
  destruct (Prim2SF f) as [s | s | | s m e]; try done.
  - intros H. apply Z.eqb_eq in H as ->. split; [done |]. simpl. done.
  - intros H. apply andb_prop in H as [He Hn].
    apply Z.leb_le in He, Hn.
    rewrite !Z.shiftl_mul_pow2 in Hn by lia.
    split; [done |]. cbn [Binary64.SFscaled].
    replace (e + 200) with ((e + 60) + 140) by lia.
    rewrite (Z.pow_add_r 2 (e + 60) 140) by lia.
    change (2 ^ 200) with (2 ^ 60 * 2 ^ 140). change (2 ^ 170) with (2 ^ 30 * 2 ^ 140).
    assert (H140 : 0 < 2 ^ 140) by (apply Z.pow_pos_nonneg; lia).
    replace (10 * ((if s then - Z.pos m else Z.pos m) * (2 ^ (e + 60) * 2 ^ 140)) -
             k * (2 ^ 60 * 2 ^ 140))
      with ((10 * (if s then - Z.pos m else Z.pos m) * 2 ^ (e + 60) - k * 2 ^ 60) *
            2 ^ 140) by ring.
    rewrite Z.abs_mul, (Z.abs_eq (2 ^ 140)) by lia.
    apply Z.mul_le_mono_nonneg_r; [lia | done].
Qed.

(** A double whose exponent is above -200 truncates to the quotient of its
    scaled value. *)
Lemma float_trunc_scaled (f : float) :
  Binary64.tame (-200) (Prim2SF f) ->
  Resampler.float_trunc f = Z.quot (Binary64.SFscaled (Prim2SF f)) (2 ^ 200).
Proof.
  unfold Resampler.float_trunc.
  destruct (Prim2SF f) as [s | s | | s m e]; try done.
  cbn [Binary64.tame Binary64.SFscaled]. intros He.
  assert (HT : 0 < 2 ^ 200) by (apply Z.pow_pos_nonneg; lia).
  assert (Hmag : (if 0 <=? e then Z.pos m * 2 ^ e else Z.pos m / 2 ^ (- e)) =
                 Z.pos m * 2 ^ (e + 200) / 2 ^ 200).
  { destruct (Z.leb_spec 0 e) as [Hpos | Hneg].
    - rewrite Z.pow_add_r, Z.mul_assoc, Z.div_mul by lia. done.
    - replace 200 with (- e + (e + 200)) at 2 by lia.
      rewrite (Z.pow_add_r 2 (- e)) by lia.
      assert (0 < 2 ^ (e + 200)) by (apply Z.pow_pos_nonneg; lia).
      assert (0 < 2 ^ (- e)) by (apply Z.pow_pos_nonneg; lia).
      rewrite Z.div_mul_cancel_r by lia. done. }
  rewrite Hmag.
  assert (Hnn : 0 <= Z.pos m * 2 ^ (e + 200)).
  { apply Z.mul_nonneg_nonneg; [lia | apply Z.pow_nonneg; lia]. }
  destruct s.
  - rewrite Z.mul_opp_l, Z.quot_opp_l by lia.
    by rewrite Z.quot_div_nonneg by lia.
  - by rewrite Z.quot_div_nonneg by lia.
Qed.

Lemma tap_gain25_near (a b c : Z) :
  is_int16 a -> is_int16 b -> is_int16 c ->
  let K := Binary64.clamped_twice a + 3 * Binary64.clamped_twice b + Binary64.clamped_twice c in
  let m := Resampler.float_trunc
             (Resampler.filter25 (Resampler.scale_clamp25 a)
                (Resampler.scale_clamp25 b) (Resampler.scale_clamp25 c)) in
  m = Z.quot K 10 \/ (Z.rem K 10 = 0 /\ m = Z.quot K 10 - Z.sgn K).
Proof.
  intros Ha Hb Hc K m. subst m.
  pose proof (terms_near_all a Ha) as Ta. pose proof (terms_near_all b Hb) as Tb.
  pose proof (terms_near_all c Hc) as Tc.
  unfold Binary64.terms_near in Ta, Tb, Tc.
  apply andb_prop in Ta as [Ta _]. apply andb_prop in Tb as [_ Tb].
  apply andb_prop in Tc as [Tc _].
  apply term_near_spec in Ta as [TX NX].
  apply term_near_spec in Tb as [TY NY].
  apply term_near_spec in Tc as [TW NW].
  assert (Ca : -65536 <= Binary64.clamped_twice a <= 65534) by (unfold Binary64.clamped_twice; lia).
  assert (Cb : -65536 <= Binary64.clamped_twice b <= 65534) by (unfold Binary64.clamped_twice; lia).
  assert (Cc : -65536 <= Binary64.clamped_twice c <= 65534) by (unfold Binary64.clamped_twice; lia).
  subst K.
  generalize dependent (Binary64.clamped_twice a). intros ka NX Ca.
  generalize dependent (Binary64.clamped_twice b). intros kb NY Cb.
  generalize dependent (Binary64.clamped_twice c). intros kc NW Cc.
  assert (HT : 0 < 2 ^ 200) by (apply Z.pow_pos_nonneg; lia).
  assert (H220 : 2 ^ 220 = 1048576 * 2 ^ 200).
  { change 220 with (20 + 200). rewrite Z.pow_add_r by lia. reflexivity. }
  assert (H170 : 1073741824 * 2 ^ 170 = 2 ^ 200).
  { change 200 with (30 + 170). rewrite Z.pow_add_r by lia. reflexivity. }
  set (X := Prim2SF (Resampler.scale_clamp25 a * 0.2)) in *.
  set (Y := Prim2SF (Resampler.scale_clamp25 b * 0.6)) in *.
  set (W := Prim2SF (Resampler.scale_clamp25 c * 0.2)) in *.
  destruct (SF64add_bound X Y (-60)) as [T1 E1]; try done; try lia.
  change (2 ^ 51) with 2251799813685248 in E1.
  destruct (SF64add_bound (SF64add X Y) W (-112)) as [T2 E2]; try lia.
  { done. }
  { apply (tame_weaken (-60)); [lia | done]. }
  change (2 ^ 51) with 2251799813685248 in E2.
  rewrite float_trunc_scaled; unfold Resampler.filter25; rewrite !add_spec;
    fold X Y W.
  - apply quot_near_tenths. lia.
  - apply (tame_weaken (-112 - 52)); [lia | done].
Qed.

(** ** Resampler *)

Lemma quot2_int16 (x y : Z) :
  is_int16 x -> is_int16 y -> is_int16 (Z.quot (x + y) 2).
Proof.
  unfold is_int16. intros Hx Hy.
  pose proof (Z.quot_rem' (x + y) 2) as E.
  destruct (Z.le_gt_cases 0 (x + y)) as [Hs | Hs].
  - pose proof (Z.rem_bound_pos (x + y) 2 Hs). lia.
  - pose proof (Z.rem_nonpos (x + y) 2).
    pose proof (Z.rem_bound_abs (x + y) 2). lia.
Qed.

Lemma Qtruncate_mean (x y : Z) :
  Qtruncate ((inject_Z x + inject_Z y) / 2)%Q = Z.quot (x + y) 2.
Proof.
  rewrite <- Qtruncate_half. apply Qtruncate_wd.
  rewrite inject_Z_plus. reflexivity.
Qed.

Lemma upsample_iter_writes (mean : Z -> Z -> Z) (pcm8k result : list Z)
    (i : nat) :
  Resampler.upsample_iter mean pcm8k result i =
  <[(i * 2 + 1)%nat :=
      mean (Resampler.rd pcm8k i)
           (if Z.of_nat i <? Z.of_nat (length pcm8k) - 1
            then Resampler.rd pcm8k (i + 1)
            else Resampler.rd pcm8k i)]>
    (<[(i * 2)%nat := to_int16 (inject_Z (Resampler.rd pcm8k i))]> result).
Proof. reflexivity. Qed.

Lemma upsample_loop_length (mean : Z -> Z -> Z) (pcm8k : list Z) :
  length (Resampler.upsample_loop mean pcm8k) = (2 * length pcm8k)%nat.
Proof.
  unfold Resampler.upsample_loop.
  destruct (fill_loop_pairs _ _ _ (replicate (length pcm8k * 2) 0)
              (length pcm8k) (upsample_iter_writes mean pcm8k)) as (Hlen & _).
  - by rewrite length_replicate.
  - rewrite Hlen, length_replicate. lia.
Qed.

Lemma foldl_ext_step {A B : Type} (f g : A -> B -> A) (l : list B) (a : A) :
  (forall a b, f a b = g a b) -> foldl f a l = foldl g a l.
Proof.
  intros Hfg. revert a. induction l as [| b l IH]; intros a; simpl; [done |].
  by rewrite Hfg, IH.
Qed.

(** Dividing by 2 and multiplying by 0.5 store the same sample. *)
Lemma mean_mul_div (current next : Z) :
  Resampler.mean_mul current next = Resampler.mean_div current next.
Proof.
  unfold Resampler.mean_mul, Resampler.mean_div, to_int16. f_equal.
  apply Qtruncate_wd. unfold Qdiv. apply Qmult_comp; reflexivity.
Qed.

Lemma upsample8kTo16k_half_same (pcm8k : list Z) :
  Resampler.upsample8kTo16k_half pcm8k = Resampler.upsample8kTo16k pcm8k.
Proof.
  unfold Resampler.upsample8kTo16k_half, Resampler.upsample8kTo16k,
    Resampler.upsample_loop.
  apply foldl_ext_step. intros r i.
  unfold Resampler.upsample_iter. by rewrite mean_mul_div.
Qed.

(** C6 (as amended): the output is twice as long as the input; slot [2i]
    holds input sample [i]; slot [2i+1] holds the mean of samples [i] and
    [i+1] with its fraction dropped toward zero, the last sample standing
    in for its missing successor. The earliest revision, which multiplies
    by 0.5 instead of dividing by 2, returns the same array. *)
Theorem upsample8kTo16k_truncated_mean (pcm8k : list Z) :
  Forall is_int16 pcm8k ->
  length (Resampler.upsample8kTo16k pcm8k) = (2 * length pcm8k)%nat /\
  Resampler.upsample8kTo16k_half pcm8k = Resampler.upsample8kTo16k pcm8k /\
  forall (i : nat) (x : Z), pcm8k !! i = Some x ->
    Resampler.upsample8kTo16k pcm8k !! (2 * i)%nat = Some x /\
    Resampler.upsample8kTo16k pcm8k !! (2 * i + 1)%nat =
      Some (Z.quot (x + default x (pcm8k !! S i)) 2).
Proof.
  intros Hrange. split; [apply upsample_loop_length |].
  split; [apply upsample8kTo16k_half_same |].
  intros i x Hi.
  assert (Hlt : (i < length pcm8k)%nat) by (eapply lookup_lt_Some; eauto).
  assert (Hx : is_int16 x).
  { rewrite Forall_lookup in Hrange. eauto. }
  unfold Resampler.upsample8kTo16k, Resampler.upsample_loop.
  destruct (fill_loop_pairs _ _ _ (replicate (length pcm8k * 2) 0)
              (length pcm8k) (upsample_iter_writes Resampler.mean_div pcm8k))
    as (_ & Hslots & _).
  { by rewrite length_replicate. }
  destruct (Hslots i Hlt) as [Heven Hodd].
  replace (2 * i)%nat with (i * 2)%nat by lia.
  rewrite Heven, Hodd, (rd_lookup _ _ _ Hi). clear Heven Hodd Hslots.
  unfold Resampler.mean_div, to_int16.
  rewrite Qtruncate_inject_Z, (wrap_int16_id x Hx).
  split; [done |]. f_equal.
  rewrite Qtruncate_mean.
  destruct (Z.ltb_spec (Z.of_nat i) (Z.of_nat (length pcm8k) - 1)) as [Hn | Hn].
  - destruct (lookup_lt_is_Some_2 pcm8k (S i)) as [y Hy]; [lia |].
    replace (i + 1)%nat with (S i) by lia.
    rewrite (rd_lookup _ _ _ Hy), Hy. simpl.
    apply wrap_int16_id, quot2_int16; [done |].
    rewrite Forall_lookup in Hrange. eauto.
  - rewrite (lookup_ge_None_2 pcm8k (S i)) by lia. simpl.
    by apply wrap_int16_id, quot2_int16.
Qed.

Lemma downsample_iter_writes (tap : Z -> Z -> Z -> Z) (pcm24k result : list Z)
    (i : nat) :
  Resampler.downsample_iter tap pcm24k result i =
  <[i := if (i * 3 + 2 <? length pcm24k)%nat
         then tap (Resampler.rd pcm24k (i * 3))
                  (Resampler.rd pcm24k (i * 3 + 1))
                  (Resampler.rd pcm24k (i * 3 + 2))
         else wrap_int16 (Resampler.rd pcm24k (i * 3))]> result.
Proof.
  unfold Resampler.downsample_iter.
  by destruct (i * 3 + 2 <? length pcm24k)%nat.
Qed.

Lemma downsample_loop_length (tap : Z -> Z -> Z -> Z) (pcm24k : list Z) :
  length (Resampler.downsample_loop tap pcm24k) = (length pcm24k / 3)%nat.
Proof.
  unfold Resampler.downsample_loop.
  destruct (fill_loop _ _ (replicate (length pcm24k / 3) 0)
              (length pcm24k / 3) (downsample_iter_writes tap pcm24k))
    as (Hlen & _).
  - by rewrite length_replicate.
  - by rewrite Hlen, length_replicate.
Qed.

(** Every anchor the loop visits has its two successors in the array, so
    the loop always takes the filtering branch. *)
Lemma anchor_has_successors (n i : nat) :
  (i < n / 3)%nat -> (i * 3 + 2 < n)%nat.
Proof.
  intros Hi. pose proof (Nat.div_mod_eq n 3).
  pose proof (Nat.mod_upper_bound n 3). lia.
Qed.

Lemma downsample_loop_slot (tap : Z -> Z -> Z -> Z) (pcm24k : list Z)
    (i : nat) :
  (i < length pcm24k / 3)%nat ->
  exists a b c : Z,
    pcm24k !! (3 * i)%nat = Some a /\
    pcm24k !! (3 * i + 1)%nat = Some b /\
    pcm24k !! (3 * i + 2)%nat = Some c /\
    Resampler.downsample_loop tap pcm24k !! i = Some (tap a b c).
Proof.
  intros Hi. pose proof (anchor_has_successors _ _ Hi) as Hin.
  destruct (lookup_lt_is_Some_2 pcm24k (3 * i)) as [a Ha]; [lia |].
  destruct (lookup_lt_is_Some_2 pcm24k (3 * i + 1)) as [b Hb]; [lia |].
  destruct (lookup_lt_is_Some_2 pcm24k (3 * i + 2)) as [c Hc]; [lia |].
  exists a, b, c. repeat split; try done.
  unfold Resampler.downsample_loop.
  destruct (fill_loop _ _ (replicate (length pcm24k / 3) 0)
              (length pcm24k / 3) (downsample_iter_writes tap pcm24k))
    as (_ & Hslots & _).
  { by rewrite length_replicate. }
  rewrite (Hslots i Hi).
  destruct (Nat.ltb_spec (i * 3 + 2) (length pcm24k)) as [_ | ?]; [| lia].
  replace (i * 3)%nat with (3 * i)%nat by lia.
  by rewrite (rd_lookup _ _ _ Ha), (rd_lookup _ _ _ Hb), (rd_lookup _ _ _ Hc).
Qed.

Lemma take3rd_slot (pcm24k : list Z) (i : nat) :
  (i < length pcm24k / 3)%nat ->
  exists a : Z,
    pcm24k !! (3 * i)%nat = Some a /\
    Resampler.downsample24kTo8k_take3rd pcm24k !! i = Some (wrap_int16 a).
Proof.
  intros Hi. pose proof (anchor_has_successors _ _ Hi) as Hin.
  destruct (lookup_lt_is_Some_2 pcm24k (3 * i)) as [a Ha]; [lia |].
  exists a. split; [done |].
  unfold Resampler.downsample24kTo8k_take3rd.
  destruct (fill_loop
              (fun result i => <[i := wrap_int16 (Resampler.rd pcm24k (i * 3))]> result)
              (fun i => wrap_int16 (Resampler.rd pcm24k (i * 3)))
              (replicate (length pcm24k / 3) 0) (length pcm24k / 3))
    as (_ & Hslots & _); [done | by rewrite length_replicate |].
  rewrite (Hslots i Hi).
  replace (i * 3)%nat with (3 * i)%nat by lia.
  by rewrite (rd_lookup _ _ _ Ha).
Qed.

Lemma clamp16_range (p : Q) :
  (inject_Z (-32768) <= Resampler.clamp16 p)%Q /\
  (Resampler.clamp16 p <= inject_Z 32767)%Q.
Proof.
  unfold Resampler.clamp16. split.
  - apply Q.le_max_l.
  - apply Q.max_lub; [done |]. apply Q.le_min_l.
Qed.

(** Weights that are not negative and sum to 1 keep a combination of
    clamped values inside the clamp's range. *)
Lemma combination_range (w1 w2 w3 p1 p2 p3 : Q) :
  (0 <= w1)%Q -> (0 <= w2)%Q -> (0 <= w3)%Q -> (w1 + w2 + w3 == 1)%Q ->
  (inject_Z (-32768) <= p1 <= inject_Z 32767)%Q ->
  (inject_Z (-32768) <= p2 <= inject_Z 32767)%Q ->
  (inject_Z (-32768) <= p3 <= inject_Z 32767)%Q ->
  (inject_Z (-32768) <= p1 * w1 + p2 * w2 + p3 * w3 <= inject_Z 32767)%Q.
Proof.
  intros H1 H2 H3 Hsum [L1 U1] [L2 U2] [L3 U3].
  assert (E : forall lo : Q, (lo == lo * w1 + lo * w2 + lo * w3)%Q).
  { intros lo. rewrite <- !Qmult_plus_distr_r, Hsum. ring. }
  split.
  - rewrite (E (inject_Z (-32768))).
    repeat apply Qplus_le_compat; by apply Qmult_le_compat_r.
  - rewrite (E (inject_Z 32767)).
    repeat apply Qplus_le_compat; by apply Qmult_le_compat_r.
Qed.

(** For any gain and any such weights, the value stored by the scaling
    revisions is the combination itself with its fraction dropped: the
    store into the [Int16Array] never wraps. *)
Lemma tap_cfg_no_wrap (gain w1 w2 w3 : Q) (a b c : Z) :
  (0 <= w1)%Q -> (0 <= w2)%Q -> (0 <= w3)%Q -> (w1 + w2 + w3 == 1)%Q ->
  Resampler.tap_cfg gain w1 w2 w3 a b c =
    Qtruncate (Resampler.clamp16 (inject_Z a * gain) * w1 +
               Resampler.clamp16 (inject_Z b * gain) * w2 +
               Resampler.clamp16 (inject_Z c * gain) * w3)%Q /\
  is_int16 (Resampler.tap_cfg gain w1 w2 w3 a b c).
Proof.
  intros H1 H2 H3 Hsum. unfold Resampler.tap_cfg, to_int16.
  split; [| apply wrap_int16_range].
  apply wrap_int16_id. unfold is_int16.
  apply Qtruncate_between; [lia | |];
    apply combination_range; auto using clamp16_range.
Qed.

Lemma take3rd_length (pcm24k : list Z) :
  length (Resampler.downsample24kTo8k_take3rd pcm24k) =
  (length pcm24k / 3)%nat.
Proof.
  unfold Resampler.downsample24kTo8k_take3rd.
  destruct (fill_loop
              (fun result i => <[i := wrap_int16 (Resampler.rd pcm24k (i * 3))]> result)
              (fun i => wrap_int16 (Resampler.rd pcm24k (i * 3)))
              (replicate (length pcm24k / 3) 0) (length pcm24k / 3))
    as (Hlen & _); [done | by rewrite length_replicate |].
  by rewrite Hlen, length_replicate.
Qed.

Lemma gain15_weights :
  (0 <= 0.25)%Q /\ (0 <= 0.5)%Q /\ (0.25 + 0.5 + 0.25 == 1)%Q.
Proof. repeat split; reflexivity || (unfold Qle; simpl; lia). Qed.

(** A slot of the revision with gain 1.5 holds the filtered value with
    its fraction dropped; the store does not wrap. *)
Lemma gain15_slot (pcm24k : list Z) (i : nat) :
  (i < length pcm24k / 3)%nat ->
  exists a b c : Z,
    pcm24k !! (3 * i)%nat = Some a /\
    pcm24k !! (3 * i + 1)%nat = Some b /\
    pcm24k !! (3 * i + 2)%nat = Some c /\
    Resampler.downsample24kTo8k_gain15 pcm24k !! i =
      Some (Qtruncate (Resampler.clamp16 (inject_Z a * 1.5) * 0.25 +
                       Resampler.clamp16 (inject_Z b * 1.5) * 0.5 +
                       Resampler.clamp16 (inject_Z c * 1.5) * 0.25)%Q).
Proof.
  intros Hi.
  destruct (downsample_loop_slot (Resampler.tap_cfg 1.5 0.25 0.5 0.25) pcm24k i Hi)
    as (a & b & c & Ha & Hb & Hc & H15).
  exists a, b, c. repeat split; try done.
  destruct gain15_weights as (W1 & W2 & Wsum).
  destruct (tap_cfg_no_wrap 1.5 0.25 0.5 0.25 a b c W1 W2 W1 Wsum) as [E _].
  unfold Resampler.downsample24kTo8k_gain15. by rewrite H15, E.
Qed.

(** In exact arithmetic a sample scaled by 2.5 and clamped is half of
    [clamped_twice]. *)
Lemma clamp16_gain25 (z : Z) :
  (Resampler.clamp16 (inject_Z z * 2.5) == Binary64.clamped_twice z # 2)%Q.
Proof.
  unfold Resampler.clamp16, Binary64.clamped_twice.
  assert (E : (inject_Z z * 2.5 == 5 * z # 2)%Q).
  { unfold Qeq, Qmult, inject_Z. cbn -[Z.mul]. lia. }
  rewrite E.
  destruct (Z.le_gt_cases (5 * z) 65534) as [Hhi | Hhi].
  - rewrite Q.min_r by (unfold Qle; cbn -[Z.mul]; lia).
    rewrite Z.min_r by lia.
    destruct (Z.le_gt_cases (-65536) (5 * z)) as [Hlo | Hlo].
    + rewrite Q.max_r by (unfold Qle; cbn -[Z.mul]; lia). by rewrite Z.max_r by lia.
    + rewrite Q.max_l by (unfold Qle; cbn -[Z.mul]; lia). rewrite Z.max_l by lia.
      reflexivity.
  - rewrite Q.min_l by (unfold Qle; cbn -[Z.mul]; lia).
    rewrite Z.min_l by lia. rewrite Q.max_r by (unfold Qle; cbn -[Z.mul]; lia).
    rewrite Z.max_r by lia. reflexivity.
Qed.

Lemma combination25_tenths (a b c : Z) :
  (Resampler.clamp16 (inject_Z a * 2.5) * 0.2 +
   Resampler.clamp16 (inject_Z b * 2.5) * 0.6 +
   Resampler.clamp16 (inject_Z c * 2.5) * 0.2 ==
   Binary64.clamped_twice a + 3 * Binary64.clamped_twice b + Binary64.clamped_twice c # 10)%Q.
Proof.
  rewrite !clamp16_gain25.
  generalize (Binary64.clamped_twice a) (Binary64.clamped_twice b) (Binary64.clamped_twice c).
  intros ka kb kc. unfold Qeq, Qplus, Qmult. cbn -[Z.mul]. lia.
Qed.

Lemma Qtruncate_tenths (K : Z) :
  Qtruncate (K # 10) = Z.quot K 10 /\
  (Z.rem K 10 = 0 ->
   (K # 10 == inject_Z (Z.quot K 10))%Q /\ Z.sgn (Z.quot K 10) = Z.sgn K).
Proof.
  split; [reflexivity |].
  intros Hr. pose proof (Z.quot_rem' K 10) as E. rewrite Hr in E. split.
  - unfold Qeq, inject_Z. cbn -[Z.mul]. lia.
  - rewrite E at 2. rewrite Z.add_0_r, Z.sgn_mul. simpl (Z.sgn 10). lia.
Qed.

(** What the revision with gain 2.5 stores, against exact arithmetic: the
    exact combination with its fraction dropped, unless that combination is
    a whole number, where the doubles may stop just short of it. *)
Lemma tap_gain25_against_exact (a b c : Z) :
  is_int16 a -> is_int16 b -> is_int16 c ->
  let q := (Resampler.clamp16 (inject_Z a * 2.5) * 0.2 +
            Resampler.clamp16 (inject_Z b * 2.5) * 0.6 +
            Resampler.clamp16 (inject_Z c * 2.5) * 0.2)%Q in
  Resampler.tap_gain25 a b c = Qtruncate q \/
  ((q == inject_Z (Qtruncate q))%Q /\
   Resampler.tap_gain25 a b c = Qtruncate q - Z.sgn (Qtruncate q)).
Proof.
  intros Ha Hb Hc q.
  destruct (tap_gain25_no_wrap a b c Ha Hb Hc) as [-> _].
  pose proof (combination25_tenths a b c) as Eq. fold q in Eq.
  rewrite (Qtruncate_wd _ _ Eq).
  destruct (Qtruncate_tenths
              (Binary64.clamped_twice a + 3 * Binary64.clamped_twice b + Binary64.clamped_twice c))
    as [-> Hwhole].
  destruct (tap_gain25_near a b c Ha Hb Hc) as [-> | [Hr ->]]; [by left |].
  right. destruct (Hwhole Hr) as [Hq ->]. split; [| done].
  by rewrite Eq.
Qed.

(** The revision without gain on 16-bit samples: the combination stays in
    range, so the store only drops its fraction. *)
Lemma tap_weighted_no_wrap (a b c : Z) :
  is_int16 a -> is_int16 b -> is_int16 c ->
  Resampler.tap_weighted a b c =
  Qtruncate (inject_Z a * 0.25 + inject_Z b * 0.5 + inject_Z c * 0.25)%Q.
Proof.
  intros Ha Hb Hc. unfold Resampler.tap_weighted, to_int16.
  apply wrap_int16_id. unfold is_int16.
  destruct gain15_weights as (W1 & W2 & Wsum).
  apply Qtruncate_between; [lia | |];
    apply (combination_range 0.25 0.5 0.25); try done;
    unfold is_int16 in *; split; rewrite <- Zle_Qle; lia.
Qed.

(** C7 (as amended): the output has [floor(n/3)] samples, so what is left
    after the last full group of three is dropped; the three samples [3i],
    [3i+1] and [3i+2] of output sample [i] are always there, so the
    unfiltered branch is never taken. With gain 1.5 sample [i] is the
    combination with weights 0.25 / 0.5 / 0.25 of the scaled and clamped
    samples, its fraction dropped toward zero. With gain 2.5 it is the
    combination with weights 0.2 / 0.6 / 0.2 as doubles compute it, every
    product and sum rounded, with its fraction dropped toward zero; that
    is the exact combination with its fraction dropped, unless the exact
    combination is a whole number, where the doubles may stop just short
    of it and the sample is then the next whole number toward zero. The
    revision without gain combines the samples themselves with weights
    0.25 / 0.5 / 0.25; the earliest revision keeps the sample [3i] alone. *)
Theorem downsample24kTo8k_filters_scaled_samples (pcm24k : list Z) :
  length (Resampler.downsample24kTo8k_gain25 pcm24k) = (length pcm24k / 3)%nat /\
  length (Resampler.downsample24kTo8k_gain15 pcm24k) = (length pcm24k / 3)%nat /\
  length (Resampler.downsample24kTo8k_weighted pcm24k) = (length pcm24k / 3)%nat /\
  length (Resampler.downsample24kTo8k_take3rd pcm24k) = (length pcm24k / 3)%nat /\
  (0.2 + 0.6 + 0.2 == 1)%Q /\
  (0.25 + 0.5 + 0.25 == 1)%Q /\
  forall i : nat, (i < length pcm24k / 3)%nat ->
    exists a b c : Z,
      pcm24k !! (3 * i)%nat = Some a /\
      pcm24k !! (3 * i + 1)%nat = Some b /\
      pcm24k !! (3 * i + 2)%nat = Some c /\
      Resampler.downsample24kTo8k_gain15 pcm24k !! i =
        Some (Qtruncate (Resampler.clamp16 (inject_Z a * 1.5) * 0.25 +
                         Resampler.clamp16 (inject_Z b * 1.5) * 0.5 +
                         Resampler.clamp16 (inject_Z c * 1.5) * 0.25)%Q) /\
      Resampler.downsample24kTo8k_weighted pcm24k !! i =
        Some (to_int16 (inject_Z a * 0.25 + inject_Z b * 0.5 +
                        inject_Z c * 0.25)%Q) /\
      Resampler.downsample24kTo8k_take3rd pcm24k !! i = Some (wrap_int16 a) /\
      (is_int16 a -> is_int16 b -> is_int16 c ->
       let d1 := Resampler.fmax (-32768)%float
                   (Resampler.fmin 32767%float
                      (Resampler.float_of_sample a * 2.5)%float) in
       let d2 := Resampler.fmax (-32768)%float
                   (Resampler.fmin 32767%float
                      (Resampler.float_of_sample b * 2.5)%float) in
       let d3 := Resampler.fmax (-32768)%float
                   (Resampler.fmin 32767%float
                      (Resampler.float_of_sample c * 2.5)%float) in
       let q := (Resampler.clamp16 (inject_Z a * 2.5) * 0.2 +
                 Resampler.clamp16 (inject_Z b * 2.5) * 0.6 +
                 Resampler.clamp16 (inject_Z c * 2.5) * 0.2)%Q in
       Resampler.downsample24kTo8k_gain25 pcm24k !! i =
         Some (Resampler.float_trunc (d1 * 0.2 + d2 * 0.6 + d3 * 0.2)%float) /\
       (Resampler.downsample24kTo8k_gain25 pcm24k !! i = Some (Qtruncate q) \/
        ((q == inject_Z (Qtruncate q))%Q /\
         Resampler.downsample24kTo8k_gain25 pcm24k !! i =
           Some (Qtruncate q - Z.sgn (Qtruncate q)))) /\
       Resampler.downsample24kTo8k_weighted pcm24k !! i =
         Some (Qtruncate (inject_Z a * 0.25 + inject_Z b * 0.5 +
                          inject_Z c * 0.25)%Q) /\
       Resampler.downsample24kTo8k_take3rd pcm24k !! i = Some a).
Proof.
  split; [apply downsample_loop_length |].
  split; [apply downsample_loop_length |].
  split; [apply downsample_loop_length |].
  split; [apply take3rd_length |].
  split; [reflexivity |].
  split; [reflexivity |].
  intros i Hi.
  destruct (downsample_loop_slot Resampler.tap_gain25 pcm24k i Hi)
    as (a & b & c & Ha & Hb & Hc & H25).
  destruct (gain15_slot pcm24k i Hi) as (a' & b' & c' & Ha' & Hb' & Hc' & H15).
  destruct (downsample_loop_slot Resampler.tap_weighted pcm24k i Hi)
    as (a1 & b1 & c1 & Ha1 & Hb1 & Hc1 & Hw).
  destruct (take3rd_slot pcm24k i Hi) as (a'' & Ha'' & H3).
  rewrite Ha in Ha', Ha'', Ha1. rewrite Hb in Hb', Hb1. rewrite Hc in Hc', Hc1.
  injection Ha' as <-. injection Ha'' as <-. injection Ha1 as <-.
  injection Hb' as <-. injection Hc' as <-.
  injection Hb1 as <-. injection Hc1 as <-.
  exists a, b, c. do 6 (split; [done |]).
  intros Ia Ib Ic d1 d2 d3 q.
  unfold Resampler.downsample24kTo8k_gain25,
    Resampler.downsample24kTo8k_weighted in *.
  rewrite H25, Hw, H3.
  destruct (tap_gain25_no_wrap a b c Ia Ib Ic) as [E25 _].
  split; [by rewrite E25 |].
  split.
  - destruct (tap_gain25_against_exact a b c Ia Ib Ic) as [E | [Hq E]].
    + left. by rewrite E.
    + right. split; [exact Hq |]. by rewrite E.
  - split; [by rewrite tap_weighted_no_wrap | by rewrite wrap_int16_id].
Qed.

Lemma downsample24kTo8k_filters_scaled_samples_witness :
  let q := (Resampler.clamp16 (inject_Z 15360 * 2.5) * 0.2 +
            Resampler.clamp16 (inject_Z (-17408) * 2.5) * 0.6 +
            Resampler.clamp16 (inject_Z 15360 * 2.5) * 0.2)%Q in
  Qtruncate q = -6554 /\
  Resampler.downsample24kTo8k_gain25 [15360; -17408; 15360; 7; 7] !! 0%nat =
    Some (-6553) /\
  (Resampler.downsample24kTo8k_gain25 [15360; -17408; 15360; 7; 7] !! 0%nat =
     Some (Qtruncate q) \/
   ((q == inject_Z (Qtruncate q))%Q /\
    Resampler.downsample24kTo8k_gain25 [15360; -17408; 15360; 7; 7] !! 0%nat =
      Some (Qtruncate q - Z.sgn (Qtruncate q)))) /\
  Resampler.downsample24kTo8k_gain15 [15360; -17408; 15360; 7; 7] !! 0%nat =
    Some (Qtruncate (Resampler.clamp16 (inject_Z 15360 * 1.5) * 0.25 +
                     Resampler.clamp16 (inject_Z (-17408) * 1.5) * 0.5 +
                     Resampler.clamp16 (inject_Z 15360 * 1.5) * 0.25)%Q).
Proof.
  intros q.
  destruct (downsample24kTo8k_filters_scaled_samples
              [15360; -17408; 15360; 7; 7])
    as (_ & _ & _ & _ & _ & _ & Hslots).
  destruct (Hslots 0%nat) as (a & b & c & Ha & Hb & Hc & H15 & _ & _ & H25).
  - simpl. lia.
  - injection Ha as <-. injection Hb as <-. injection Hc as <-.
    destruct H25 as (_ & Hq & _); try (unfold is_int16; lia).
    split; [reflexivity |]. split; [vm_compute; reflexivity |].
    split; [exact Hq | exact H15].
Defined.

(** C7, counterexample: on three equal samples of 100 the revision with
    gain 2.5 returns 250, which no weights summing to 1 combine out of
    100, 100 and 100. *)
Lemma downsample24kTo8k_not_combination_of_inputs :
  ~ exists w1 w2 w3 : Q,
      Claimed.downsample_law Resampler.downsample24kTo8k_gain25 w1 w2 w3
        [100; 100; 100].
Proof.
  intros (w1 & w2 & w3 & Hsum & _ & Hslots).
  destruct (Hslots 0%nat) as (m & Hm & Hcomb); [simpl; lia |].
  vm_compute in Hm. injection Hm as <-.
  simpl in Hcomb. unfold Claimed.weighted_combination in Hcomb.
  assert (E : (inject_Z 250 == inject_Z 100 * (w1 + w2 + w3))%Q).
  { rewrite Hcomb. ring. }
  rewrite Hsum in E. discriminate E.
Qed.

Lemma float_to_int16_range (f : float) :
  is_int16 (Resampler.float_to_int16 f).
Proof.
  unfold Resampler.float_to_int16. apply wrap_int16_range.
Qed.

(** The revision with gain 2.5 at the ends of the range: full-scale input
    of either sign is stored as the end of the range, not wrapped. The
    third group shows binary64 at work: the exact combination is -6554,
    the doubles add up to just above it and -6553 is stored. *)
Example gain25_full_scale :
  Resampler.downsample24kTo8k_gain25
    [32767; 32767; 32767; -32768; -32768; -32768; 20000; -20000; 20000] =
  [32767; -32768; -6553].
Proof. vm_compute. reflexivity. Qed.

(** The same revision where the exact combination is a whole number: the
    clamped values are 32767, -32768 and 32767, the exact combination is
    -6554, the doubles add up to just above it and -6553 is stored. *)
Example gain25_short_of_whole :
  Resampler.downsample24kTo8k_gain25 [15360; -17408; 15360] = [-6553] /\
  Qtruncate (Resampler.clamp16 (inject_Z 15360 * 2.5) * 0.2 +
             Resampler.clamp16 (inject_Z (-17408) * 2.5) * 0.6 +
             Resampler.clamp16 (inject_Z 15360 * 2.5) * 0.2)%Q = -6554.
Proof. split; vm_compute; reflexivity. Qed.



Lemma upsample8kTo16k_truncated_mean_witness :
  Resampler.upsample8kTo16k [1; 2; -4; -1] !! (2 * 0 + 1)%nat =
    Some (Z.quot (1 + 2) 2) /\
  Resampler.upsample8kTo16k [1; 2; -4; -1] !! (2 * 3 + 1)%nat =
    Some (Z.quot (-1 + -1) 2).
Proof.
  assert (Hrange : Forall is_int16 [1; 2; -4; -1]).
  { repeat constructor; unfold is_int16; lia. }
  destruct (upsample8kTo16k_truncated_mean [1; 2; -4; -1] Hrange)
    as (_ & _ & Hslots).
  split.
  - exact (proj2 (Hslots 0%nat 1 eq_refl)).
  - exact (proj2 (Hslots 3%nat (-1) eq_refl)).
Defined.

(** C6, counterexample: for the input [1; 2] slot 1 holds 1, and 1 is not
    the arithmetic mean of 1 and 2. *)
Lemma upsample8kTo16k_mean_is_truncated :
  ~ Claimed.upsample_law Resampler.upsample8kTo16k [1; 2].
Proof.
  intros [_ Hslots].
  destruct (Hslots 0%nat 1 eq_refl) as [_ (m & Hm & Hmean)].
  vm_compute in Hm. injection Hm as <-.
  unfold Claimed.arithmetic_mean, Qeq in Hmean. simpl in Hmean. lia.
Qed.

(** ** Codec *)

Lemma linearToUlaw_entry_range (s : Z) :
  0 <= Codec.linearToUlaw_entry s < 256.
Proof.
  unfold Codec.linearToUlaw_entry, wrap_uint8. apply Z.mod_pos_bound. lia.
Qed.

Lemma linearToUlaw_get (s : Z) :
  is_int16 s ->
  js_get Codec.linearToUlaw (s + 32768) = Some (Codec.linearToUlaw_entry s).
Proof.
  unfold is_int16, Codec.linearToUlaw. intros Hs.
  rewrite js_get_zrange by lia. f_equal. f_equal. lia.
Qed.

Lemma ulawToLinear_get (code : Z) :
  0 <= code < 256 ->
  js_get Codec.ulawToLinear code = Some (Codec.ulawToLinear_entry code).
Proof.
  unfold Codec.ulawToLinear. intros Hc.
  rewrite js_get_zrange by lia. f_equal.
Qed.

(** Encoding one sample is one read of the table at [s + 32768]. *)
Lemma encodeUlaw_sample (s : Z) :
  is_int16 s -> Codec.encodeUlaw [s] = [Codec.linearToUlaw_entry s].
Proof.
  intros Hs. unfold Codec.encodeUlaw. simpl.
  rewrite (linearToUlaw_get s Hs). simpl. f_equal.
  unfold wrap_uint8. apply Z.mod_small, linearToUlaw_entry_range.
Qed.

Lemma decodeUlaw_code (code : Z) :
  0 <= code < 256 -> Codec.decodeUlaw [code] = [Codec.ulawToLinear_entry code].
Proof.
  intros Hc. unfold Codec.decodeUlaw. simpl.
  rewrite (ulawToLinear_get code Hc). simpl. f_equal.
  apply wrap_int16_id. unfold Codec.ulawToLinear_entry. apply wrap_int16_range.
Qed.

Lemma roundtrip_sample (s : Z) :
  is_int16 s ->
  Codec.decodeUlaw (Codec.encodeUlaw [s]) =
  [Codec.ulawToLinear_entry (Codec.linearToUlaw_entry s)].
Proof.
  intros Hs. rewrite (encodeUlaw_sample s Hs).
  apply decodeUlaw_code, linearToUlaw_entry_range.
Qed.

Lemma off_by_more_than_a_step_sound (s : Z) :
  is_int16 s -> Claimed.off_by_more_than_a_step s = true ->
  ~ Claimed.roundtrip_within_bound s.
Proof.
  intros Hs Hoff (code & d & Henc & Hdec & Hbound).
  rewrite (encodeUlaw_sample s Hs) in Henc. injection Henc as <-.
  rewrite decodeUlaw_code in Hdec by apply linearToUlaw_entry_range.
  injection Hdec as <-.
  unfold Claimed.off_by_more_than_a_step in Hoff.
  apply Z.ltb_lt in Hoff. lia.
Qed.

(** Every sample the encoder does not clip comes back off by more than
    the step of its segment. *)
Lemma roundtrip_off_below_clip (s : Z) :
  - Codec.CLIP <= s <= Codec.CLIP -> ~ Claimed.roundtrip_within_bound s.
Proof.
  unfold Codec.CLIP. intros Hs.
  apply off_by_more_than_a_step_sound; [unfold is_int16; lia |].
  assert (Hall : forallb Claimed.off_by_more_than_a_step
                   (zrange (-8159) (Z.to_nat 16319)) = true)
    by (vm_compute; reflexivity).
  rewrite forallb_forall in Hall. apply Hall.
  apply elem_of_zrange. lia.
Qed.

(** The decoder table has the end points of the companding law: the two
    codes of silence decode to 0 and the two extreme codes to -32124 and
    32124, the full 16-bit scale. The encoder never produces a code that
    decodes beyond 24956. *)
Example decoder_end_points :
  Codec.decodeUlaw [255; 127; 0; 128] = [0; 0; -32124; 32124] /\
  Codec.decodeUlaw (Codec.encodeUlaw [32767; -32768]) = [24956; -24956].
Proof. split; vm_compute; reflexivity. Qed.

(** C1, at the failing input: silence (sample 0) is coded as 205 and
    decoded as 1052, while the step of that code's segment is 64; a
    full-scale sample comes back as 24956, off by more than 1/32 of it. *)
Theorem roundtrip_of_silence_is_off :
  Codec.encodeUlaw [0] = [205] /\
  Codec.decodeUlaw [205] = [1052] /\
  Claimed.quantization_step 205 = 64 /\
  ~ Claimed.roundtrip_within_bound 0 /\
  Codec.decodeUlaw (Codec.encodeUlaw [32767]) = [24956] /\
  32767 < 32 * Z.abs (24956 - 32767).
Proof.
  split. { rewrite encodeUlaw_sample; [reflexivity | unfold is_int16; lia]. }
  split. { rewrite decodeUlaw_code; [reflexivity | lia]. }
  split. { reflexivity. }
  split. { apply roundtrip_off_below_clip. unfold Codec.CLIP. lia. }
  split. { rewrite roundtrip_sample; [reflexivity | unfold is_int16; lia]. }
  lia.
Qed.

(** ** The two audio paths end to end *)

(** A telephony frame of [n] bytes is decoded and upsampled to [2n]
    samples; an array of [n] samples is downsampled and encoded to
    [floor(n/3)] bytes. *)
Lemma chunk_lengths (payload pcm24k : list Z) :
  length (Resampler.upsample8kTo16k (Codec.decodeUlaw payload)) =
    (2 * length payload)%nat /\
  length (Codec.encodeUlaw (Resampler.downsample24kTo8k_gain25 pcm24k)) =
    (length pcm24k / 3)%nat.
Proof.
  unfold Codec.decodeUlaw, Codec.encodeUlaw, Resampler.upsample8kTo16k. split.
  - by rewrite upsample_loop_length, length_map.
  - rewrite length_map. apply downsample_loop_length.
Qed.

(** ** Order store *)

Lemma id_is_set_status (orderId : string) (status : option Store.value)
    (o : Store.order) :
  Store.id_is orderId (Store.set_status status o) = Store.id_is orderId o.
Proof.
  unfold Store.id_is, Store.set_status. destruct status.
  - by rewrite lookup_insert_ne.
  - by rewrite lookup_delete_ne.
Qed.

Lemma set_status_idemp (status : option Store.value) (o : Store.order) :
  Store.set_status status (Store.set_status status o) =
  Store.set_status status o.
Proof.
  unfold Store.set_status. destruct status.
  - apply insert_insert_eq.
  - apply delete_delete_eq.
Qed.

Lemma set_status_lookup (status : option Store.value) (o : Store.order) :
  Store.set_status status o !! "status" = status.
Proof.
  unfold Store.set_status. destruct status.
  - apply lookup_insert_eq.
  - apply lookup_delete_eq.
Qed.

Lemma findIndex_Some {A : Type} (p : A -> bool) (l : list A) (i : nat) :
  Store.findIndex p l = Some i ->
  exists x : A, l !! i = Some x /\ p x = true.
Proof.
  revert i. induction l as [| y l IH]; intros i H; simpl in H; [done |].
  destruct (p y) eqn:Hy.
  - injection H as <-. eauto.
  - destruct (Store.findIndex p l) as [j |]; simpl in H; [| done].
    injection H as <-. destruct (IH j eq_refl) as (x & Hx & Hp). eauto.
Qed.

Lemma findIndex_None {A : Type} (p : A -> bool) (l : list A) :
  Store.findIndex p l = None <-> forall x : A, x ∈ l -> p x = false.
Proof.
  induction l as [| y l IH]; simpl.
  - split; [intros _ x Hx; by apply not_elem_of_nil in Hx | done].
  - destruct (p y) eqn:Hy.
    + split; [done |]. intros H. rewrite H in Hy; [done | by left].
    + destruct (Store.findIndex p l) as [j |]; simpl.
      * split; [done |]. intros H.
        assert (Hnone : @None nat = None) by done.
        destruct IH as [_ IH]. discriminate IH. intros x Hx. apply H. by right.
      * split; [| done]. intros _ x Hx.
        apply elem_of_cons in Hx as [-> | Hx]; [done |].
        destruct IH as [IH _]. by apply IH.
Qed.

(** Changing a record in a way the test does not see leaves the index of
    the first match where it was. *)
Lemma findIndex_alter {A : Type} (p : A -> bool) (f : A -> A) (l : list A)
    (i : nat) :
  (forall x, p (f x) = p x) ->
  Store.findIndex p (alter f i l) = Store.findIndex p l.
Proof.
  intros Hp. revert i. induction l as [| y l IH]; intros [| i]; try done.
  - cbn. by rewrite Hp.
  - cbn. by rewrite IH.
Qed.

Lemma alter_twice {A : Type} (f : A -> A) (l : list A) (i : nat) :
  (forall x, f (f x) = f x) -> alter f i (alter f i l) = alter f i l.
Proof.
  intros Hf. revert i. induction l as [| y l IH]; intros [| i]; try done.
  - cbn. by rewrite Hf.
  - cbn. by rewrite IH.
Qed.

(** The test [o.id === orderId] holds exactly of the orders whose [id] is
    the string [orderId]. *)
Lemma id_is_spec (orderId : string) (o : Store.order) :
  Store.id_is orderId o = true <-> o !! "id" = Some (Store.VStr orderId).
Proof.
  unfold Store.id_is. destruct (o !! "id") as [[s | | |] |]; try done.
  destruct (String.eqb_spec s orderId) as [-> | Hne]; [done |].
  split; [done |]. intros H. injection H as H. done.
Qed.

(** [findIndex] returns the first index whose element passes the test. *)
Lemma findIndex_first {A : Type} (p : A -> bool) (l : list A) (i : nat) (x : A) :
  l !! i = Some x -> p x = true ->
  (forall (j : nat) (y : A), (j < i)%nat -> l !! j = Some y -> p y = false) ->
  Store.findIndex p l = Some i.
Proof.
  revert i. induction l as [| y l IH]; intros i Hx Hp Hfirst; [done |].
  destruct i as [| i]; simpl in *.
  - injection Hx as ->. by rewrite Hp.
  - rewrite (Hfirst 0%nat y) by (done || lia).
    rewrite (IH i Hx Hp); [done |].
    intros j z Hj Hz. apply (Hfirst (S j) z); [lia | done].
Qed.

(** C9: a second [updateOrderStatus] with the same id and status returns
    what the first returned and leaves the file as the first left it. The
    call reports [true] (and the route replies 200 rather than 404)
    exactly when some stored order has the string [orderId] as its [id].
    When none has, the file is as it was; so it is when there is no file
    or the file does not parse. When some have, the file holds as many
    orders as before: the first of them has the new status and its other
    properties as before, and every other order is as it was. *)
Theorem updateOrderStatus_idempotent (orderId : string)
    (status : option Store.value) (orders : list Store.order) (text : string) :
  let once := Store.updateOrderStatus orderId status (Store.Saved orders) in
  let twice := Store.updateOrderStatus orderId status once.1 in
  twice = once /\
  (once.2 = true <->
   exists o : Store.order, o ∈ orders /\ o !! "id" = Some (Store.VStr orderId)) /\
  ((Store.post_order_status orderId status (Store.Saved orders)).2 =
     Store.Success200 <->
   exists o : Store.order, o ∈ orders /\ o !! "id" = Some (Store.VStr orderId)) /\
  ((forall o : Store.order, o ∈ orders -> o !! "id" <> Some (Store.VStr orderId)) ->
   once = (Store.Saved orders, false) /\
   Store.post_order_status orderId status (Store.Saved orders) =
     (Store.Saved orders, Store.NotFound404)) /\
  (forall (index : nat) (o : Store.order),
     orders !! index = Some o -> o !! "id" = Some (Store.VStr orderId) ->
     (forall (j : nat) (o' : Store.order),
        (j < index)%nat -> orders !! j = Some o' ->
        o' !! "id" <> Some (Store.VStr orderId)) ->
     exists (o1 : Store.order) (orders1 : list Store.order),
       once = (Store.Saved orders1, true) /\
       length orders1 = length orders /\
       orders1 !! index = Some o1 /\
       (forall j : nat, j <> index -> orders1 !! j = orders !! j) /\
       o1 !! "status" = status /\
       (forall k : string, k <> "status" -> o1 !! k = o !! k)) /\
  Store.updateOrderStatus orderId status Store.NoFile = (Store.NoFile, false) /\
  Store.updateOrderStatus orderId status (Store.Unparseable text) =
    (Store.Unparseable text, false).
Proof.
  intros once twice.
  assert (Hfound : forall index : nat,
            Store.findIndex (Store.id_is orderId) orders = Some index ->
            once = (Store.Saved (alter (Store.set_status status) index orders), true)).
  { intros index Hfind. subst once. unfold Store.updateOrderStatus.
    cbn [Store.getSavedOrders]. by rewrite Hfind. }
  assert (Hnot : Store.findIndex (Store.id_is orderId) orders = None ->
                 once = (Store.Saved orders, false)).
  { intros Hfind. subst once. unfold Store.updateOrderStatus.
    cbn [Store.getSavedOrders]. by rewrite Hfind. }
  assert (Hiff : once.2 = true <->
                 exists o : Store.order,
                   o ∈ orders /\ o !! "id" = Some (Store.VStr orderId)).
  { destruct (Store.findIndex (Store.id_is orderId) orders) as [index |] eqn:Hfind.
    - rewrite (Hfound index eq_refl). split; [intros _ | done].
      destruct (findIndex_Some _ _ _ Hfind) as (o & Ho & Hid).
      exists o. split; [eapply list_elem_of_lookup_2; eauto |].
      by apply id_is_spec.
    - rewrite (Hnot eq_refl). split; [done |]. intros (o & Ho & Hid).
      rewrite findIndex_None in Hfind. apply id_is_spec in Hid.
      rewrite (Hfind o Ho) in Hid. done. }
  split; [| split; [exact Hiff | split; [| split; [| split; [| done]]]]].
  - subst twice.
    destruct (Store.findIndex (Store.id_is orderId) orders) as [index |] eqn:Hfind.
    + rewrite (Hfound index eq_refl). unfold Store.updateOrderStatus.
      cbn [fst Store.getSavedOrders].
      rewrite findIndex_alter by apply id_is_set_status.
      by rewrite Hfind, alter_twice by apply set_status_idemp.
    + rewrite (Hnot eq_refl). unfold Store.updateOrderStatus.
      cbn [fst Store.getSavedOrders]. by rewrite Hfind.
  - rewrite <- Hiff. unfold Store.post_order_status. fold once.
    destruct once as [f1 []]; simpl; done.
  - intros Hnone.
    assert (Hfind : Store.findIndex (Store.id_is orderId) orders = None).
    { apply findIndex_None. intros o Ho.
      destruct (Store.id_is orderId o) eqn:Hid; [| done].
      apply id_is_spec in Hid. by destruct (Hnone o Ho). }
    split; [by apply Hnot |].
    unfold Store.post_order_status. fold once. by rewrite (Hnot Hfind).
  - intros index o Ho Hid Hfirst.
    assert (Hfind : Store.findIndex (Store.id_is orderId) orders = Some index).
    { apply (findIndex_first _ _ _ o Ho); [by apply id_is_spec |].
      intros j o' Hj Ho'. destruct (Store.id_is orderId o') eqn:Hid'; [| done].
      apply id_is_spec in Hid'. by destruct (Hfirst j o' Hj Ho'). }
    exists (Store.set_status status o), (alter (Store.set_status status) index orders).
    split; [by apply Hfound |].
    split; [apply length_alter |].
    split; [by rewrite list_lookup_alter_eq, Ho |].
    split; [intros j Hj; by rewrite list_lookup_alter_ne |].
    split; [apply set_status_lookup |].
    intros k Hk. unfold Store.set_status. destruct status.
    + by rewrite lookup_insert_ne.
    + by rewrite lookup_delete_ne.
Qed.

Lemma updateOrderStatus_idempotent_witness :
  let o1 : Store.order :=
    {[ "id" := Store.VStr "ord_1"; "status" := Store.VStr "created" ]} in
  let o2 : Store.order :=
    {[ "id" := Store.VStr "ord_2"; "status" := Store.VStr "created" ]} in
  let o2' : Store.order :=
    {[ "id" := Store.VStr "ord_2"; "status" := Store.VStr "delivered" ]} in
  Store.updateOrderStatus "ord_2" (Some (Store.VStr "delivered"))
    (Store.Saved [o1; o2]) = (Store.Saved [o1; o2'], true) /\
  Store.updateOrderStatus "ord_2" (Some (Store.VStr "delivered"))
    (Store.Saved [o1; o2']) = (Store.Saved [o1; o2'], true) /\
  Store.updateOrderStatus "ord_3" (Some (Store.VStr "delivered"))
    (Store.Saved [o1; o2]) = (Store.Saved [o1; o2], false).
Proof.
  intros o1 o2 o2'.
  destruct (updateOrderStatus_idempotent "ord_2"
              (Some (Store.VStr "delivered")) [o1; o2] "")
    as (Htwice & _ & _ & _ & Hfound & _).
  destruct (updateOrderStatus_idempotent "ord_3"
              (Some (Store.VStr "delivered")) [o1; o2] "")
    as (_ & _ & _ & Hnone & _).
  assert (Honce : Store.updateOrderStatus "ord_2" (Some (Store.VStr "delivered"))
                    (Store.Saved [o1; o2]) = (Store.Saved [o1; o2'], true)).
  { destruct (Hfound 1%nat o2) as (o & orders1 & Honce & Hlen & Ho & Hrest & Hst & Hkeys).
    - reflexivity.
    - vm_compute. reflexivity.
    - intros [| j] o' Hj Ho'; [| lia]. injection Ho' as <-.
      vm_compute. discriminate.
    - rewrite Honce. f_equal. f_equal.
      destruct orders1 as [| x [| y [| z l]]]; try discriminate Hlen.
      injection Ho as ->.
      pose proof (Hrest 0%nat ltac:(lia)) as H0. injection H0 as ->.
      f_equal. f_equal. apply map_eq. intros k.
      destruct (decide (k = "status")) as [-> | Hk].
      + rewrite Hst. vm_compute. reflexivity.
      + rewrite (Hkeys k Hk).
        destruct (decide (k = "id")) as [-> | Hid]; [vm_compute; reflexivity |].
        subst o2 o2'. rewrite !lookup_insert_ne by done.
        by rewrite !lookup_singleton_ne. }
  split; [exact Honce |]. split.
  - rewrite Honce in Htwice. exact Htwice.
  - apply Hnone. intros o Ho.
    apply elem_of_cons in Ho as [-> | Ho]; [vm_compute; discriminate |].
    apply elem_of_cons in Ho as [-> | Ho]; [vm_compute; discriminate |].
    by apply elem_of_nil in Ho.
Defined.

(** C10: a file that does not parse reads as the empty list, so the next
    save leaves a file that holds the new order alone, whatever the old
    text was; a save puts the new order in front, so a read after it
    returns the newest order first. The first revision's inline read does
    the same. *)
Theorem unparseable_file_is_overwritten (text : string)
    (o o' : Store.order) (f : Store.file) :
  Store.getSavedOrders (Store.Unparseable text) = [] /\
  Store.saveOrderToFile o (Store.Unparseable text) = Store.Saved [o] /\
  Store.getSavedOrders (Store.saveOrderToFile o (Store.Unparseable text)) = [o] /\
  Store.saveOrderToFile_inline o f = Store.saveOrderToFile o f /\
  Store.getSavedOrders (Store.saveOrderToFile o f) =
    o :: Store.getSavedOrders f /\
  Store.getSavedOrders (Store.saveOrderToFile o' (Store.saveOrderToFile o f)) =
    o' :: o :: Store.getSavedOrders f.
Proof.
  repeat split; by destruct f.
Qed.

(** ** Tool calls and the session relay *)

Import Store Relay.

(** A tool call touches the model's inbox and the order file, nothing
    else: the closure variables and both connections stay as they are. *)
Lemma toolCall_iter_link (with_status : bool) (s : session)
    (call : functionCall * clock) :
  streamSid (toolCall_iter with_status s call) = streamSid s /\
  ws_open (toolCall_iter with_status s call) = ws_open s /\
  model (toolCall_iter with_status s call) = model s /\
  to_telephony (toolCall_iter with_status s call) = to_telephony s /\
  isSessionOpen (toolCall_iter with_status s call) = isSessionOpen s /\
  geminiSession (toolCall_iter with_status s call) = geminiSession s.
Proof.
  destruct call as [fc c]. unfold toolCall_iter, model_send.
  destruct (String.eqb (fc_name fc) "create_order"), s as [? ? ? ? ? []];
    simpl; done.
Qed.

Lemma toolCalls_link (with_status : bool)
    (calls : list (functionCall * clock)) (s : session) :
  streamSid (foldl (toolCall_iter with_status) s calls) = streamSid s /\
  ws_open (foldl (toolCall_iter with_status) s calls) = ws_open s /\
  model (foldl (toolCall_iter with_status) s calls) = model s /\
  to_telephony (foldl (toolCall_iter with_status) s calls) = to_telephony s /\
  isSessionOpen (foldl (toolCall_iter with_status) s calls) = isSessionOpen s /\
  geminiSession (foldl (toolCall_iter with_status) s calls) = geminiSession s.
Proof.
  revert s. induction calls as [| call calls IH]; intros s; simpl; [done |].
  destruct (IH (toolCall_iter with_status s call)) as (-> & -> & -> & -> & -> & ->).
  apply toolCall_iter_link.
Qed.

Lemma send_audio_streaming (data : Buffer) (s : session) (sid : string) :
  truthy (streamSid s) = Some sid -> ws_open s = true ->
  streamSid (send_audio data s) = streamSid s /\
  ws_open (send_audio data s) = true /\
  to_telephony (send_audio data s) =
    to_telephony s ++
    [TelMedia sid
       (Codec.encodeUlaw (Resampler.downsample24kTo8k_gain25 (buffer data)))].
Proof.
  intros Hsid Hopen. unfold send_audio, ws_send. rewrite Hsid, Hopen.
  by destruct s.
Qed.

Lemma send_clear_streaming (s : session) (sid : string) :
  truthy (streamSid s) = Some sid -> ws_open s = true ->
  to_telephony (send_clear s) = to_telephony s ++ [TelClear sid].
Proof.
  intros Hsid Hopen. unfold send_clear, ws_send. rewrite Hsid, Hopen.
  by destruct s.
Qed.

(** The relay only ever appends to what it has sent to telephony. *)
Lemma ws_send_grows (m : tel_msg) (s : session) :
  exists more, to_telephony (ws_send m s) = to_telephony s ++ more.
Proof.
  unfold ws_send. destruct (ws_open s) eqn:Hopen.
  - exists [m]. by destruct s.
  - exists []. by rewrite app_nil_r.
Qed.

Lemma onmessage_grows (with_status : bool) (msg : server_msg) (s : session) :
  exists more,
    to_telephony (onmessage with_status msg s) = to_telephony s ++ more.
Proof.
  unfold onmessage.
  set (s1 := match audio msg with
             | Some data => send_audio data s
             | None => s
             end).
  assert (H1 : exists more, to_telephony s1 = to_telephony s ++ more).
  { subst s1. destruct (audio msg) as [data |].
    - unfold send_audio. destruct (truthy (streamSid s)).
      + apply ws_send_grows.
      + exists []. by rewrite app_nil_r.
    - exists []. by rewrite app_nil_r. }
  destruct H1 as [more1 H1].
  set (s2 := match toolCall msg with
             | Some calls => foldl (toolCall_iter with_status) s1 calls
             | None => s1
             end).
  assert (H2 : to_telephony s2 = to_telephony s1).
  { subst s2. destruct (toolCall msg) as [calls |]; [| done].
    by destruct (toolCalls_link with_status calls s1) as (_ & _ & _ & ? & _). }
  destruct (interrupted msg).
  - unfold send_clear. destruct (truthy (streamSid s2)) as [sid |].
    + destruct (ws_send_grows (TelClear sid) s2) as [more2 ->].
      exists (more1 ++ more2). by rewrite H2, H1, app_assoc.
    + exists more1. by rewrite H2.
  - exists more1. by rewrite H2.
Qed.

Lemma model_send_telephony (m : model_msg) (s : session) :
  to_telephony (model_send m s) = to_telephony s.
Proof. unfold model_send. by destruct s as [? ? ? ? ? []]. Qed.

Lemma V1_step_grows (s : session) (e : event) :
  exists more, to_telephony (V1.step s e) = to_telephony s ++ more.
Proof.
  destruct e as [[sid caller | payload |] | [| msg | |] |];
    unfold V1.step, V1.on_ws_message, V1.on_model;
    try apply onmessage_grows; exists []; rewrite app_nil_r.
  - by destruct s.
  - unfold forward_media.
    destruct (isSessionOpen s && geminiSession s); [| done].
    apply model_send_telephony.
  - by destruct s.
  - unfold V1.onopen. rewrite model_send_telephony. by destruct s.
  - by destruct s.
  - done.
  - by destruct s.
Qed.

Lemma V2_step_grows (s : session) (e : event) :
  exists more, to_telephony (V2.step s e) = to_telephony s ++ more.
Proof.
  destruct e as [[sid caller | payload |] | [| msg | |] |];
    unfold V2.step, V2.on_ws_message, V2.on_model;
    try apply onmessage_grows; exists []; rewrite app_nil_r.
  - by destruct s.
  - unfold forward_media.
    destruct (isSessionOpen s && geminiSession s); [| done].
    apply model_send_telephony.
  - destruct (geminiSession s); [| done]. by destruct s.
  - by destruct s.
  - by destruct s.
  - done.
  - by destruct s.
Qed.

Lemma run_grows (step : session -> event -> session) (later : list event)
    (s : session) :
  (forall s e, exists more, to_telephony (step s e) = to_telephony s ++ more) ->
  exists more, to_telephony (foldl step s later) = to_telephony s ++ more.
Proof.
  intros Hstep. revert s.
  induction later as [| e later IH]; intros s; simpl.
  - exists []. by rewrite app_nil_r.
  - destruct (IH (step s e)) as [more2 ->].
    destruct (Hstep s e) as [more1 ->].
    exists (more1 ++ more2). by rewrite app_assoc.
Qed.

(** C3 (as amended): in a streaming session a model message that carries
    the interruption flag makes the relay send the clear message for the
    stream as the last thing it sends to telephony for that message: it is
    the very next telephony message when the message carries no audio;
    when it carries audio too, that audio's media message goes out first
    and the clear follows it at once. Whatever either revision sends to
    telephony for later events comes after the clear. *)
Theorem interrupted_message_ends_with_clear (with_status : bool)
    (s : session) (msg : server_msg) (sid : string) :
  Claimed.streaming s sid -> interrupted msg = true ->
  to_telephony (onmessage with_status msg s) =
    to_telephony s ++
    match audio msg with
    | Some data =>
        [TelMedia sid
           (Codec.encodeUlaw
              (Resampler.downsample24kTo8k_gain25 (buffer data)))]
    | None => []
    end ++ [TelClear sid] /\
  forall later : list event,
    (exists rest,
       to_telephony (foldl V1.step (onmessage with_status msg s) later) =
       to_telephony (onmessage with_status msg s) ++ rest) /\
    (exists rest,
       to_telephony (foldl V2.step (onmessage with_status msg s) later) =
       to_telephony (onmessage with_status msg s) ++ rest).
Proof.
  intros (Hopen & _ & _ & Hsid) Hint.
  split; [| intros later; split; apply run_grows;
            [apply V1_step_grows | apply V2_step_grows]].
  unfold onmessage. rewrite Hint.
  set (s1 := match audio msg with
             | Some data => send_audio data s
             | None => s
             end).
  assert (H1 : streamSid s1 = streamSid s /\ ws_open s1 = true /\
               to_telephony s1 =
                 to_telephony s ++
                 match audio msg with
                 | Some data =>
                     [TelMedia sid
                        (Codec.encodeUlaw
                           (Resampler.downsample24kTo8k_gain25 (buffer data)))]
                 | None => []
                 end).
  { subst s1. destruct (audio msg) as [data |].
    - by apply send_audio_streaming.
    - by rewrite app_nil_r. }
  destruct H1 as (Hsid1 & Hopen1 & Hout1).
  set (s2 := match toolCall msg with
             | Some calls => foldl (toolCall_iter with_status) s1 calls
             | None => s1
             end).
  assert (H2 : streamSid s2 = streamSid s1 /\ ws_open s2 = ws_open s1 /\
               to_telephony s2 = to_telephony s1).
  { subst s2. destruct (toolCall msg) as [calls |]; [| done].
    destruct (toolCalls_link with_status calls s1) as (? & ? & _ & ? & _).
    done. }
  destruct H2 as (Hsid2 & Hopen2 & Hout2).
  rewrite (send_clear_streaming s2 sid).
  - by rewrite Hout2, Hout1, <- app_assoc.
  - by rewrite Hsid2, Hsid1.
  - by rewrite Hopen2.
Qed.

(** A streaming session of the second revision, as a call reaches it. *)
Lemma streaming_after_start_and_open :
  Claimed.streaming
    Claimed.call_in_progress "MZ1".
Proof. repeat split. Qed.

Lemma interrupted_message_ends_with_clear_witness :
  to_telephony
    (onmessage true
       {| audio := None; toolCall := None; interrupted := true |}
       Claimed.call_in_progress) =
  to_telephony Claimed.call_in_progress ++
  [] ++ [TelClear "MZ1"].
Proof.
  apply (interrupted_message_ends_with_clear true _
           {| audio := None; toolCall := None; interrupted := true |} "MZ1").
  - apply streaming_after_start_and_open.
  - reflexivity.
Defined.

(** C3, counterexample: a message that carries both audio and the
    interruption flag makes the relay send the audio first; the next
    telephony message is a media message, not the clear. *)
Lemma interrupted_message_sends_audio_first :
  ~ Claimed.clear_comes_next true
      Claimed.call_in_progress
      {| audio := Some {| buffer := [100; 100; 100]; byteOffset := 0;
                          byteLength := 6 |};
         toolCall := None; interrupted := true |}
      "MZ1".
Proof.
  intros (rest & Hout). vm_compute in Hout. discriminate Hout.
Qed.

(** C5 (as amended): a tool call whose name is not [create_order] (an
    unknown name and [transfer_to_agent] alike) is answered with the
    default result [{status: "success"}]; the order file, both connections
    and the closure variables are untouched, so the session goes on. *)
Theorem other_tool_names_get_success (with_status : bool) (s : session)
    (fc : functionCall) (c : clock) :
  fc_name fc <> "create_order" -> model s = Live ->
  to_model (toolCall_iter with_status s (fc, c)) =
    to_model s ++ [ToolResponse (fc_id fc) (fc_name fc) result_success] /\
  orders_file (toolCall_iter with_status s (fc, c)) = orders_file s /\
  ws_open (toolCall_iter with_status s (fc, c)) = ws_open s /\
  model (toolCall_iter with_status s (fc, c)) = model s /\
  isSessionOpen (toolCall_iter with_status s (fc, c)) = isSessionOpen s /\
  to_telephony (toolCall_iter with_status s (fc, c)) = to_telephony s.
Proof.
  intros Hname Hlive. unfold toolCall_iter, model_send.
  destruct (String.eqb_spec (fc_name fc) "create_order") as [E | _]; [done |].
  rewrite Hlive. by destruct s.
Qed.

Lemma other_tool_names_get_success_witness :
  to_model
    (toolCall_iter true
       Claimed.call_in_progress
       ({| fc_id := "call-7"; fc_name := "get_weather"; fc_args := ∅ |},
        {| now_ms := 1700000000000; now_iso := "2023-11-14T22:13:20.000Z" |})) =
  [ToolResponse "call-7" "get_weather" result_success].
Proof.
  apply (other_tool_names_get_success true
           Claimed.call_in_progress
           {| fc_id := "call-7"; fc_name := "get_weather"; fc_args := ∅ |}
           {| now_ms := 1700000000000;
              now_iso := "2023-11-14T22:13:20.000Z" |}).
  - discriminate.
  - reflexivity.
Defined.

(** C5, counterexample: a call to the unknown tool [get_weather] is
    answered, and the answer is the success result. *)
Lemma unknown_tool_is_answered_with_success :
  ~ Claimed.answered_with_failure true
      Claimed.call_in_progress
      ({| fc_id := "call-7"; fc_name := "get_weather"; fc_args := ∅ |},
       {| now_ms := 1700000000000; now_iso := "2023-11-14T22:13:20.000Z" |}).
Proof.
  intros (r & Hr & Hfail & _).
  vm_compute in Hr. injection Hr as <-.
  apply Hfail. reflexivity.
Qed.

Lemma required_fields_are_args (with_status : bool) (orderId k : string)
    (fc : functionCall) (c : clock) :
  k ∈ Claimed.required_fields ->
  newOrder with_status orderId fc c !! k = fc_args fc !! k.
Proof.
  intros Hk.
  assert (Hne : k <> "id" /\ k <> "created_at" /\ k <> "status").
  { unfold Claimed.required_fields in Hk.
    repeat (apply elem_of_cons in Hk as [-> | Hk]; [done |]).
    by apply not_elem_of_nil in Hk. }
  destruct Hne as (Hid & Hcreated & Hstatus).
  unfold newOrder.
  assert (Hbase : (<["created_at" := VStr (now_iso c)]>
                     (fc_args fc ∪ {["id" := VStr orderId]})
                   : gmap string value) !! k = fc_args fc !! k).
  { rewrite lookup_insert_ne by done.
    rewrite lookup_union, lookup_singleton_ne by done.
    by destruct (fc_args fc !! k). }
  destruct with_status; [by rewrite lookup_insert_ne |]; done.
Qed.

Lemma create_order_saves (with_status : bool) (s : session)
    (fc : functionCall) (c : clock) :
  fc_name fc = "create_order" -> model s = Live ->
  orders_file (toolCall_iter with_status s (fc, c)) =
    Saved (newOrder with_status ("ord_" +:+ pretty (now_ms c)) fc c ::
           getSavedOrders (orders_file s)) /\
  to_model (toolCall_iter with_status s (fc, c)) =
    to_model s ++
    [ToolResponse (fc_id fc) (fc_name fc)
       (result_created ("ord_" +:+ pretty (now_ms c)))].
Proof.
  intros Hname Hlive. unfold toolCall_iter, model_send.
  rewrite Hname. simpl.
  split; destruct s as [? ? ? ? ? []]; simpl in *; done.
Qed.

(** C2 (as amended): a [create_order] call is carried out whatever fields
    its arguments hold: the order built from the generated id, the
    arguments as they came and the creation time is put in front of the
    stored orders, and the call is answered with
    [{status: "created", order_id}]; a required field that the arguments
    lack is simply absent from the stored order. *)
Theorem create_order_is_not_validated (with_status : bool) (s : session)
    (fc : functionCall) (c : clock) :
  fc_name fc = "create_order" -> model s = Live ->
  orders_file (toolCall_iter with_status s (fc, c)) =
    Saved (newOrder with_status ("ord_" +:+ pretty (now_ms c)) fc c ::
           getSavedOrders (orders_file s)) /\
  to_model (toolCall_iter with_status s (fc, c)) =
    to_model s ++
    [ToolResponse (fc_id fc) (fc_name fc)
       (result_created ("ord_" +:+ pretty (now_ms c)))] /\
  forall k : string, k ∈ Claimed.required_fields ->
    newOrder with_status ("ord_" +:+ pretty (now_ms c)) fc c !! k =
    fc_args fc !! k.
Proof.
  intros Hname Hlive.
  destruct (create_order_saves with_status s fc c Hname Hlive) as [Hfile Hsent].
  split; [done |]. split; [done |].
  intros k Hk. by apply required_fields_are_args.
Qed.

Lemma create_order_is_not_validated_witness :
  orders_file
    (toolCall_iter true Claimed.call_in_progress Claimed.call_missing_address) =
  Saved [newOrder true ("ord_" +:+ pretty 1700000000000)
           Claimed.call_missing_address.1 Claimed.call_missing_address.2].
Proof.
  apply (create_order_is_not_validated true Claimed.call_in_progress
           Claimed.call_missing_address.1 Claimed.call_missing_address.2).
  - reflexivity.
  - reflexivity.
Defined.

(** C2, counterexample: the [create_order] call of the specification's
    scenario, with [address] missing, is not answered with a failure, and
    the store does not stay as it was: the order is saved. *)
Lemma create_order_without_address_is_saved :
  Claimed.missing_required (fc_args Claimed.call_missing_address.1) /\
  ~ Claimed.answered_with_failure true Claimed.call_in_progress
      Claimed.call_missing_address /\
  ~ Claimed.nothing_persisted true Claimed.call_in_progress
      Claimed.call_missing_address.
Proof.
  split; [| split].
  - exists "address". split; [| reflexivity].
    unfold Claimed.required_fields. set_solver.
  - intros (r & Hr & _ & Hfail).
    vm_compute in Hr. injection Hr as <-.
    apply Hfail. reflexivity.
  - unfold Claimed.nothing_persisted.
    destruct (create_order_saves true Claimed.call_in_progress
                Claimed.call_missing_address.1 Claimed.call_missing_address.2
                eq_refl eq_refl) as [Hfile _].
    change (Claimed.call_missing_address.1, Claimed.call_missing_address.2)
      with Claimed.call_missing_address in Hfile.
    rewrite Hfile. discriminate.
Qed.

(** ** Closing *)

Lemma onmessage_link (with_status : bool) (msg : server_msg) (s : session) :
  ws_open (onmessage with_status msg s) = ws_open s /\
  model (onmessage with_status msg s) = model s.
Proof.
  unfold onmessage.
  set (s1 := match audio msg with
             | Some data => send_audio data s
             | None => s
             end).
  assert (H1 : ws_open s1 = ws_open s /\ model s1 = model s).
  { subst s1. destruct (audio msg); [| done].
    unfold send_audio, ws_send.
    destruct (truthy (streamSid s)); [| done].
    by destruct s as [? ? ? ? []]. }
  set (s2 := match toolCall msg with
             | Some calls => foldl (toolCall_iter with_status) s1 calls
             | None => s1
             end).
  assert (H2 : ws_open s2 = ws_open s /\ model s2 = model s).
  { subst s2. destruct (toolCall msg) as [calls |]; [| done].
    destruct (toolCalls_link with_status calls s1) as (_ & -> & -> & _).
    done. }
  destruct (interrupted msg); [| done].
  unfold send_clear, ws_send.
  destruct (truthy (streamSid s2)); [| done].
  destruct H2 as [<- <-]. by destruct s2 as [? ? ? ? []].
Qed.

(** In the first revision the model session does not end without the
    telephony socket: [onclose] closes the socket, and nothing opens it
    again. (The other way round it does not hold: the socket can close
    from the far end and leave the model session as it is.) *)
Lemma first_revision_onclose_closes_telephony (f : file) (s : session) :
  reachable (set_orders_file f V1.connection) V1.step s ->
  model s = Closed -> ws_open s = false /\ isSessionOpen s = false.
Proof.
  intros Hreach.
  induction Hreach as [| s e _ IH Hdeliv]; [done |].
  destruct e as [[sid caller | payload |] | [| msg | |] |];
    cbn [deliverable] in Hdeliv;
    cbn [V1.step V1.on_ws_message V1.on_model].
  - by destruct s.
  - unfold forward_media, model_send.
    destruct (isSessionOpen s && geminiSession s); [| done].
    by destruct s as [? ? ? ? ? []].
  - by destruct s.
  - destruct s as [? ? ? ? ? []]; simpl in *; done.
  - destruct (onmessage_link false msg s) as [_ ->].
    intros Hm. rewrite Hm in Hdeliv. done.
  - by destruct s.
  - done.
  - intros Hm. destruct (IH Hm) as [_ Hiso]. by destruct s.
Qed.

(** In either revision the telephony socket can close from the far end
    while the model session is live; no handler is registered for that, so
    the model session stays as it is. *)
Example hangup_leaves_model_live :
  reachable V1.connection V1.step
    (foldl V1.step V1.connection [Mod MOpen; TelClose]) /\
  Claimed.half_open (foldl V1.step V1.connection [Mod MOpen; TelClose]) /\
  reachable V2.connection V2.step
    (foldl V2.step V2.connection
       [Tel (TStart (Some "MZ1") None); Mod MOpen; TelClose]) /\
  Claimed.half_open
    (foldl V2.step V2.connection
       [Tel (TStart (Some "MZ1") None); Mod MOpen; TelClose]).
Proof.
  split; [| split; [| split]].
  - cbn [foldl].
    apply reach_step; [apply reach_step |]; [apply reach_init | reflexivity ..].
  - right. split; [reflexivity | by right].
  - cbn [foldl].
    apply reach_step; [apply reach_step; [apply reach_step |] |];
      [apply reach_init | reflexivity ..].
  - right. split; [reflexivity | by right].
Qed.

(** C4, at the failing input: in the second revision, once telephony has
    started and the model session has opened, the closing of the model
    session leaves the telephony socket open: the session is half-open. *)
Theorem model_close_leaves_telephony_open :
  reachable V2.connection V2.step
    (foldl V2.step V2.connection
       [Tel (TStart (Some "MZ1") (Some "+9779800000000")); Mod MOpen;
        Mod MClose]) /\
  ws_open
    (foldl V2.step V2.connection
       [Tel (TStart (Some "MZ1") (Some "+9779800000000")); Mod MOpen;
        Mod MClose]) = true /\
  model
    (foldl V2.step V2.connection
       [Tel (TStart (Some "MZ1") (Some "+9779800000000")); Mod MOpen;
        Mod MClose]) = Closed /\
  Claimed.half_open
    (foldl V2.step V2.connection
       [Tel (TStart (Some "MZ1") (Some "+9779800000000")); Mod MOpen;
        Mod MClose]).
Proof.
  split; [| split; [reflexivity | split; [reflexivity | by left]]].
  cbn [foldl].
  apply reach_step; [apply reach_step; [apply reach_step |] |];
    [apply reach_init | reflexivity ..].
Qed.

(** * Further properties of the code *)

(** ** Codec: the round trip as a whole *)

(** A test that holds of every 16-bit sample holds of each of them. *)
Lemma all_int16 (p : Z -> bool) (s : Z) :
  forallb p (zrange (-32768) (Z.to_nat 65536)) = true -> is_int16 s -> p s = true.
Proof.
  intros Hall Hs. rewrite forallb_forall in Hall. apply Hall, elem_of_zrange.
  unfold is_int16 in Hs. lia.
Qed.

Lemma all_codes (p : Z -> bool) (lo : Z) (n : nat) (b : Z) :
  forallb p (zrange lo n) = true -> lo <= b < lo + Z.of_nat n -> p b = true.
Proof.
  intros Hall Hb. rewrite forallb_forall in Hall. by apply Hall, elem_of_zrange.
Qed.

(** One slot of an encoded and of a decoded array. *)
Lemma encodeUlaw_lookup (buffer : list Z) (i : nat) (s : Z) :
  is_int16 s -> buffer !! i = Some s ->
  Codec.encodeUlaw buffer !! i = Some (Codec.linearToUlaw_entry s).
Proof.
  intros Hs Hi. unfold Codec.encodeUlaw.
  rewrite list_lookup_fmap, Hi. simpl.
  rewrite (linearToUlaw_get s Hs). simpl. f_equal.
  unfold wrap_uint8. apply Z.mod_small, linearToUlaw_entry_range.
Qed.

Lemma decodeUlaw_lookup (buffer : list Z) (i : nat) (b : Z) :
  0 <= b < 256 -> buffer !! i = Some b ->
  Codec.decodeUlaw buffer !! i = Some (Codec.ulawToLinear_entry b).
Proof.
  intros Hb Hi. unfold Codec.decodeUlaw.
  rewrite list_lookup_fmap, Hi. simpl.
  rewrite (ulawToLinear_get b Hb). simpl. f_equal.
  apply wrap_int16_id. unfold Codec.ulawToLinear_entry. apply wrap_int16_range.
Qed.

Lemma roundtrip_lookup (buffer : list Z) (i : nat) (s : Z) :
  is_int16 s -> buffer !! i = Some s ->
  Codec.decodeUlaw (Codec.encodeUlaw buffer) !! i =
    Some (Codec.ulawToLinear_entry (Codec.linearToUlaw_entry s)).
Proof.
  intros Hs Hi.
  apply decodeUlaw_lookup; [apply linearToUlaw_entry_range |].
  by apply encodeUlaw_lookup.
Qed.

(** X1: encoding and then decoding keeps the sign of a 16-bit sample but
    never returns silence or full scale: a sample that is not negative
    comes back between 1052 and 24956, a negative one between -24956 and
    -1052, and every sample at or beyond the clip level 8159 comes back as
    24956 (or -24956). *)
Theorem roundtrip_keeps_sign_and_clips (buffer : list Z) (i : nat) (s : Z) :
  is_int16 s -> buffer !! i = Some s ->
  exists d : Z,
    Codec.decodeUlaw (Codec.encodeUlaw buffer) !! i = Some d /\
    (0 <= s -> 1052 <= d <= 24956) /\
    (s < 0 -> -24956 <= d <= -1052) /\
    (8159 <= s -> d = 24956) /\
    (s <= -8159 -> d = -24956).
Proof.
  intros Hs Hi. eexists. split; [by apply roundtrip_lookup |].
  set (d := Codec.ulawToLinear_entry (Codec.linearToUlaw_entry s)).
  pose (p := fun s : Z =>
    let d := Codec.ulawToLinear_entry (Codec.linearToUlaw_entry s) in
    (if 0 <=? s then (1052 <=? d) && (d <=? 24956)
     else (-24956 <=? d) && (d <=? -1052)) &&
    (if 8159 <=? s then d =? 24956 else true) &&
    (if s <=? -8159 then d =? -24956 else true)).
  assert (Hp : p s = true).
  { apply all_int16; [vm_compute; reflexivity | done]. }
  subst p. cbv beta zeta in Hp. fold d in Hp.
  apply andb_prop in Hp as [Hp Hneg]. apply andb_prop in Hp as [Hsign Hpos].
  split; [| split; [| split]]; intros H.
  - destruct (Z.leb_spec 0 s); [| lia]. apply andb_prop in Hsign. lia.
  - destruct (Z.leb_spec 0 s); [lia |]. apply andb_prop in Hsign. lia.
  - destruct (Z.leb_spec 8159 s); [| lia]. lia.
  - destruct (Z.leb_spec s (-8159)); [| lia]. lia.
Qed.

Lemma roundtrip_keeps_sign_and_clips_witness :
  exists d : Z,
    Codec.decodeUlaw (Codec.encodeUlaw [12; -300; 9000]) !! 1%nat = Some d /\
    -24956 <= d <= -1052.
Proof.
  destruct (roundtrip_keeps_sign_and_clips [12; -300; 9000] 1 (-300))
    as (d & Hd & _ & Hneg & _).
  - unfold is_int16. lia.
  - reflexivity.
  - exists d. split; [exact Hd | apply Hneg; lia].
Defined.

(** Adjacent samples come back in order. *)
Lemma roundtrip_step (s : Z) :
  -32768 <= s < 32767 ->
  Codec.ulawToLinear_entry (Codec.linearToUlaw_entry s) <=
  Codec.ulawToLinear_entry (Codec.linearToUlaw_entry (s + 1)).
Proof.
  intros Hs.
  pose (p := fun s : Z =>
    Codec.ulawToLinear_entry (Codec.linearToUlaw_entry s) <=?
    Codec.ulawToLinear_entry (Codec.linearToUlaw_entry (s + 1))).
  assert (Hp : p s = true).
  { apply (all_codes p (-32768) (Z.to_nat 65535)); [vm_compute; reflexivity | lia]. }
  by apply Z.leb_le in Hp.
Qed.

Lemma roundtrip_entry_monotone (s : Z) (k : nat) :
  -32768 <= s -> s + Z.of_nat k <= 32767 ->
  Codec.ulawToLinear_entry (Codec.linearToUlaw_entry s) <=
  Codec.ulawToLinear_entry (Codec.linearToUlaw_entry (s + Z.of_nat k)).
Proof.
  intros Hlo. induction k as [| k IH]; intros Hhi.
  - replace (s + Z.of_nat 0) with s by lia. lia.
  - etransitivity; [apply IH; lia |].
    replace (s + Z.of_nat (S k)) with (s + Z.of_nat k + 1) by lia.
    apply roundtrip_step. lia.
Qed.

(** X2: the round trip preserves order: of two 16-bit samples the smaller
    never comes back above the larger. *)
Theorem roundtrip_is_monotone (s s' : Z) :
  is_int16 s -> is_int16 s' -> s <= s' ->
  exists d d' : Z,
    Codec.decodeUlaw (Codec.encodeUlaw [s; s']) = [d; d'] /\ d <= d'.
Proof.
  intros Hs Hs' Hle. eexists _, _. split.
  - apply list_eq. intros [| [| i]].
    + apply (roundtrip_lookup [s; s'] 0 s Hs eq_refl).
    + apply (roundtrip_lookup [s; s'] 1 s' Hs' eq_refl).
    + reflexivity.
  - unfold is_int16 in *.
    pose proof (roundtrip_entry_monotone s (Z.to_nat (s' - s))) as Hmono.
    replace (s + Z.of_nat (Z.to_nat (s' - s))) with s' in Hmono by lia.
    apply Hmono; lia.
Qed.

Lemma roundtrip_is_monotone_witness :
  exists d d' : Z,
    Codec.decodeUlaw (Codec.encodeUlaw [-5; 700]) = [d; d'] /\ d <= d'.
Proof.
  apply (roundtrip_is_monotone (-5) 700); unfold is_int16; lia.
Defined.

(** X3: the codec is odd: a positive sample and its negative get codes
    that differ in the top bit alone (the positive one has it set), and
    two such codes decode to a value and its negative. *)
Theorem codec_is_odd (s : Z) :
  0 < s <= 32767 ->
  exists code d : Z,
    Codec.encodeUlaw [s; - s] = [code; code - 128] /\
    128 <= code < 256 /\
    Codec.decodeUlaw [code; code - 128] = [d; - d].
Proof.
  intros Hs.
  pose (p := fun s : Z =>
    let code := Codec.linearToUlaw_entry s in
    (Codec.linearToUlaw_entry (- s) =? code - 128) && (128 <=? code) &&
    (Codec.ulawToLinear_entry (code - 128) =? - Codec.ulawToLinear_entry code)).
  assert (Hp : p s = true).
  { apply (all_codes p 1 (Z.to_nat 32767)); [vm_compute; reflexivity | lia]. }
  subst p. cbv beta zeta in Hp.
  apply andb_prop in Hp as [Hp Hdec]. apply andb_prop in Hp as [Henc Hhigh].
  apply Z.eqb_eq in Henc, Hdec. apply Z.leb_le in Hhigh.
  pose proof (linearToUlaw_entry_range s) as Hrange.
  exists (Codec.linearToUlaw_entry s),
         (Codec.ulawToLinear_entry (Codec.linearToUlaw_entry s)).
  split; [| split; [lia |]].
  - apply list_eq. intros [| [| i]]; [| | reflexivity].
    + apply (encodeUlaw_lookup [s; - s] 0 s); [unfold is_int16; lia | done].
    + rewrite <- Henc.
      apply (encodeUlaw_lookup [s; - s] 1 (- s)); [unfold is_int16; lia | done].
  - apply list_eq. intros [| [| i]]; [| | reflexivity].
    + by apply (decodeUlaw_lookup [_; _] 0).
    + rewrite <- Hdec. apply (decodeUlaw_lookup [_; _] 1); [lia | done].
Qed.

Lemma codec_is_odd_witness :
  exists code d : Z,
    Codec.encodeUlaw [1000; - 1000] = [code; code - 128] /\
    128 <= code < 256 /\
    Codec.decodeUlaw [code; code - 128] = [d; - d].
Proof. apply (codec_is_odd 1000). lia. Defined.

(** X4: the decoder table is ordered: over the codes 0 to 127 the decoded
    value rises strictly, from -32124 up to 0, and the code with the top
    bit set decodes to the negative of the code without it. *)
Theorem decoder_table_is_ordered (b b' : Z) :
  0 <= b -> b < b' -> b' < 128 ->
  exists d d' : Z,
    Codec.decodeUlaw [b; b'; b + 128; b' + 128] = [d; d'; - d; - d'] /\
    -32124 <= d /\ d < d' /\ d' <= 0.
Proof.
  intros Hb Hlt Hb'.
  pose (p := fun b : Z =>
    let d := Codec.ulawToLinear_entry b in
    (Codec.ulawToLinear_entry (b + 128) =? - d) && (-32124 <=? d) && (d <=? 0) &&
    ((b =? 127) || (d <? Codec.ulawToLinear_entry (b + 1)))).
  assert (Hall : forall b, 0 <= b < 128 -> p b = true).
  { intros c Hc. apply (all_codes p 0 128); [vm_compute; reflexivity | lia]. }
  assert (Hmono : forall k : nat, b + 1 + Z.of_nat k < 128 ->
            Codec.ulawToLinear_entry b <
            Codec.ulawToLinear_entry (b + 1 + Z.of_nat k)).
  { induction k as [| k IH]; intros Hk.
    - replace (b + 1 + Z.of_nat 0) with (b + 1) by lia.
      pose proof (Hall b ltac:(lia)) as H. subst p. cbv beta zeta in H.
      apply andb_prop in H as [_ H]. apply orb_prop in H as [H | H]; lia.
    - etransitivity; [apply IH; lia |].
      replace (b + 1 + Z.of_nat (S k)) with (b + 1 + Z.of_nat k + 1) by lia.
      pose proof (Hall (b + 1 + Z.of_nat k) ltac:(lia)) as H.
      subst p. cbv beta zeta in H.
      apply andb_prop in H as [_ H]. apply orb_prop in H as [H | H]; lia. }
  pose proof (Hall b ltac:(lia)) as H1. pose proof (Hall b' ltac:(lia)) as H2.
  subst p. cbv beta zeta in H1, H2.
  apply andb_prop in H1 as [H1 _]. apply andb_prop in H1 as [H1 _].
  apply andb_prop in H1 as [S1 L1].
  apply andb_prop in H2 as [H2 _]. apply andb_prop in H2 as [H2 U2].
  apply andb_prop in H2 as [S2 _].
  apply Z.eqb_eq in S1, S2.
  exists (Codec.ulawToLinear_entry b), (Codec.ulawToLinear_entry b').
  split; [| split; [lia | split; [| lia]]].
  - apply list_eq. intros [| [| [| [| i]]]]; [| | | | reflexivity].
    + apply (decodeUlaw_lookup [_; _; _; _] 0); [lia | done].
    + apply (decodeUlaw_lookup [_; _; _; _] 1); [lia | done].
    + rewrite <- S1. apply (decodeUlaw_lookup [_; _; _; _] 2); [lia | done].
    + rewrite <- S2. apply (decodeUlaw_lookup [_; _; _; _] 3); [lia | done].
  - pose proof (Hmono (Z.to_nat (b' - b - 1))) as Hlt'.
    replace (b + 1 + Z.of_nat (Z.to_nat (b' - b - 1))) with b' in Hlt' by lia.
    apply Hlt'. lia.
Qed.

Lemma decoder_table_is_ordered_witness :
  exists d d' : Z,
    Codec.decodeUlaw [3; 90; 3 + 128; 90 + 128] = [d; d'; - d; - d'] /\
    -32124 <= d /\ d < d' /\ d' <= 0.
Proof. apply (decoder_table_is_ordered 3 90); lia. Defined.

(** A read outside an array is [undefined]. *)
Lemma js_get_outside (a : list Z) (i : Z) :
  ~ 0 <= i < Z.of_nat (length a) -> js_get a i = None.
Proof.
  intros Hi. unfold js_get. destruct (Z.ltb_spec i 0); [done |].
  apply nth_error_None. lia.
Qed.

Lemma zrange_length (n : nat) (lo : Z) : length (zrange lo n) = n.
Proof. revert lo. induction n as [| n IH]; intros lo; simpl; [done | by rewrite IH]. Qed.

(** What [decodeUlaw] stores for one element, whatever the element is. *)
Lemma decode_slot_bounds (b : Z) :
  -32124 <= store_int16 (js_get Codec.ulawToLinear b) <= 32124 /\
  (~ 0 <= b < 256 -> store_int16 (js_get Codec.ulawToLinear b) = 0).
Proof.
  destruct (decide (0 <= b < 256)) as [Hb | Hb].
  - split; [| done]. rewrite (ulawToLinear_get b Hb). simpl.
    unfold Codec.ulawToLinear_entry. rewrite wrap_int16_id by apply wrap_int16_range.
    pose (p := fun b : Z =>
      (-32124 <=? Codec.ulawToLinear_entry b) &&
      (Codec.ulawToLinear_entry b <=? 32124)).
    assert (Hp : p b = true).
    { apply (all_codes p 0 256); [vm_compute; reflexivity | lia]. }
    apply andb_prop in Hp. unfold Codec.ulawToLinear_entry in Hp. lia.
  - rewrite js_get_outside; [simpl; split; [lia | done] |].
    unfold Codec.ulawToLinear. rewrite length_map, zrange_length. lia.
Qed.

(** What [encodeUlaw] stores for one element. *)
Lemma encode_slot_bounds (s : Z) :
  0 <= store_uint8 (js_get Codec.linearToUlaw (s + 32768)) < 256 /\
  (~ is_int16 s -> store_uint8 (js_get Codec.linearToUlaw (s + 32768)) = 0).
Proof.
  destruct (decide (is_int16 s)) as [Hs | Hs].
  - split; [| done]. rewrite (linearToUlaw_get s Hs). simpl.
    unfold wrap_uint8. apply Z.mod_pos_bound. lia.
  - rewrite js_get_outside; [simpl; split; [lia | done] |].
    unfold Codec.linearToUlaw. rewrite length_map, zrange_length.
    unfold is_int16 in Hs. lia.
Qed.

Lemma decodeUlaw_bounds (buffer : list Z) :
  Forall (fun d => -32124 <= d <= 32124) (Codec.decodeUlaw buffer).
Proof.
  unfold Codec.decodeUlaw. apply Forall_fmap, Forall_forall.
  intros b _. apply decode_slot_bounds.
Qed.

(** X5: both directions keep the length of the array and store values of
    the tables' ranges whatever the elements are; an element that is no
    index of the table (a byte outside 0..255 for the decoder, a sample
    outside the 16-bit range for the encoder) reads [undefined] and is
    stored as 0. *)
Theorem codec_reads_outside_the_tables (buffer : list Z) :
  length (Codec.decodeUlaw buffer) = length buffer /\
  length (Codec.encodeUlaw buffer) = length buffer /\
  Forall (fun d => -32124 <= d <= 32124) (Codec.decodeUlaw buffer) /\
  Forall (fun c => 0 <= c < 256) (Codec.encodeUlaw buffer) /\
  (forall (i : nat) (b : Z), buffer !! i = Some b -> ~ 0 <= b < 256 ->
     Codec.decodeUlaw buffer !! i = Some 0) /\
  (forall (i : nat) (s : Z), buffer !! i = Some s -> ~ is_int16 s ->
     Codec.encodeUlaw buffer !! i = Some 0).
Proof.
  split; [apply length_map |]. split; [apply length_map |].
  split; [apply decodeUlaw_bounds |].
  unfold Codec.decodeUlaw, Codec.encodeUlaw. repeat split.
  - apply Forall_fmap, Forall_forall. intros s _. apply encode_slot_bounds.
  - intros i b Hi Hb. rewrite list_lookup_fmap, Hi. simpl. f_equal.
    by apply decode_slot_bounds.
  - intros i s Hi Hs. rewrite list_lookup_fmap, Hi. simpl. f_equal.
    by apply encode_slot_bounds.
Qed.

(** ** Resampler: ranges and frame boundaries *)

(** The two slots that turn [i] of the upsampling loop leaves. *)
Lemma upsample_slot (pcm8k : list Z) (i : nat) (x : Z) :
  Forall is_int16 pcm8k -> pcm8k !! i = Some x ->
  Resampler.upsample8kTo16k pcm8k !! (2 * i)%nat = Some x /\
  Resampler.upsample8kTo16k pcm8k !! (2 * i + 1)%nat =
    Some (Z.quot (x + default x (pcm8k !! S i)) 2).
Proof.
  intros Hrange Hi.
  assert (Hlt : (i < length pcm8k)%nat) by (eapply lookup_lt_Some; eauto).
  assert (Hx : is_int16 x) by (rewrite Forall_lookup in Hrange; eauto).
  unfold Resampler.upsample8kTo16k, Resampler.upsample_loop.
  destruct (fill_loop_pairs _ _ _ (replicate (length pcm8k * 2) 0)
              (length pcm8k) (upsample_iter_writes Resampler.mean_div pcm8k))
    as (_ & Hslots & _).
  { by rewrite length_replicate. }
  destruct (Hslots i Hlt) as [Heven Hodd].
  replace (2 * i)%nat with (i * 2)%nat by lia.
  rewrite Heven, Hodd, (rd_lookup _ _ _ Hi). clear Heven Hodd Hslots.
  unfold Resampler.mean_div, to_int16.
  rewrite Qtruncate_inject_Z, (wrap_int16_id x Hx).
  split; [done |]. f_equal.
  rewrite Qtruncate_mean.
  destruct (Z.ltb_spec (Z.of_nat i) (Z.of_nat (length pcm8k) - 1)) as [Hn | Hn].
  - destruct (lookup_lt_is_Some_2 pcm8k (S i)) as [y Hy]; [lia |].
    replace (i + 1)%nat with (S i) by lia.
    rewrite (rd_lookup _ _ _ Hy), Hy. simpl.
    apply wrap_int16_id, quot2_int16; [done |].
    rewrite Forall_lookup in Hrange. eauto.
  - rewrite (lookup_ge_None_2 pcm8k (S i)) by lia. simpl.
    by apply wrap_int16_id, quot2_int16.
Qed.

(** The truncated mean of two numbers lies between them. *)
Lemma quot2_between (lo hi x y : Z) :
  lo <= x <= hi -> lo <= y <= hi -> lo <= Z.quot (x + y) 2 <= hi.
Proof.
  intros Hx Hy.
  pose proof (Z.quot_rem' (x + y) 2) as E.
  destruct (Z.le_gt_cases 0 (x + y)) as [Hs | Hs].
  - pose proof (Z.rem_bound_pos (x + y) 2 Hs). lia.
  - pose proof (Z.rem_nonpos (x + y) 2).
    pose proof (Z.rem_bound_abs (x + y) 2). lia.
Qed.

(** Every index of the upsampled array is [2i] or [2i + 1] for an input
    index [i]. *)
Lemma upsample_index (pcm8k : list Z) (j : nat) :
  (j < 2 * length pcm8k)%nat ->
  exists (i : nat) (x : Z),
    pcm8k !! i = Some x /\ (j = (2 * i)%nat \/ j = (2 * i + 1)%nat).
Proof.
  intros Hj.
  destruct (lookup_lt_is_Some_2 pcm8k (j / 2)) as [x Hx].
  { apply Nat.Div0.div_lt_upper_bound. lia. }
  exists (j / 2)%nat, x. split; [done |].
  pose proof (Nat.div_mod_eq j 2). pose proof (Nat.mod_upper_bound j 2). lia.
Qed.

(** Upsampling never leaves an interval that holds its input. *)
Lemma upsample_in_range (pcm8k : list Z) (lo hi : Z) :
  -32768 <= lo -> hi <= 32767 ->
  Forall (fun x => lo <= x <= hi) pcm8k ->
  Forall (fun y => lo <= y <= hi) (Resampler.upsample8kTo16k pcm8k).
Proof.
  intros Hlo Hhi Hin.
  assert (Hrange : Forall is_int16 pcm8k).
  { eapply Forall_impl; [exact Hin |]. unfold is_int16. simpl. lia. }
  rewrite Forall_lookup in Hin.
  apply Forall_lookup. intros j y Hj.
  assert (Hlt : (j < 2 * length pcm8k)%nat).
  { apply lookup_lt_Some in Hj.
    unfold Resampler.upsample8kTo16k in Hj.
    by rewrite upsample_loop_length in Hj. }
  destruct (upsample_index pcm8k j Hlt) as (i & x & Hx & Hcase).
  destruct (upsample_slot pcm8k i x Hrange Hx) as [Heven Hodd].
  pose proof (Hin _ _ Hx) as Bx.
  destruct Hcase as [-> | ->].
  - rewrite Heven in Hj. injection Hj as <-. done.
  - rewrite Hodd in Hj. injection Hj as <-.
    apply quot2_between; [done |].
    destruct (pcm8k !! S i) as [x' |] eqn:Hx'; simpl; [| done].
    exact (Hin _ _ Hx').
Qed.

(** X6: upsampling does not overshoot: each interpolated sample lies
    between the two input samples it stands between (the last one between
    the last input sample and itself), so when every input sample lies in
    an interval of the 16-bit range, so does every output sample. *)
Theorem upsample8kTo16k_stays_in_range (pcm8k : list Z) (lo hi : Z) :
  -32768 <= lo -> hi <= 32767 ->
  Forall (fun x => lo <= x <= hi) pcm8k ->
  Forall (fun y => lo <= y <= hi) (Resampler.upsample8kTo16k pcm8k) /\
  forall (i : nat) (x : Z), pcm8k !! i = Some x ->
    exists m : Z,
      Resampler.upsample8kTo16k pcm8k !! (2 * i + 1)%nat = Some m /\
      Z.min x (default x (pcm8k !! S i)) <= m <=
      Z.max x (default x (pcm8k !! S i)).
Proof.
  intros Hlo Hhi Hin. split; [by apply upsample_in_range |].
  intros i x Hx.
  assert (Hrange : Forall is_int16 pcm8k).
  { eapply Forall_impl; [exact Hin |]. unfold is_int16. simpl. lia. }
  destruct (upsample_slot pcm8k i x Hrange Hx) as [_ Hodd].
  eexists. split; [exact Hodd |].
  apply quot2_between; lia.
Qed.

Lemma upsample8kTo16k_stays_in_range_witness :
  Forall (fun y => -100 <= y <= 7) (Resampler.upsample8kTo16k [-100; 7; -3]).
Proof.
  apply (upsample8kTo16k_stays_in_range [-100; 7; -3] (-100) 7); [lia | lia |].
  repeat constructor; lia.
Defined.

(** X7: frames are upsampled one by one, so a stream cut into two frames
    can differ from the stream upsampled as a whole in one slot only: the
    last slot of the first frame repeats that frame's last sample, where
    the whole stream has the truncated mean of it and the first sample of
    the next frame. Every other slot is the same. *)
Theorem upsample8kTo16k_frame_boundary (l1 l2 : list Z) (x y : Z) :
  Forall is_int16 l1 -> Forall is_int16 l2 ->
  last l1 = Some x -> head l2 = Some y ->
  (forall j : nat, j <> (2 * length l1 - 1)%nat ->
     Resampler.upsample8kTo16k (l1 ++ l2) !! j =
     (Resampler.upsample8kTo16k l1 ++ Resampler.upsample8kTo16k l2) !! j) /\
  Resampler.upsample8kTo16k (l1 ++ l2) !! (2 * length l1 - 1)%nat =
    Some (Z.quot (x + y) 2) /\
  (Resampler.upsample8kTo16k l1 ++ Resampler.upsample8kTo16k l2)
    !! (2 * length l1 - 1)%nat = Some x.
Proof.
  intros H1 H2 Hlast Hhead.
  assert (H12 : Forall is_int16 (l1 ++ l2)) by (by apply Forall_app).
  assert (Hlen1 : length (Resampler.upsample8kTo16k l1) = (2 * length l1)%nat)
    by apply upsample_loop_length.
  assert (Hlen2 : length (Resampler.upsample8kTo16k l2) = (2 * length l2)%nat)
    by apply upsample_loop_length.
  assert (Hlen : length (Resampler.upsample8kTo16k (l1 ++ l2)) =
                 (2 * (length l1 + length l2))%nat).
  { unfold Resampler.upsample8kTo16k.
    by rewrite upsample_loop_length, length_app. }
  assert (Hn1 : (0 < length l1)%nat).
  { destruct l1; [done | simpl; lia]. }
  assert (Hx : l1 !! (length l1 - 1)%nat = Some x).
  { rewrite last_lookup in Hlast.
    by replace (length l1 - 1)%nat with (pred (length l1)) by lia. }
  assert (Hy : l2 !! 0%nat = Some y) by (by destruct l2).
  split; [| split].
  - intros j Hj.
    destruct (Nat.lt_ge_cases j (2 * length l1)) as [Hin1 | Hout1].
    + destruct (upsample_index l1 j Hin1) as (i & a & Ha & Hcase).
      assert (Hi : (i < length l1)%nat) by (eapply lookup_lt_Some; eauto).
      assert (Ha' : (l1 ++ l2) !! i = Some a) by (by rewrite lookup_app_l).
      destruct (upsample_slot l1 i a H1 Ha) as [E1 O1].
      destruct (upsample_slot (l1 ++ l2) i a H12 Ha') as [E12 O12].
      rewrite lookup_app_l by lia.
      destruct Hcase as [-> | ->]; [by rewrite E1, E12 |].
      rewrite O1, O12. by rewrite lookup_app_l by lia.
    + destruct (Nat.lt_ge_cases j (2 * (length l1 + length l2))) as [Hin | Hout].
      * rewrite lookup_app_r by lia. rewrite Hlen1.
        destruct (upsample_index l2 (j - 2 * length l1)) as (i & a & Ha & Hcase);
          [lia |].
        assert (Ha' : (l1 ++ l2) !! (length l1 + i)%nat = Some a).
        { by rewrite lookup_app_r, Nat.add_comm, Nat.add_sub by lia. }
        destruct (upsample_slot l2 i a H2 Ha) as [E2 O2].
        destruct (upsample_slot (l1 ++ l2) _ a H12 Ha') as [E12 O12].
        assert (Hnext : (l1 ++ l2) !! S (length l1 + i) = l2 !! S i).
        { rewrite lookup_app_r by lia. f_equal. lia. }
        rewrite Hnext in O12.
        destruct Hcase as [Hc | Hc]; rewrite Hc.
        -- replace j with (2 * (length l1 + i))%nat by lia. by rewrite E2, E12.
        -- replace j with (2 * (length l1 + i) + 1)%nat by lia. by rewrite O2, O12.
      * rewrite !lookup_ge_None_2; [done | |]; [rewrite length_app |]; lia.
  - assert (Hx' : (l1 ++ l2) !! (length l1 - 1)%nat = Some x).
    { by rewrite lookup_app_l by lia. }
    destruct (upsample_slot (l1 ++ l2) _ x H12 Hx') as [_ O12].
    replace (2 * (length l1 - 1) + 1)%nat with (2 * length l1 - 1)%nat in O12 by lia.
    rewrite O12. do 2 f_equal.
    replace (S (length l1 - 1)) with (length l1 + 0)%nat by lia.
    rewrite lookup_app_r by lia.
    replace (length l1 + 0 - length l1)%nat with 0%nat by lia.
    by rewrite Hy.
  - rewrite lookup_app_l by lia.
    destruct (upsample_slot l1 _ x H1 Hx) as [_ O1].
    replace (2 * (length l1 - 1) + 1)%nat with (2 * length l1 - 1)%nat in O1 by lia.
    rewrite O1. do 2 f_equal.
    rewrite lookup_ge_None_2 by lia. simpl.
    replace (x + x) with (x * 2) by lia. apply Z.quot_mul. lia.
Qed.

Lemma upsample8kTo16k_frame_boundary_witness :
  Resampler.upsample8kTo16k ([10; 20] ++ [40; 80]) !! (2 * 2 - 1)%nat =
    Some (Z.quot (20 + 40) 2) /\
  (Resampler.upsample8kTo16k [10; 20] ++ Resampler.upsample8kTo16k [40; 80])
    !! (2 * 2 - 1)%nat = Some 20.
Proof.
  assert (H1 : Forall is_int16 [10; 20]).
  { repeat constructor; unfold is_int16; lia. }
  assert (H2 : Forall is_int16 [40; 80]).
  { repeat constructor; unfold is_int16; lia. }
  exact (proj2 (upsample8kTo16k_frame_boundary [10; 20] [40; 80] 20 40
                  H1 H2 eq_refl eq_refl)).
Defined.

(** A downsampler whose slot [i] is a function of the input samples [3i],
    [3i + 1] and [3i + 2] handles a stream frame by frame, as long as the
    frames before the last hold a multiple of three samples. *)
Lemma frames_of_slots (down : list Z -> list Z) (tap : Z -> Z -> Z -> Z) :
  (forall l, length (down l) = (length l / 3)%nat) ->
  (forall l i, (i < length l / 3)%nat ->
     exists a b c : Z,
       l !! (3 * i)%nat = Some a /\ l !! (3 * i + 1)%nat = Some b /\
       l !! (3 * i + 2)%nat = Some c /\ down l !! i = Some (tap a b c)) ->
  forall l1 l2 : list Z, (length l1 mod 3 = 0)%nat ->
    down (l1 ++ l2) = down l1 ++ down l2.
Proof.
  intros Hlen Hslot l1 l2 Hmod.
  pose proof (Nat.div_mod_eq (length l1) 3) as Hl1.
  assert (Hdiv : ((length l1 + length l2) / 3 = length l1 / 3 + length l2 / 3)%nat).
  { replace (length l1 + length l2)%nat
      with (length l2 + (length l1 / 3) * 3)%nat by lia.
    rewrite Nat.div_add by lia. lia. }
  apply list_eq. intros i.
  destruct (Nat.lt_ge_cases i (length l1 / 3)) as [Hin1 | Hout1].
  - rewrite lookup_app_l by (rewrite Hlen; lia).
    destruct (Hslot l1 i Hin1) as (a & b & c & Ha & Hb & Hc & ->).
    destruct (Hslot (l1 ++ l2) i) as (a' & b' & c' & Ha' & Hb' & Hc' & ->).
    { rewrite length_app, Hdiv. lia. }
    apply lookup_lt_Some in Ha as La. apply lookup_lt_Some in Hb as Lb.
    apply lookup_lt_Some in Hc as Lc.
    rewrite lookup_app_l in Ha', Hb', Hc' by lia.
    congruence.
  - rewrite lookup_app_r by (rewrite Hlen; lia). rewrite Hlen.
    destruct (Nat.lt_ge_cases i ((length l1 + length l2) / 3)) as [Hin | Hout].
    + destruct (Hslot l2 (i - length l1 / 3)%nat) as (a & b & c & Ha & Hb & Hc & ->);
        [lia |].
      destruct (Hslot (l1 ++ l2) i) as (a' & b' & c' & Ha' & Hb' & Hc' & ->).
      { by rewrite length_app. }
      rewrite lookup_app_r in Ha', Hb', Hc' by lia.
      replace (3 * i - length l1)%nat with (3 * (i - length l1 / 3))%nat
        in Ha' by lia.
      replace (3 * i + 1 - length l1)%nat with (3 * (i - length l1 / 3) + 1)%nat
        in Hb' by lia.
      replace (3 * i + 2 - length l1)%nat with (3 * (i - length l1 / 3) + 2)%nat
        in Hc' by lia.
      congruence.
    + rewrite !lookup_ge_None_2; [done | |]; rewrite Hlen; [| rewrite length_app]; lia.
Qed.

Lemma take3rd_slot3 (l : list Z) (i : nat) :
  (i < length l / 3)%nat ->
  exists a b c : Z,
    l !! (3 * i)%nat = Some a /\ l !! (3 * i + 1)%nat = Some b /\
    l !! (3 * i + 2)%nat = Some c /\
    Resampler.downsample24kTo8k_take3rd l !! i = Some (wrap_int16 a).
Proof.
  intros Hi. pose proof (anchor_has_successors _ _ Hi) as Hin.
  destruct (take3rd_slot l i Hi) as (a & Ha & Hout).
  destruct (lookup_lt_is_Some_2 l (3 * i + 1)) as [b Hb]; [lia |].
  destruct (lookup_lt_is_Some_2 l (3 * i + 2)) as [c Hc]; [lia |].
  by exists a, b, c.
Qed.

(** X8: [downsample24kTo8k] keeps no state between frames and needs none:
    when the first frame holds a multiple of three samples, two frames
    downsampled one after the other give the stream downsampled as a whole,
    in every revision; a tail of one or two samples adds nothing to the
    output. *)
Theorem downsample24kTo8k_frame_by_frame (l1 l2 : list Z) :
  (length l1 mod 3 = 0)%nat ->
  Resampler.downsample24kTo8k_gain25 (l1 ++ l2) =
    Resampler.downsample24kTo8k_gain25 l1 ++ Resampler.downsample24kTo8k_gain25 l2 /\
  Resampler.downsample24kTo8k_gain15 (l1 ++ l2) =
    Resampler.downsample24kTo8k_gain15 l1 ++ Resampler.downsample24kTo8k_gain15 l2 /\
  Resampler.downsample24kTo8k_weighted (l1 ++ l2) =
    Resampler.downsample24kTo8k_weighted l1 ++
    Resampler.downsample24kTo8k_weighted l2 /\
  Resampler.downsample24kTo8k_take3rd (l1 ++ l2) =
    Resampler.downsample24kTo8k_take3rd l1 ++
    Resampler.downsample24kTo8k_take3rd l2 /\
  ((length l2 < 3)%nat ->
   Resampler.downsample24kTo8k_gain25 (l1 ++ l2) =
     Resampler.downsample24kTo8k_gain25 l1).
Proof.
  intros Hmod.
  assert (H25 : Resampler.downsample24kTo8k_gain25 (l1 ++ l2) =
                Resampler.downsample24kTo8k_gain25 l1 ++
                Resampler.downsample24kTo8k_gain25 l2).
  { apply (frames_of_slots _ Resampler.tap_gain25); [| | done].
    - apply downsample_loop_length.
    - apply downsample_loop_slot. }
  split; [exact H25 |]. split; [| split; [| split]].
  - apply (frames_of_slots _ (Resampler.tap_cfg 1.5 0.25 0.5 0.25)); [| | done].
    + apply downsample_loop_length.
    + apply downsample_loop_slot.
  - apply (frames_of_slots _ Resampler.tap_weighted); [| | done].
    + apply downsample_loop_length.
    + apply downsample_loop_slot.
  - apply (frames_of_slots _ (fun a _ _ => wrap_int16 a)); [| | done].
    + apply take3rd_length.
    + apply take3rd_slot3.
  - intros Hshort. rewrite H25.
    assert (Hnil : Resampler.downsample24kTo8k_gain25 l2 = []).
    { apply nil_length_inv.
      unfold Resampler.downsample24kTo8k_gain25.
      rewrite downsample_loop_length. by apply Nat.div_small. }
    by rewrite Hnil, app_nil_r.
Qed.

Lemma downsample24kTo8k_frame_by_frame_witness :
  Resampler.downsample24kTo8k_take3rd ([1; 2; 3] ++ [4; 5; 6; 7]) =
    Resampler.downsample24kTo8k_take3rd [1; 2; 3] ++
    Resampler.downsample24kTo8k_take3rd [4; 5; 6; 7].
Proof.
  destruct (downsample24kTo8k_frame_by_frame [1; 2; 3] [4; 5; 6; 7] eq_refl)
    as (_ & _ & _ & H & _).
  exact H.
Defined.

(** ** The revision without gain *)

Lemma Qtruncate_quarters (a b c : Z) :
  Qtruncate (inject_Z a * 0.25 + inject_Z b * 0.5 + inject_Z c * 0.25)%Q =
  Z.quot (a + 2 * b + c) 4.
Proof.
  transitivity (Qtruncate (inject_Z (a + 2 * b + c) / 4)%Q).
  - apply Qtruncate_wd.
    rewrite !inject_Z_plus, inject_Z_mult. field.
  - unfold Qtruncate. simpl. f_equal. lia.
Qed.

Lemma quot4_between (lo hi a b c : Z) :
  lo <= a <= hi -> lo <= b <= hi -> lo <= c <= hi ->
  lo <= Z.quot (a + 2 * b + c) 4 <= hi.
Proof.
  intros Ha Hb Hc.
  pose proof (Z.quot_rem' (a + 2 * b + c) 4) as E.
  destruct (Z.le_gt_cases 0 (a + 2 * b + c)) as [Hs | Hs].
  - pose proof (Z.rem_bound_pos (a + 2 * b + c) 4 Hs). lia.
  - pose proof (Z.rem_nonpos (a + 2 * b + c) 4).
    pose proof (Z.rem_bound_abs (a + 2 * b + c) 4). lia.
Qed.

(** X9: in the revision without gain the stored sample is
    [(a + 2b + c) / 4] with its fraction dropped, which lies between the
    smallest and the largest of the three samples: the output stays in
    every interval of the 16-bit range that holds the input, so the store
    never wraps. *)
Theorem downsample24kTo8k_weighted_stays_in_range (pcm24k : list Z) (lo hi : Z) :
  -32768 <= lo -> hi <= 32767 ->
  Forall (fun x => lo <= x <= hi) pcm24k ->
  Forall (fun y => lo <= y <= hi) (Resampler.downsample24kTo8k_weighted pcm24k) /\
  forall (i : nat) (a b c : Z),
    pcm24k !! (3 * i)%nat = Some a -> pcm24k !! (3 * i + 1)%nat = Some b ->
    pcm24k !! (3 * i + 2)%nat = Some c ->
    Resampler.downsample24kTo8k_weighted pcm24k !! i =
      Some (Z.quot (a + 2 * b + c) 4).
Proof.
  intros Hlo Hhi Hin. rewrite Forall_lookup in Hin.
  assert (Hslots : forall (i : nat) (a b c : Z),
            pcm24k !! (3 * i)%nat = Some a -> pcm24k !! (3 * i + 1)%nat = Some b ->
            pcm24k !! (3 * i + 2)%nat = Some c ->
            Resampler.downsample24kTo8k_weighted pcm24k !! i =
              Some (Z.quot (a + 2 * b + c) 4)).
  { intros i a b c Ha Hb Hc.
    assert (Hi : (i < length pcm24k / 3)%nat).
    { apply lookup_lt_Some in Hc. apply Nat.div_le_lower_bound; lia. }
    destruct (downsample_loop_slot Resampler.tap_weighted pcm24k i Hi)
      as (a' & b' & c' & Ha' & Hb' & Hc' & Hw).
    assert (a' = a) by congruence. assert (b' = b) by congruence.
    assert (c' = c) by congruence. subst a' b' c'.
    unfold Resampler.downsample24kTo8k_weighted. rewrite Hw. f_equal.
    unfold Resampler.tap_weighted, to_int16. rewrite Qtruncate_quarters.
    apply wrap_int16_id.
    pose proof (quot4_between lo hi a b c (Hin _ _ Ha) (Hin _ _ Hb) (Hin _ _ Hc)).
    unfold is_int16. lia. }
  split; [| exact Hslots].
  apply Forall_lookup. intros i y Hy.
  assert (Hi : (i < length pcm24k / 3)%nat).
  { apply lookup_lt_Some in Hy.
    unfold Resampler.downsample24kTo8k_weighted in Hy.
    by rewrite downsample_loop_length in Hy. }
  destruct (downsample_loop_slot Resampler.tap_weighted pcm24k i Hi)
    as (a & b & c & Ha & Hb & Hc & _).
  rewrite (Hslots i a b c Ha Hb Hc) in Hy. injection Hy as <-.
  apply quot4_between; eauto.
Qed.

Lemma downsample24kTo8k_weighted_stays_in_range_witness :
  Forall (fun y => -7 <= y <= 12)
    (Resampler.downsample24kTo8k_weighted [12; -7; 3; 0; 1; 12]).
Proof.
  apply (downsample24kTo8k_weighted_stays_in_range
           [12; -7; 3; 0; 1; 12] (-7) 12); [lia | lia |].
  repeat constructor; lia.
Defined.

(** ** The clamp of the scaling revisions *)

Lemma clamp16_inside (q : Q) :
  (inject_Z (-32768) <= q)%Q -> (q <= inject_Z 32767)%Q ->
  (Resampler.clamp16 q == q)%Q.
Proof.
  intros Hlo Hhi. unfold Resampler.clamp16.
  rewrite (Q.min_r _ _ Hhi). by apply Q.max_r.
Qed.

Lemma clamp16_above (q : Q) :
  (inject_Z 32767 <= q)%Q -> (Resampler.clamp16 q == inject_Z 32767)%Q.
Proof.
  intros Hhi. unfold Resampler.clamp16.
  rewrite (Q.min_l _ _ Hhi). by apply Q.max_r.
Qed.

Lemma clamp16_below (q : Q) :
  (q <= inject_Z (-32768))%Q -> (Resampler.clamp16 q == inject_Z (-32768))%Q.
Proof.
  intros Hlo. unfold Resampler.clamp16.
  assert (Hhi : (q <= 32767)%Q).
  { apply (Qle_trans _ (inject_Z (-32768))); done. }
  rewrite (Q.min_r _ _ Hhi). by apply Q.max_l.
Qed.

Lemma Qtruncate_eighths (z : Z) : Qtruncate (inject_Z z / 8)%Q = Z.quot z 8.
Proof. unfold Qtruncate. simpl. f_equal. lia. Qed.

(** X10: the revision with gain 1.5 is linear, [(3a + 6b + 3c) / 8] with
    its fraction dropped, as long as the three samples lie between -21845
    and 21844; three samples of 21845 or more (two thirds of full scale)
    give 32767, three of -21846 or less give -32768. *)
Theorem downsample24kTo8k_gain15_regimes (pcm24k : list Z) (i : nat)
    (a b c : Z) :
  pcm24k !! (3 * i)%nat = Some a -> pcm24k !! (3 * i + 1)%nat = Some b ->
  pcm24k !! (3 * i + 2)%nat = Some c ->
  (-21845 <= a <= 21844 -> -21845 <= b <= 21844 -> -21845 <= c <= 21844 ->
   Resampler.downsample24kTo8k_gain15 pcm24k !! i =
     Some (Z.quot (3 * a + 6 * b + 3 * c) 8)) /\
  (21845 <= a -> 21845 <= b -> 21845 <= c ->
   Resampler.downsample24kTo8k_gain15 pcm24k !! i = Some 32767) /\
  (a <= -21846 -> b <= -21846 -> c <= -21846 ->
   Resampler.downsample24kTo8k_gain15 pcm24k !! i = Some (-32768)).
Proof.
  intros Ha Hb Hc.
  assert (Hi : (i < length pcm24k / 3)%nat).
  { apply lookup_lt_Some in Hc. apply Nat.div_le_lower_bound; lia. }
  destruct (gain15_slot pcm24k i Hi) as (a' & b' & c' & Ha' & Hb' & Hc' & ->).
  assert (a' = a) by congruence. assert (b' = b) by congruence.
  assert (c' = c) by congruence. subst a' b' c'.
  assert (Hscale : forall z : Z, (inject_Z z * 1.5 == inject_Z (3 * z) / 2)%Q).
  { intros z. rewrite inject_Z_mult. field. }
  assert (Hin : forall z : Z, -21845 <= z <= 21844 ->
            (Resampler.clamp16 (inject_Z z * 1.5) == inject_Z z * 1.5)%Q).
  { intros z Hz. apply clamp16_inside; rewrite Hscale; unfold Qle; simpl; lia. }
  assert (Hup : forall z : Z, 21845 <= z ->
            (Resampler.clamp16 (inject_Z z * 1.5) == inject_Z 32767)%Q).
  { intros z Hz. apply clamp16_above; rewrite Hscale; unfold Qle; simpl; lia. }
  assert (Hdown : forall z : Z, z <= -21846 ->
            (Resampler.clamp16 (inject_Z z * 1.5) == inject_Z (-32768))%Q).
  { intros z Hz. apply clamp16_below; rewrite Hscale; unfold Qle; simpl; lia. }
  split; [| split].
  - intros Ra Rb Rc. f_equal. rewrite <- Qtruncate_eighths.
    apply Qtruncate_wd. rewrite (Hin a Ra), (Hin b Rb), (Hin c Rc).
    rewrite !inject_Z_plus, !inject_Z_mult. field.
  - intros Ra Rb Rc. f_equal. rewrite <- (Qtruncate_inject_Z 32767).
    apply Qtruncate_wd. rewrite (Hup a Ra), (Hup b Rb), (Hup c Rc). reflexivity.
  - intros Ra Rb Rc. f_equal. rewrite <- (Qtruncate_inject_Z (-32768)).
    apply Qtruncate_wd. rewrite (Hdown a Ra), (Hdown b Rb), (Hdown c Rc).
    reflexivity.
Qed.

Lemma downsample24kTo8k_gain15_regimes_witness :
  Resampler.downsample24kTo8k_gain15 [100; -7; 3000] !! 0%nat =
    Some (Z.quot (3 * 100 + 6 * -7 + 3 * 3000) 8) /\
  Resampler.downsample24kTo8k_gain15 [30000; 22000; 32767] !! 0%nat =
    Some 32767.
Proof.
  split.
  - apply (proj1 (downsample24kTo8k_gain15_regimes [100; -7; 3000] 0
                    100 (-7) 3000 eq_refl eq_refl eq_refl)); lia.
  - apply (proj1 (proj2 (downsample24kTo8k_gain15_regimes
                           [30000; 22000; 32767] 0 30000 22000 32767
                           eq_refl eq_refl eq_refl))); lia.
Defined.

(** ** The revision with gain 2.5 at and beyond full scale *)

Lemma scale_clamp25_saturates (z : Z) :
  (13107 <= z <= 32767 -> Resampler.scale_clamp25 z = 32767%float) /\
  (-32768 <= z <= -13108 -> Resampler.scale_clamp25 z = (-32768)%float).
Proof.
  split; intros Hz; apply FloatAxioms.Leibniz.eqb_spec.
  - pose (p := fun z : Z =>
              PrimFloat.Leibniz.eqb (Resampler.scale_clamp25 z) 32767%float).
    assert (Hall : forallb p (zrange 13107 (Z.to_nat 19661)) = true)
      by (vm_compute; reflexivity).
    rewrite forallb_forall in Hall. apply Hall, elem_of_zrange. lia.
  - pose (p := fun z : Z =>
              PrimFloat.Leibniz.eqb (Resampler.scale_clamp25 z) (-32768)%float).
    assert (Hall : forallb p (zrange (-32768) (Z.to_nat 19661)) = true)
      by (vm_compute; reflexivity).
    rewrite forallb_forall in Hall. apply Hall, elem_of_zrange. lia.
Qed.

Lemma tap_gain25_parts (a b c : Z) :
  Resampler.tap_gain25 a b c =
  Resampler.float_to_int16
    (Resampler.filter25 (Resampler.scale_clamp25 a) (Resampler.scale_clamp25 b)
       (Resampler.scale_clamp25 c)).
Proof. reflexivity. Qed.

(** X11: the revision with gain 2.5, on binary64: three samples of 13107
    or more (40% of full scale) give 32767 and three of -13108 or less give
    -32768, the roundings of the three products and two sums included. *)
Theorem downsample24kTo8k_gain25_saturates (pcm24k : list Z) (i : nat)
    (a b c : Z) :
  is_int16 a -> is_int16 b -> is_int16 c ->
  pcm24k !! (3 * i)%nat = Some a -> pcm24k !! (3 * i + 1)%nat = Some b ->
  pcm24k !! (3 * i + 2)%nat = Some c ->
  (13107 <= a -> 13107 <= b -> 13107 <= c ->
   Resampler.downsample24kTo8k_gain25 pcm24k !! i = Some 32767) /\
  (a <= -13108 -> b <= -13108 -> c <= -13108 ->
   Resampler.downsample24kTo8k_gain25 pcm24k !! i = Some (-32768)).
Proof.
  unfold is_int16. intros Ia Ib Ic Ha Hb Hc.
  assert (Hi : (i < length pcm24k / 3)%nat).
  { apply lookup_lt_Some in Hc. apply Nat.div_le_lower_bound; lia. }
  destruct (downsample_loop_slot Resampler.tap_gain25 pcm24k i Hi)
    as (a' & b' & c' & Ha' & Hb' & Hc' & Hout).
  assert (a' = a) by congruence. assert (b' = b) by congruence.
  assert (c' = c) by congruence. subst a' b' c'.
  unfold Resampler.downsample24kTo8k_gain25. rewrite Hout, tap_gain25_parts.
  split; intros Ra Rb Rc; f_equal.
  - rewrite (proj1 (scale_clamp25_saturates a)) by lia.
    rewrite (proj1 (scale_clamp25_saturates b)) by lia.
    rewrite (proj1 (scale_clamp25_saturates c)) by lia.
    vm_compute. reflexivity.
  - rewrite (proj2 (scale_clamp25_saturates a)) by lia.
    rewrite (proj2 (scale_clamp25_saturates b)) by lia.
    rewrite (proj2 (scale_clamp25_saturates c)) by lia.
    vm_compute. reflexivity.
Qed.

Lemma downsample24kTo8k_gain25_saturates_witness :
  Resampler.downsample24kTo8k_gain25 [13107; 20000; 32767] !! 0%nat =
    Some 32767 /\
  Resampler.downsample24kTo8k_gain25 [-13108; -20000; -32768] !! 0%nat =
    Some (-32768).
Proof.
  assert (I1 : is_int16 13107 /\ is_int16 20000 /\ is_int16 32767).
  { unfold is_int16. lia. }
  assert (I2 : is_int16 (-13108) /\ is_int16 (-20000) /\ is_int16 (-32768)).
  { unfold is_int16. lia. }
  destruct I1 as (A1 & B1 & C1). destruct I2 as (A2 & B2 & C2).
  split.
  - apply (proj1 (downsample24kTo8k_gain25_saturates [13107; 20000; 32767] 0
                    13107 20000 32767 A1 B1 C1 eq_refl eq_refl eq_refl)); lia.
  - apply (proj2 (downsample24kTo8k_gain25_saturates [-13108; -20000; -32768] 0
                    (-13108) (-20000) (-32768) A2 B2 C2
                    eq_refl eq_refl eq_refl)); lia.
Defined.

(** ** Silence through the two audio paths *)

Lemma downsample_loop_constant (tap : Z -> Z -> Z -> Z) (n : nat) (x y : Z) :
  tap x x x = y ->
  Resampler.downsample_loop tap (replicate n x) = replicate (n / 3) y.
Proof.
  intros Htap. apply list_eq. intros i.
  destruct (Nat.lt_ge_cases i (n / 3)) as [Hi | Hi].
  - destruct (downsample_loop_slot tap (replicate n x) i)
      as (a & b & c & Ha & Hb & Hc & ->).
    { by rewrite length_replicate. }
    apply lookup_replicate in Ha as [-> _]. apply lookup_replicate in Hb as [-> _].
    apply lookup_replicate in Hc as [-> _].
    by rewrite Htap, lookup_replicate_2.
  - rewrite !lookup_ge_None_2; [done | |].
    + by rewrite length_replicate.
    + by rewrite downsample_loop_length, length_replicate.
Qed.

(** X12: silence through the two audio paths. A telephony frame of the
    silence code 255 reaches the model as zeros. A chunk of zeros from the
    model is downsampled to zeros, but encoded as the code 205, which the
    decoder reads as 1052, not as silence. *)
Theorem silence_through_both_paths (n : nat) :
  Resampler.upsample8kTo16k (Codec.decodeUlaw (replicate n 255)) =
    replicate (2 * n) 0 /\
  Resampler.downsample24kTo8k_gain25 (replicate n 0) = replicate (n / 3) 0 /\
  Codec.encodeUlaw (Resampler.downsample24kTo8k_gain25 (replicate n 0)) =
    replicate (n / 3) 205 /\
  Codec.decodeUlaw
    (Codec.encodeUlaw (Resampler.downsample24kTo8k_gain25 (replicate n 0))) =
    replicate (n / 3) 1052.
Proof.
  assert (Hdown : Resampler.downsample24kTo8k_gain25 (replicate n 0) =
                  replicate (n / 3) 0).
  { apply downsample_loop_constant. vm_compute. reflexivity. }
  assert (Hdec : Codec.decodeUlaw (replicate n 255) = replicate n 0).
  { unfold Codec.decodeUlaw. rewrite fmap_replicate.
    rewrite (ulawToLinear_get 255) by lia. reflexivity. }
  assert (Henc : forall k : nat, Codec.encodeUlaw (replicate k 0) = replicate k 205).
  { intros k. unfold Codec.encodeUlaw. rewrite fmap_replicate.
    rewrite (linearToUlaw_get 0) by (unfold is_int16; lia). reflexivity. }
  assert (Hback : forall k : nat,
            Codec.decodeUlaw (replicate k 205) = replicate k 1052).
  { intros k. unfold Codec.decodeUlaw. rewrite fmap_replicate.
    rewrite (ulawToLinear_get 205) by lia. reflexivity. }
  split; [| split; [done | split]].
  - rewrite Hdec. apply list_eq. intros j.
    assert (Hzero : Forall is_int16 (replicate n 0)).
    { apply Forall_replicate. unfold is_int16. lia. }
    destruct (Nat.lt_ge_cases j (2 * n)) as [Hj | Hj].
    + rewrite lookup_replicate_2 by done.
      destruct (Nat.Even_or_Odd j) as [[i ->] | [i ->]].
      * destruct (upsample_slot (replicate n 0) i 0 Hzero) as [E _].
        { apply lookup_replicate_2. lia. }
        done.
      * destruct (upsample_slot (replicate n 0) i 0 Hzero) as [_ O].
        { apply lookup_replicate_2. lia. }
        rewrite O. f_equal.
        destruct (replicate n 0 !! S i) as [y |] eqn:Hy; simpl; [| done].
        apply lookup_replicate in Hy as [-> _]. done.
    + rewrite !lookup_ge_None_2; [done | |].
      * by rewrite length_replicate.
      * unfold Resampler.upsample8kTo16k.
        by rewrite upsample_loop_length, length_replicate.
  - by rewrite Hdown, Henc.
  - by rewrite Hdown, Henc, Hback.
Qed.

(** ** Orders as the tool call builds them *)

Lemma newOrder_lookup (with_status : bool) (orderId k : string)
    (fc : functionCall) (c : clock) :
  newOrder with_status orderId fc c !! k =
    if decide (k = "status") then
      if with_status then Some (VStr "created") else fc_args fc !! "status"
    else if decide (k = "created_at") then Some (VStr (now_iso c))
    else if decide (k = "id") then
      match fc_args fc !! "id" with
      | Some v => Some v
      | None => Some (VStr orderId)
      end
    else fc_args fc !! k.
Proof.
  assert (Hbase : forall k' : string,
            (<["created_at" := VStr (now_iso c)]>
               (fc_args fc ∪ {["id" := VStr orderId]}) : gmap string value) !! k' =
            if decide (k' = "created_at") then Some (VStr (now_iso c))
            else if decide (k' = "id") then
              match fc_args fc !! "id" with
              | Some v => Some v
              | None => Some (VStr orderId)
              end
            else fc_args fc !! k').
  { intros k'. destruct (decide (k' = "created_at")) as [-> | Hc].
    - apply lookup_insert_eq.
    - rewrite lookup_insert_ne by done. rewrite lookup_union.
      destruct (decide (k' = "id")) as [-> | Hi].
      + rewrite lookup_singleton_eq. by destruct (fc_args fc !! "id").
      + rewrite lookup_singleton_ne by done. by destruct (fc_args fc !! k'). }
  unfold newOrder. destruct with_status.
  - destruct (decide (k = "status")) as [-> | Hs].
    + apply lookup_insert_eq.
    + rewrite lookup_insert_ne by done. apply Hbase.
  - rewrite Hbase. destruct (decide (k = "status")) as [-> | Hs]; [| done].
    done.
Qed.

(** A [create_order] call stores its order whatever the state of the model
    session is. *)
Lemma create_order_file (with_status : bool) (s : session)
    (fc : functionCall) (c : clock) :
  fc_name fc = "create_order" ->
  orders_file (toolCall_iter with_status s (fc, c)) =
    Saved (newOrder with_status ("ord_" +:+ pretty (now_ms c)) fc c ::
           getSavedOrders (orders_file s)).
Proof.
  intros Hname. unfold toolCall_iter, model_send. rewrite Hname. simpl.
  by destruct s as [? ? ? ? ? []].
Qed.

Lemma generated_id_inj (a b : Z) :
  "ord_" +:+ pretty a = "ord_" +:+ pretty b -> a = b.
Proof.
  intros H. simpl in H. injection H as H. by apply (inj pretty).
Qed.

Lemma id_is_generated (orderId : string) (o : order) :
  o !! "id" = Some (VStr orderId) -> id_is orderId o = true.
Proof. unfold id_is. intros ->. apply String.eqb_refl. Qed.

Lemma id_is_other (orderId : string) (o : order) (v : value) :
  o !! "id" = Some v -> v <> VStr orderId -> id_is orderId o = false.
Proof.
  unfold id_is. intros -> Hne. destruct v as [t | | |]; try done.
  destruct (String.eqb_spec t orderId) as [-> | _]; done.
Qed.

(** X13: order ids follow the clock alone. Two [create_order] calls whose
    arguments name no id get the same id exactly when [Date.now()] returned
    the same millisecond for both; both orders are stored, and a status
    update under that id then reaches the later of the two only. *)
Theorem order_ids_follow_the_clock (with_status : bool) (s : session)
    (fc1 fc2 : functionCall) (c1 c2 : clock) :
  fc_name fc1 = "create_order" -> fc_name fc2 = "create_order" ->
  fc_args fc1 !! "id" = None -> fc_args fc2 !! "id" = None ->
  exists o1 o2 : order,
    orders_file (foldl (toolCall_iter with_status) s [(fc1, c1); (fc2, c2)]) =
      Saved (o2 :: o1 :: getSavedOrders (orders_file s)) /\
    o1 !! "id" = Some (VStr ("ord_" +:+ pretty (now_ms c1))) /\
    o2 !! "id" = Some (VStr ("ord_" +:+ pretty (now_ms c2))) /\
    (o1 !! "id" = o2 !! "id" <-> now_ms c1 = now_ms c2) /\
    (now_ms c1 = now_ms c2 ->
     forall status : option value,
       updateOrderStatus ("ord_" +:+ pretty (now_ms c1)) status
         (Saved (o2 :: o1 :: getSavedOrders (orders_file s))) =
       (Saved (set_status status o2 :: o1 :: getSavedOrders (orders_file s)),
        true)).
Proof.
  intros N1 N2 A1 A2.
  exists (newOrder with_status ("ord_" +:+ pretty (now_ms c1)) fc1 c1),
         (newOrder with_status ("ord_" +:+ pretty (now_ms c2)) fc2 c2).
  assert (I1 : newOrder with_status ("ord_" +:+ pretty (now_ms c1)) fc1 c1 !! "id" =
               Some (VStr ("ord_" +:+ pretty (now_ms c1)))).
  { rewrite newOrder_lookup, A1. done. }
  assert (I2 : newOrder with_status ("ord_" +:+ pretty (now_ms c2)) fc2 c2 !! "id" =
               Some (VStr ("ord_" +:+ pretty (now_ms c2)))).
  { rewrite newOrder_lookup, A2. done. }
  split; [| split; [done | split; [done | split]]].
  - cbn [foldl]. rewrite (create_order_file _ _ fc2 c2 N2).
    by rewrite (create_order_file _ _ fc1 c1 N1).
  - rewrite I1, I2. split.
    + intros H. apply generated_id_inj. congruence.
    + by intros ->.
  - intros Hsame status. unfold updateOrderStatus.
    cbn [getSavedOrders findIndex].
    rewrite Hsame. by rewrite (id_is_generated _ _ I2).
Qed.

Lemma order_ids_follow_the_clock_witness :
  exists o1 o2 : order,
    orders_file
      (foldl (toolCall_iter true) Claimed.call_in_progress
         [(Claimed.call_missing_address.1, Claimed.call_missing_address.2);
          (Claimed.call_missing_address.1, Claimed.call_missing_address.2)]) =
      Saved (o2 :: o1 :: getSavedOrders (orders_file Claimed.call_in_progress)) /\
    o1 !! "id" = Some (VStr ("ord_" +:+ pretty 1700000000000)) /\
    o2 !! "id" = Some (VStr ("ord_" +:+ pretty 1700000000000)) /\
    (o1 !! "id" = o2 !! "id" <-> 1700000000000 = 1700000000000) /\
    (1700000000000 = 1700000000000 ->
     forall status : option value,
       updateOrderStatus ("ord_" +:+ pretty 1700000000000) status
         (Saved (o2 :: o1 :: getSavedOrders (orders_file Claimed.call_in_progress))) =
       (Saved (set_status status o2 :: o1 ::
               getSavedOrders (orders_file Claimed.call_in_progress)),
        true)).
Proof.
  apply (order_ids_follow_the_clock true Claimed.call_in_progress
           Claimed.call_missing_address.1 Claimed.call_missing_address.1
           Claimed.call_missing_address.2 Claimed.call_missing_address.2);
    reflexivity.
Defined.

(** X14: an [id] among the arguments of [create_order] replaces the
    generated id in the stored order (the spread comes after [id] in the
    object literal), while [created_at] and [status] cannot be replaced;
    the model is still told the generated id, and when no stored order
    carries that id a status update under it is answered 404. *)
Theorem order_id_comes_from_the_arguments (with_status : bool) (s : session)
    (fc : functionCall) (c : clock) (v : value) :
  fc_name fc = "create_order" -> model s = Live ->
  fc_args fc !! "id" = Some v ->
  exists o : order,
    orders_file (toolCall_iter with_status s (fc, c)) =
      Saved (o :: getSavedOrders (orders_file s)) /\
    o !! "id" = Some v /\
    o !! "created_at" = Some (VStr (now_iso c)) /\
    (with_status = true -> o !! "status" = Some (VStr "created")) /\
    to_model (toolCall_iter with_status s (fc, c)) =
      to_model s ++
      [ToolResponse (fc_id fc) (fc_name fc)
         (result_created ("ord_" +:+ pretty (now_ms c)))] /\
    (v <> VStr ("ord_" +:+ pretty (now_ms c)) ->
     findIndex (id_is ("ord_" +:+ pretty (now_ms c)))
       (getSavedOrders (orders_file s)) = None ->
     forall status : option value,
       post_order_status ("ord_" +:+ pretty (now_ms c)) status
         (orders_file (toolCall_iter with_status s (fc, c))) =
       (orders_file (toolCall_iter with_status s (fc, c)), NotFound404)).
Proof.
  intros Hname Hlive Hid.
  destruct (create_order_saves with_status s fc c Hname Hlive) as [Hfile Hsent].
  exists (newOrder with_status ("ord_" +:+ pretty (now_ms c)) fc c).
  assert (Ho : newOrder with_status ("ord_" +:+ pretty (now_ms c)) fc c !! "id" =
               Some v).
  { rewrite newOrder_lookup, Hid. done. }
  split; [done |]. split; [done |].
  split; [by rewrite newOrder_lookup |].
  split; [intros ->; by rewrite newOrder_lookup |].
  split; [done |].
  intros Hne Hnone status. rewrite Hfile.
  unfold post_order_status, updateOrderStatus. cbn [getSavedOrders findIndex].
  rewrite (id_is_other _ _ v Ho Hne), Hnone. done.
Qed.

Lemma order_id_comes_from_the_arguments_witness :
  exists o : order,
    orders_file
      (toolCall_iter true Claimed.call_in_progress
         ({| fc_id := "call-2"; fc_name := "create_order";
             fc_args := {[ "id" := VNum 7 ]} |},
          {| now_ms := 1700000000000; now_iso := "2023-11-14T22:13:20.000Z" |})) =
      Saved (o :: getSavedOrders (orders_file Claimed.call_in_progress)) /\
    o !! "id" = Some (VNum 7).
Proof.
  assert (Hid : fc_args {| fc_id := "call-2"; fc_name := "create_order";
                           fc_args := {[ "id" := VNum 7 ]} |} !! "id" =
                Some (VNum 7)) by (vm_compute; reflexivity).
  destruct (order_id_comes_from_the_arguments true Claimed.call_in_progress
              {| fc_id := "call-2"; fc_name := "create_order";
                 fc_args := {[ "id" := VNum 7 ]} |}
              {| now_ms := 1700000000000;
                 now_iso := "2023-11-14T22:13:20.000Z" |}
              (VNum 7) eq_refl eq_refl Hid) as (o & Hfile & Ho & _).
  exists o. by split.
Defined.

(** X15: from the tool call to the routes. The order that a
    [create_order] call without [id] argument stores is the first that
    [GET /api/orders] lists, with status "created" and the arguments as
    they came; a [POST /api/orders/:id/status] under the id reported to the
    model is answered 200 and replaces that order's status, nothing
    else. *)
Theorem created_order_is_updated_by_its_reported_id (s : session)
    (fc : functionCall) (c : clock) (status : option value) :
  fc_name fc = "create_order" -> model s = Live ->
  fc_args fc !! "id" = None ->
  exists (orderId : string) (o : order),
    to_model (toolCall_iter true s (fc, c)) =
      to_model s ++
      [ToolResponse (fc_id fc) (fc_name fc) (result_created orderId)] /\
    Routes.get_orders (orders_file (toolCall_iter true s (fc, c))) =
      o :: getSavedOrders (orders_file s) /\
    o !! "id" = Some (VStr orderId) /\
    o !! "status" = Some (VStr "created") /\
    (forall k : string, k <> "id" -> k <> "created_at" -> k <> "status" ->
       o !! k = fc_args fc !! k) /\
    post_order_status orderId status (orders_file (toolCall_iter true s (fc, c))) =
      (Saved (set_status status o :: getSavedOrders (orders_file s)),
       Success200) /\
    set_status status o !! "status" = status /\
    (forall k : string, k <> "status" -> set_status status o !! k = o !! k).
Proof.
  intros Hname Hlive Hid.
  destruct (create_order_saves true s fc c Hname Hlive) as [Hfile Hsent].
  exists ("ord_" +:+ pretty (now_ms c)),
         (newOrder true ("ord_" +:+ pretty (now_ms c)) fc c).
  assert (Ho : newOrder true ("ord_" +:+ pretty (now_ms c)) fc c !! "id" =
               Some (VStr ("ord_" +:+ pretty (now_ms c)))).
  { rewrite newOrder_lookup, Hid. done. }
  split; [done |].
  split; [unfold Routes.get_orders; by rewrite Hfile |].
  split; [done |].
  split; [by rewrite newOrder_lookup |].
  split.
  { intros k K1 K2 K3. rewrite newOrder_lookup.
    by repeat (destruct (decide _); [done |]). }
  split.
  { rewrite Hfile. unfold post_order_status, updateOrderStatus.
    cbn [getSavedOrders findIndex]. rewrite (id_is_generated _ _ Ho). done. }
  split; [apply set_status_lookup |].
  intros k Hk. unfold set_status. destruct status.
  - by rewrite lookup_insert_ne.
  - by rewrite lookup_delete_ne.
Qed.

Lemma created_order_is_updated_by_its_reported_id_witness :
  exists (orderId : string) (o : order),
    Routes.get_orders
      (orders_file
         (toolCall_iter true Claimed.call_in_progress
            (Claimed.call_missing_address.1, Claimed.call_missing_address.2))) =
      o :: getSavedOrders (orders_file Claimed.call_in_progress) /\
    post_order_status orderId (Some (VStr "delivered"))
      (orders_file
         (toolCall_iter true Claimed.call_in_progress
            (Claimed.call_missing_address.1, Claimed.call_missing_address.2))) =
      (Saved (set_status (Some (VStr "delivered")) o ::
              getSavedOrders (orders_file Claimed.call_in_progress)),
       Success200).
Proof.
  assert (Hid : fc_args Claimed.call_missing_address.1 !! "id" = None)
    by (vm_compute; reflexivity).
  destruct (created_order_is_updated_by_its_reported_id
              Claimed.call_in_progress
              Claimed.call_missing_address.1 Claimed.call_missing_address.2
              (Some (VStr "delivered")) eq_refl eq_refl Hid)
    as (orderId & o & _ & Hget & _ & _ & _ & Hpost & _).
  exists orderId, o. by split.
Defined.

(** ** What each handler leaves alone *)

Lemma model_send_frame (m : model_msg) (s : session) :
  streamSid (model_send m s) = streamSid s /\
  ws_open (model_send m s) = ws_open s /\
  model (model_send m s) = model s /\
  to_telephony (model_send m s) = to_telephony s /\
  orders_file (model_send m s) = orders_file s /\
  isSessionOpen (model_send m s) = isSessionOpen s /\
  geminiSession (model_send m s) = geminiSession s /\
  to_model (model_send m s) =
    to_model s ++
    match model s with Connecting | Live => [m] | Absent | Closed => [] end.
Proof.
  unfold model_send. destruct s as [? ? ? ? ? [] ? ? ?]; simpl;
    by rewrite ?app_nil_r.
Qed.

Lemma ws_send_frame (m : tel_msg) (s : session) :
  streamSid (ws_send m s) = streamSid s /\
  ws_open (ws_send m s) = ws_open s /\
  model (ws_send m s) = model s /\
  to_model (ws_send m s) = to_model s /\
  orders_file (ws_send m s) = orders_file s /\
  isSessionOpen (ws_send m s) = isSessionOpen s /\
  geminiSession (ws_send m s) = geminiSession s /\
  to_telephony (ws_send m s) =
    to_telephony s ++ (if ws_open s then [m] else []).
Proof.
  unfold ws_send. destruct s as [? ? ? ? [] ? ? ? ?]; simpl;
    by rewrite ?app_nil_r.
Qed.

Lemma truthy_nonempty (v : option string) (sid : string) :
  truthy v = Some sid -> v = Some sid /\ sid <> "".
Proof.
  unfold truthy. destruct v as [t |]; [| done].
  destruct (String.eqb_spec t "") as [-> | Hne]; [done |].
  intros H. injection H as <-. done.
Qed.

(** The audio and the interruption branch write to telephony only, and
    only under a stream id that is set. *)
Lemma send_audio_frame (data : Buffer) (s : session) :
  streamSid (send_audio data s) = streamSid s /\
  ws_open (send_audio data s) = ws_open s /\
  model (send_audio data s) = model s /\
  to_model (send_audio data s) = to_model s /\
  orders_file (send_audio data s) = orders_file s /\
  isSessionOpen (send_audio data s) = isSessionOpen s /\
  geminiSession (send_audio data s) = geminiSession s /\
  exists more : list tel_msg,
    to_telephony (send_audio data s) = to_telephony s ++ more /\
    Forall (fun m => Some (Wire.tel_streamSid m) = streamSid s /\
                     Wire.tel_streamSid m <> "") more.
Proof.
  unfold send_audio. destruct (truthy (streamSid s)) as [sid |] eqn:Hsid.
  - destruct (truthy_nonempty _ _ Hsid) as [Hs Hne].
    destruct (ws_send_frame
                (TelMedia sid
                   (Codec.encodeUlaw
                      (Resampler.downsample24kTo8k_gain25 (buffer data))))
                s)
      as (-> & -> & -> & -> & -> & -> & -> & ->).
    repeat split; try done. eexists. split; [done |].
    destruct (ws_open s); repeat constructor; done.
  - repeat split; try done. exists []. by rewrite app_nil_r.
Qed.

Lemma send_clear_frame (s : session) :
  streamSid (send_clear s) = streamSid s /\
  ws_open (send_clear s) = ws_open s /\
  model (send_clear s) = model s /\
  to_model (send_clear s) = to_model s /\
  orders_file (send_clear s) = orders_file s /\
  isSessionOpen (send_clear s) = isSessionOpen s /\
  geminiSession (send_clear s) = geminiSession s /\
  exists more : list tel_msg,
    to_telephony (send_clear s) = to_telephony s ++ more /\
    Forall (fun m => Some (Wire.tel_streamSid m) = streamSid s /\
                     Wire.tel_streamSid m <> "") more.
Proof.
  unfold send_clear. destruct (truthy (streamSid s)) as [sid |] eqn:Hsid.
  - destruct (truthy_nonempty _ _ Hsid) as [Hs Hne].
    destruct (ws_send_frame (TelClear sid) s)
      as (-> & -> & -> & -> & -> & -> & -> & ->).
    repeat split; try done. eexists. split; [done |].
    destruct (ws_open s); repeat constructor; done.
  - repeat split; try done. exists []. by rewrite app_nil_r.
Qed.

(** One turn of the dispatch loop: the answer goes to the model, a
    [create_order] call puts one order in front of the stored ones. *)
Lemma toolCall_iter_frame (with_status : bool) (s : session)
    (call : functionCall * clock) :
  to_model (toolCall_iter with_status s call) =
    to_model s ++
    match model s with
    | Connecting | Live => [Wire.answer call]
    | Absent | Closed => []
    end /\
  getSavedOrders (orders_file (toolCall_iter with_status s call)) =
    (if String.eqb (fc_name call.1) "create_order"
     then [newOrder with_status ("ord_" +:+ pretty (now_ms call.2)) call.1 call.2]
     else []) ++ getSavedOrders (orders_file s).
Proof.
  destruct call as [fc c]. unfold toolCall_iter, Wire.answer. simpl.
  destruct (String.eqb (fc_name fc) "create_order").
  - destruct (model_send_frame
                (ToolResponse (fc_id fc) (fc_name fc)
                   (result_created ("ord_" +:+ pretty (now_ms c))))
                (set_orders_file
                   (saveOrderToFile
                      (newOrder with_status ("ord_" +:+ pretty (now_ms c)) fc c)
                      (orders_file s)) s))
      as (_ & _ & _ & _ & -> & _ & _ & ->).
    by destruct s.
  - destruct (model_send_frame
                (ToolResponse (fc_id fc) (fc_name fc) result_success) s)
      as (_ & _ & _ & _ & -> & _ & _ & ->).
    done.
Qed.

Lemma toolCalls_frame (with_status : bool)
    (calls : list (functionCall * clock)) (s : session) :
  model s = Live ->
  to_model (foldl (toolCall_iter with_status) s calls) =
    to_model s ++ map Wire.answer calls /\
  length (getSavedOrders
            (orders_file (foldl (toolCall_iter with_status) s calls))) =
    (length (getSavedOrders (orders_file s)) +
     length (filter (fun call : functionCall * clock =>
                       fc_name call.1 = "create_order") calls))%nat.
Proof.
  revert s. induction calls as [| call calls IH]; intros s Hlive; simpl.
  - by rewrite app_nil_r, Nat.add_0_r.
  - destruct (toolCall_iter_link with_status s call) as (_ & _ & Hm & _).
    destruct (IH (toolCall_iter with_status s call)) as [-> ->];
      [by rewrite Hm |].
    destruct (toolCall_iter_frame with_status s call) as [-> ->].
    rewrite Hlive, <- app_assoc. split; [done |].
    rewrite filter_cons, length_app.
    destruct (String.eqb_spec (fc_name call.1) "create_order") as [E | E].
    + rewrite decide_True by done. simpl. lia.
    + rewrite decide_False by done. simpl. lia.
Qed.

(** X17: every function call of a message gets exactly one answer, in
    the order of the calls and under the call's own id and name, whatever
    else the message carries; the store grows by one order for each
    [create_order] call among them. *)
Theorem every_call_gets_one_answer (with_status : bool) (msg : server_msg)
    (s : session) :
  model s = Live ->
  to_model (onmessage with_status msg s) =
    to_model s ++ map Wire.answer (default [] (toolCall msg)) /\
  length (getSavedOrders (orders_file (onmessage with_status msg s))) =
    (length (getSavedOrders (orders_file s)) +
     length (filter (fun call : functionCall * clock =>
                       fc_name call.1 = "create_order")
               (default [] (toolCall msg))))%nat.
Proof.
  intros Hlive. unfold onmessage.
  set (s1 := match audio msg with
             | Some data => send_audio data s
             | None => s
             end).
  assert (H1 : model s1 = Live /\ to_model s1 = to_model s /\
               orders_file s1 = orders_file s).
  { subst s1. destruct (audio msg) as [data |]; [| done].
    destruct (send_audio_frame data s) as (_ & _ & -> & -> & -> & _). done. }
  destruct H1 as (Hlive1 & Hmodel1 & Hfile1).
  set (s2 := match toolCall msg with
             | Some calls => foldl (toolCall_iter with_status) s1 calls
             | None => s1
             end).
  assert (H2 : to_model s2 =
                 to_model s ++ map Wire.answer (default [] (toolCall msg)) /\
               length (getSavedOrders (orders_file s2)) =
                 (length (getSavedOrders (orders_file s)) +
                  length (filter (fun call : functionCall * clock =>
                                    fc_name call.1 = "create_order")
                            (default [] (toolCall msg))))%nat).
  { subst s2. destruct (toolCall msg) as [calls |]; simpl.
    - destruct (toolCalls_frame with_status calls s1 Hlive1) as [-> ->].
      by rewrite Hmodel1, Hfile1.
    - by rewrite Hmodel1, Hfile1, app_nil_r, Nat.add_0_r. }
  destruct (interrupted msg); [| done].
  destruct (send_clear_frame s2) as (_ & _ & _ & -> & -> & _). done.
Qed.

Lemma every_call_gets_one_answer_witness :
  to_model
    (onmessage true
       {| audio := None;
          toolCall :=
            Some [Claimed.call_missing_address;
                  ({| fc_id := "call-7"; fc_name := "get_weather"; fc_args := ∅ |},
                   {| now_ms := 1700000000001;
                      now_iso := "2023-11-14T22:13:20.001Z" |})];
          interrupted := true |}
       Claimed.call_in_progress) =
  to_model Claimed.call_in_progress ++
  map Wire.answer
    (default []
       (Some [Claimed.call_missing_address;
              ({| fc_id := "call-7"; fc_name := "get_weather"; fc_args := ∅ |},
               {| now_ms := 1700000000001;
                  now_iso := "2023-11-14T22:13:20.001Z" |})])).
Proof.
  apply (every_call_gets_one_answer true
           {| audio := None;
              toolCall :=
                Some [Claimed.call_missing_address;
                      ({| fc_id := "call-7"; fc_name := "get_weather";
                          fc_args := ∅ |},
                       {| now_ms := 1700000000001;
                          now_iso := "2023-11-14T22:13:20.001Z" |})];
              interrupted := true |}
           Claimed.call_in_progress).
  reflexivity.
Defined.

(** The dispatch loop only puts new orders in front of the stored ones,
    and hands the model nothing but answers. *)
Lemma toolCalls_add (with_status : bool)
    (calls : list (functionCall * clock)) (s : session) :
  (exists added : list order,
     getSavedOrders (orders_file (foldl (toolCall_iter with_status) s calls)) =
       added ++ getSavedOrders (orders_file s) /\
     Forall (fun o => is_Some (o !! "created_at") /\
                      (with_status = true ->
                       o !! "status" = Some (VStr "created"))) added) /\
  (exists sent : list model_msg,
     to_model (foldl (toolCall_iter with_status) s calls) = to_model s ++ sent /\
     Forall (fun m => Wire.is_text m = false) sent).
Proof.
  revert s. induction calls as [| call calls IH]; intros s.
  - split; [exists [] | exists []]; simpl; by rewrite ?app_nil_r.
  - simpl. destruct (IH (toolCall_iter with_status s call))
      as [(added & -> & Fa) (sent & -> & Fs)].
    destruct (toolCall_iter_frame with_status s call) as [-> ->].
    split.
    + eexists. rewrite app_assoc. split; [done |].
      apply Forall_app. split; [done |].
      destruct (String.eqb (fc_name call.1) "create_order"); [| constructor].
      repeat constructor.
      * unfold newOrder. destruct with_status.
        -- rewrite lookup_insert_ne by done. rewrite lookup_insert_eq. eauto.
        -- rewrite lookup_insert_eq. eauto.
      * intros ->. unfold newOrder. apply lookup_insert_eq.
    + eexists. rewrite <- app_assoc. split; [done |].
      apply Forall_app. split; [| done].
      destruct (model s); repeat constructor.
Qed.

(** ** What a whole [onmessage] does to the session *)

Lemma onmessage_frame (with_status : bool) (msg : server_msg) (s : session) :
  streamSid (onmessage with_status msg s) = streamSid s /\
  ws_open (onmessage with_status msg s) = ws_open s /\
  model (onmessage with_status msg s) = model s /\
  isSessionOpen (onmessage with_status msg s) = isSessionOpen s /\
  geminiSession (onmessage with_status msg s) = geminiSession s /\
  (exists more : list tel_msg,
     to_telephony (onmessage with_status msg s) = to_telephony s ++ more /\
     Forall (fun m => Some (Wire.tel_streamSid m) = streamSid s /\
                      Wire.tel_streamSid m <> "") more) /\
  (exists added : list order,
     getSavedOrders (orders_file (onmessage with_status msg s)) =
       added ++ getSavedOrders (orders_file s) /\
     Forall (fun o => is_Some (o !! "created_at") /\
                      (with_status = true ->
                       o !! "status" = Some (VStr "created"))) added) /\
  (exists sent : list model_msg,
     to_model (onmessage with_status msg s) = to_model s ++ sent /\
     Forall (fun m => Wire.is_text m = false) sent).
Proof.
  unfold onmessage.
  set (s1 := match audio msg with
             | Some data => send_audio data s
             | None => s
             end).
  assert (H1 : streamSid s1 = streamSid s /\ ws_open s1 = ws_open s /\
               model s1 = model s /\ isSessionOpen s1 = isSessionOpen s /\
               geminiSession s1 = geminiSession s /\
               to_model s1 = to_model s /\ orders_file s1 = orders_file s /\
               exists more : list tel_msg,
                 to_telephony s1 = to_telephony s ++ more /\
                 Forall (fun m => Some (Wire.tel_streamSid m) = streamSid s /\
                                  Wire.tel_streamSid m <> "") more).
  { subst s1. destruct (audio msg) as [data |].
    - destruct (send_audio_frame data s)
        as (-> & -> & -> & -> & -> & -> & -> & Hmore). done.
    - repeat split; try done. exists []. by rewrite app_nil_r. }
  destruct H1 as (Sid1 & Ws1 & Mo1 & Iso1 & Gs1 & Tm1 & Of1 & more1 & Tt1 & Fa1).
  set (s2 := match toolCall msg with
             | Some calls => foldl (toolCall_iter with_status) s1 calls
             | None => s1
             end).
  assert (H2 : streamSid s2 = streamSid s1 /\ ws_open s2 = ws_open s1 /\
               model s2 = model s1 /\ isSessionOpen s2 = isSessionOpen s1 /\
               geminiSession s2 = geminiSession s1 /\
               to_telephony s2 = to_telephony s1 /\
               (exists added : list order,
                  getSavedOrders (orders_file s2) =
                    added ++ getSavedOrders (orders_file s1) /\
                  Forall (fun o => is_Some (o !! "created_at") /\
                                   (with_status = true ->
                                    o !! "status" = Some (VStr "created"))) added) /\
               (exists sent : list model_msg,
                  to_model s2 = to_model s1 ++ sent /\
                  Forall (fun m => Wire.is_text m = false) sent)).
  { subst s2. destruct (toolCall msg) as [calls |].
    - destruct (toolCalls_link with_status calls s1)
        as (-> & -> & -> & -> & -> & ->).
      do 6 (split; [done |]).
      apply toolCalls_add.
    - do 6 (split; [done |]).
      split; [exists [] | exists []]; simpl; by rewrite ?app_nil_r. }
  destruct H2 as (Sid2 & Ws2 & Mo2 & Iso2 & Gs2 & Tt2 & (added & Of2 & Fa2) &
                  (sent & Tm2 & Fs2)).
  destruct (interrupted msg).
  - destruct (send_clear_frame s2)
      as (-> & -> & -> & -> & -> & -> & -> & more2 & -> & Fa3).
    rewrite Sid2, Sid1, Ws2, Ws1, Mo2, Mo1, Iso2, Iso1, Gs2, Gs1.
    do 5 (split; [done |]).
    split; [| split].
    + exists (more1 ++ more2). rewrite Tt2, Tt1, app_assoc. split; [done |].
      apply Forall_app. split; [done |].
      by rewrite Sid2, Sid1 in Fa3.
    + exists added. by rewrite Of2, Of1.
    + exists sent. by rewrite Tm2, Tm1.
  - rewrite Sid2, Sid1, Ws2, Ws1, Mo2, Mo1, Iso2, Iso1, Gs2, Gs1.
    do 5 (split; [done |]).
    split; [| split].
    + exists more1. by rewrite Tt2, Tt1.
    + exists added. by rewrite Of2, Of1.
    + exists sent. by rewrite Tm2, Tm1.
Qed.

(** ** One event of either revision *)

Lemma forward_media_frame (payload : list Z) (s : session) :
  streamSid (forward_media payload s) = streamSid s /\
  ws_open (forward_media payload s) = ws_open s /\
  model (forward_media payload s) = model s /\
  to_telephony (forward_media payload s) = to_telephony s /\
  orders_file (forward_media payload s) = orders_file s /\
  isSessionOpen (forward_media payload s) = isSessionOpen s /\
  geminiSession (forward_media payload s) = geminiSession s /\
  to_model (forward_media payload s) =
    to_model s ++
    (if isSessionOpen s && geminiSession s then
       match model s with
       | Connecting | Live =>
           [RealtimeAudio (Resampler.upsample8kTo16k (Codec.decodeUlaw payload))]
       | Absent | Closed => []
       end
     else []).
Proof.
  unfold forward_media. destruct (isSessionOpen s && geminiSession s).
  - apply model_send_frame.
  - by rewrite app_nil_r.
Qed.

(** What an event does to the stream id, the telephony outbox, the stored
    orders and the model inbox, in the second revision. *)
Lemma V2_step_frame (s : session) (e : event) :
  streamSid (V2.step s e) =
    match e with Tel (TStart sid _) => sid | _ => streamSid s end /\
  (exists more : list tel_msg,
     to_telephony (V2.step s e) = to_telephony s ++ more /\
     Forall (fun m => Some (Wire.tel_streamSid m) = streamSid s /\
                      Wire.tel_streamSid m <> "") more) /\
  (exists added : list order,
     getSavedOrders (orders_file (V2.step s e)) =
       added ++ getSavedOrders (orders_file s) /\
     Forall (fun o => is_Some (o !! "created_at") /\
                      o !! "status" = Some (VStr "created")) added) /\
  (exists sent : list model_msg,
     to_model (V2.step s e) = to_model s ++ sent /\
     Forall (fun m => Wire.is_text m = false) sent).
Proof.
  assert (Hnone : forall s' : session,
            streamSid s' = streamSid s -> to_telephony s' = to_telephony s ->
            orders_file s' = orders_file s -> to_model s' = to_model s ->
            streamSid s' = streamSid s /\
            (exists more : list tel_msg,
               to_telephony s' = to_telephony s ++ more /\
               Forall (fun m => Some (Wire.tel_streamSid m) = streamSid s /\
                                Wire.tel_streamSid m <> "") more) /\
            (exists added : list order,
               getSavedOrders (orders_file s') =
                 added ++ getSavedOrders (orders_file s) /\
               Forall (fun o => is_Some (o !! "created_at") /\
                                o !! "status" = Some (VStr "created")) added) /\
            (exists sent : list model_msg,
               to_model s' = to_model s ++ sent /\
               Forall (fun m => Wire.is_text m = false) sent)).
  { intros s' -> -> -> ->. split; [done |].
    split; [| split]; exists []; by rewrite ?app_nil_r. }
  destruct e as [[sid caller | payload |] | [| msg | |] |];
    unfold V2.step, V2.on_ws_message, V2.on_model.
  - split; [by destruct s |].
    split; [| split]; exists []; rewrite ?app_nil_r; by destruct s.
  - destruct (forward_media_frame payload s)
      as (-> & _ & _ & -> & -> & _ & _ & ->).
    split; [done |].
    split; [exists []; by rewrite ?app_nil_r |].
    split; [exists []; by rewrite ?app_nil_r |].
    eexists. split; [done |].
    destruct (isSessionOpen s && geminiSession s); [| constructor].
    destruct (model s); repeat constructor.
  - destruct (geminiSession s); [| by apply Hnone].
    apply Hnone; by destruct s.
  - apply Hnone; by destruct s.
  - destruct (onmessage_frame true msg s)
      as (-> & _ & _ & _ & _ & Htel & (added & Hadd & Fadd) & Hsent).
    split; [done |]. split; [done |]. split; [| done].
    exists added. split; [done |].
    eapply Forall_impl; [exact Fadd |]. simpl. intros o [? Hs]. split; auto.
  - apply Hnone; by destruct s.
  - by apply Hnone.
  - apply Hnone; by destruct s.
Qed.

(** The same for the first revision, whose orders carry no status and
    whose [onopen] sends a text prompt. *)
Lemma V1_step_frame (s : session) (e : event) :
  streamSid (V1.step s e) =
    match e with Tel (TStart sid _) => sid | _ => streamSid s end /\
  (exists more : list tel_msg,
     to_telephony (V1.step s e) = to_telephony s ++ more /\
     Forall (fun m => Some (Wire.tel_streamSid m) = streamSid s /\
                      Wire.tel_streamSid m <> "") more) /\
  (exists added : list order,
     getSavedOrders (orders_file (V1.step s e)) =
       added ++ getSavedOrders (orders_file s) /\
     Forall (fun o => is_Some (o !! "created_at")) added).
Proof.
  assert (Hnone : forall s' : session,
            streamSid s' = streamSid s -> to_telephony s' = to_telephony s ->
            orders_file s' = orders_file s ->
            streamSid s' = streamSid s /\
            (exists more : list tel_msg,
               to_telephony s' = to_telephony s ++ more /\
               Forall (fun m => Some (Wire.tel_streamSid m) = streamSid s /\
                                Wire.tel_streamSid m <> "") more) /\
            (exists added : list order,
               getSavedOrders (orders_file s') =
                 added ++ getSavedOrders (orders_file s) /\
               Forall (fun o => is_Some (o !! "created_at")) added)).
  { intros s' -> -> ->. split; [done |].
    split; exists []; by rewrite ?app_nil_r. }
  destruct e as [[sid caller | payload |] | [| msg | |] |];
    unfold V1.step, V1.on_ws_message, V1.on_model.
  - split; [by destruct s |].
    split; exists []; rewrite ?app_nil_r; by destruct s.
  - destruct (forward_media_frame payload s)
      as (Hs & _ & _ & Ht & Ho & _). by apply Hnone.
  - apply Hnone; by destruct s.
  - unfold V1.onopen.
    destruct (model_send_frame
                (RealtimeText "Say 'Hello! How can I help you order today?'")
                (set_isSessionOpen true (set_model Live s)))
      as (Hs & _ & _ & Ht & Ho & _).
    apply Hnone; [rewrite Hs | rewrite Ht | rewrite Ho]; by destruct s.
  - destruct (onmessage_frame false msg s)
      as (-> & _ & _ & _ & _ & Htel & (added & Hadd & Fadd) & _).
    split; [done |]. split; [done |].
    exists added. split; [done |].
    eapply Forall_impl; [exact Fadd |]. simpl. by intros o [? _].
  - apply Hnone; by destruct s.
  - by apply Hnone.
  - apply Hnone; by destruct s.
Qed.

(** ** Runs of events *)


(** A run keeps every telephony message under a stream id that a [start]
    event announced. *)
Lemma run_names_the_stream (step : session -> event -> session)
    (events : list event) (s : session) (seen : list string) :
  (forall s e,
     streamSid (step s e) =
       match e with Tel (TStart sid _) => sid | _ => streamSid s end /\
     exists more : list tel_msg,
       to_telephony (step s e) = to_telephony s ++ more /\
       Forall (fun m => Some (Wire.tel_streamSid m) = streamSid s /\
                        Wire.tel_streamSid m <> "") more) ->
  (forall sid, streamSid s = Some sid -> sid ∈ seen) ->
  Forall (fun m => Wire.tel_streamSid m <> "" /\ Wire.tel_streamSid m ∈ seen)
    (to_telephony s) ->
  Forall (fun m => Wire.tel_streamSid m <> "" /\
                   Wire.tel_streamSid m ∈ seen ++ Wire.announced events)
    (to_telephony (foldl step s events)).
Proof.
  intros Hstep. revert s seen.
  induction events as [| e events IH]; intros s seen Hsid Hout; cbn [foldl].
  - unfold Wire.announced. simpl. by rewrite app_nil_r.
  - destruct (Hstep s e) as (Hsid' & more & Hmore & Fmore).
    assert (Hcons : seen ++ Wire.announced (e :: events) =
                    (seen ++ Wire.announced [e]) ++ Wire.announced events).
    { unfold Wire.announced.
      change (e :: events) with ([e] ++ events).
      by rewrite omap_app, app_assoc. }
    rewrite Hcons. apply IH.
    + intros sid. rewrite Hsid'.
      destruct e as [[[sid0 |] caller | payload |] | m |]; simpl; intros H;
        try (apply elem_of_app; left; by apply Hsid).
      injection H as ->. apply elem_of_app. right. by left.
    + rewrite Hmore. apply Forall_app. split.
      * eapply Forall_impl; [exact Hout |]. simpl. intros m [? ?].
        split; [done |]. apply elem_of_app. by left.
      * eapply Forall_impl; [exact Fmore |]. simpl. intros m [Hm ?].
        split; [done |]. apply elem_of_app. left. apply Hsid. by symmetry.
Qed.

(** X18: every message that a session writes to the telephony socket
    carries a stream id that is not empty and that a [start] event of the
    session announced; a session that has seen no such event has written
    nothing. *)
Theorem telephony_messages_name_an_announced_stream (events : list event)
    (f : file) :
  Forall (fun m => Wire.tel_streamSid m <> "" /\
                   Wire.tel_streamSid m ∈ Wire.announced events)
    (to_telephony (foldl V1.step (set_orders_file f V1.connection) events)) /\
  Forall (fun m => Wire.tel_streamSid m <> "" /\
                   Wire.tel_streamSid m ∈ Wire.announced events)
    (to_telephony (foldl V2.step (set_orders_file f V2.connection) events)) /\
  (Wire.announced events = [] ->
   to_telephony (foldl V1.step (set_orders_file f V1.connection) events) = [] /\
   to_telephony (foldl V2.step (set_orders_file f V2.connection) events) = []).
Proof.
  assert (H1 : Forall (fun m => Wire.tel_streamSid m <> "" /\
                                Wire.tel_streamSid m ∈ Wire.announced events)
                 (to_telephony
                    (foldl V1.step (set_orders_file f V1.connection) events))).
  { apply (run_names_the_stream V1.step events _ []); [| done | constructor].
    intros s e. destruct (V1_step_frame s e) as (? & ? & _). done. }
  assert (H2 : Forall (fun m => Wire.tel_streamSid m <> "" /\
                                Wire.tel_streamSid m ∈ Wire.announced events)
                 (to_telephony
                    (foldl V2.step (set_orders_file f V2.connection) events))).
  { apply (run_names_the_stream V2.step events _ []); [| done | constructor].
    intros s e. destruct (V2_step_frame s e) as (? & ? & _). done. }
  split; [done |]. split; [done |].
  intros Hnone. rewrite Hnone in H1, H2.
  split.
  - destruct (to_telephony (foldl V1.step _ events)) as [| m l]; [done |].
    apply Forall_cons in H1 as [[_ H] _]. by apply elem_of_nil in H.
  - destruct (to_telephony (foldl V2.step _ events)) as [| m l]; [done |].
    apply Forall_cons in H2 as [[_ H] _]. by apply elem_of_nil in H.
Qed.

(** X19: the second revision is idle until [start] arrives: as long as no
    model session has been requested, nothing has been sent to the model or
    to telephony, the order file is as it was and no stream id is set;
    media frames and [stop] events that come first are dropped. *)
Theorem second_revision_is_idle_until_start (f : file) (s : session) :
  reachable (set_orders_file f V2.connection) V2.step s ->
  model s = Absent ->
  to_model s = [] /\ to_telephony s = [] /\ orders_file s = f /\
  streamSid s = None /\ isSessionOpen s = false.
Proof.
  intros Hreach.
  enough (Hinv : model s = Absent ->
                 to_model s = [] /\ to_telephony s = [] /\ orders_file s = f /\
                 streamSid s = None /\ isSessionOpen s = false /\
                 geminiSession s = false).
  { intros Hm. destruct (Hinv Hm) as (? & ? & ? & ? & ? & _). done. }
  induction Hreach as [| s e _ IH Hdeliv]; [done |].
  destruct e as [[sid caller | payload |] | [| msg | |] |];
    cbn [deliverable] in Hdeliv;
    cbn [V2.step V2.on_ws_message V2.on_model V2.onopen V2.onclose
         V2.startGeminiSession].
  - done.
  - destruct (forward_media_frame payload s)
      as (_ & _ & Hm & _ & _ & _ & _ & _).
    rewrite Hm. intros Habs. destruct (IH Habs) as (? & ? & ? & ? & Hiso & Hgs).
    unfold forward_media. by rewrite Hiso, Hgs.
  - destruct (geminiSession s) eqn:Hgs.
    + intros Hm. assert (Hm' : model s = Absent) by (by destruct s).
      by destruct (IH Hm') as (_ & _ & _ & _ & _ & ?).
    + intros Hm. by destruct (IH Hm) as (? & ? & ? & ? & ? & _).
  - done.
  - destruct (onmessage_frame true msg s) as (_ & _ & Hm & _).
    unfold V2.step, V2.on_model. rewrite Hm.
    destruct (model s); done.
  - done.
  - destruct (model s); done.
  - intros Hm. assert (Hm' : model s = Absent) by (by destruct s).
    destruct (IH Hm') as (? & ? & ? & ? & ? & ?). by destruct s.
Qed.

Lemma second_revision_is_idle_until_start_witness :
  to_model (foldl V2.step V2.connection [Tel (TMedia [255; 255]); Tel TStop]) = [] /\
  to_telephony (foldl V2.step V2.connection [Tel (TMedia [255; 255]); Tel TStop]) = [] /\
  orders_file (foldl V2.step V2.connection [Tel (TMedia [255; 255]); Tel TStop]) =
    NoFile /\
  streamSid (foldl V2.step V2.connection [Tel (TMedia [255; 255]); Tel TStop]) =
    None /\
  isSessionOpen (foldl V2.step V2.connection [Tel (TMedia [255; 255]); Tel TStop]) =
    false.
Proof.
  apply (second_revision_is_idle_until_start NoFile); [| reflexivity].
  cbn [foldl].
  apply reach_step; [apply reach_step |]; [apply reach_init | reflexivity ..].
Defined.

(** X20: in the first revision the greeting prompt is the first thing the
    model receives: nothing is sent while the session is connecting, the
    inbox of a live session is never empty and starts with the prompt, and
    [isSessionOpen] is set exactly while the session is live. *)
Theorem greeting_is_the_first_prompt (f : file) (s : session) :
  reachable (set_orders_file f V1.connection) V1.step s ->
  (forall m : model_msg, head (to_model s) = Some m ->
     m = RealtimeText "Say 'Hello! How can I help you order today?'") /\
  (model s = Connecting -> to_model s = []) /\
  (model s = Live -> to_model s <> []) /\
  (isSessionOpen s = true <-> model s = Live).
Proof.
  intros Hreach.
  induction Hreach as [| s e _ IH Hdeliv].
  { repeat split; try done. }
  destruct IH as (Hhead & Hconn & Hlive & Hopen).
  assert (Hgrow : forall (s' : session) (sent : list model_msg),
            to_model s' = to_model s ++ sent -> to_model s <> [] ->
            forall m : model_msg, head (to_model s') = Some m ->
              m = RealtimeText "Say 'Hello! How can I help you order today?'").
  { intros s' sent -> Hne m. destruct (to_model s) as [| m0 l]; [done |].
    simpl. intros H. apply Hhead. done. }
  destruct e as [[sid caller | payload |] | [| msg | |] |]; simpl in *.
  - by destruct s.
  - destruct (forward_media_frame payload s)
      as (_ & _ & -> & _ & _ & -> & _ & Hsent).
    split; [| split; [| split; [| done]]].
    + destruct (isSessionOpen s && geminiSession s) eqn:Hboth.
      * apply andb_prop in Hboth as [Hiso _].
        eapply Hgrow; [exact Hsent |]. apply Hlive. by apply Hopen.
      * rewrite Hsent, app_nil_r. exact Hhead.
    + intros Hc. rewrite Hsent, (Hconn Hc).
      destruct (isSessionOpen s) eqn:Hiso; [| done].
      destruct Hopen as [Hopen _]. rewrite Hopen in Hc; done.
    + intros Hl. rewrite Hsent. intros Habs.
      apply app_eq_nil in Habs as [Habs _]. by apply Hlive.
  - by destruct s.
  - assert (Hc : model s = Connecting) by (by destruct (model s)).
    rewrite (Hconn Hc). simpl.
    repeat split; try done. intros m H. by injection H as <-.
  - destruct (onmessage_frame false msg s)
      as (_ & _ & -> & -> & _ & _ & _ & sent & Hsent & _).
    assert (Hl : model s = Live) by (by destruct (model s)).
    split; [| split; [| split; [| done]]].
    + eapply Hgrow; [exact Hsent |]. by apply Hlive.
    + by rewrite Hl.
    + intros _. rewrite Hsent. intros Habs.
      apply app_eq_nil in Habs as [Habs _]. by apply Hlive.
  - repeat split; try done.
  - done.
  - by destruct s.
Qed.

Lemma greeting_is_the_first_prompt_witness :
  head (to_model (foldl V1.step V1.connection
                    [Mod MOpen; Tel (TMedia [255; 255])])) =
    Some (RealtimeText "Say 'Hello! How can I help you order today?'") /\
  (isSessionOpen (foldl V1.step V1.connection
                    [Mod MOpen; Tel (TMedia [255; 255])]) = true <->
   model (foldl V1.step V1.connection
            [Mod MOpen; Tel (TMedia [255; 255])]) = Live).
Proof.
  assert (Hreach : reachable (set_orders_file NoFile V1.connection) V1.step
                     (foldl V1.step V1.connection
                        [Mod MOpen; Tel (TMedia [255; 255])])).
  { cbn [foldl].
    apply reach_step; [apply reach_step |]; [apply reach_init | reflexivity ..]. }
  destruct (greeting_is_the_first_prompt NoFile _ Hreach)
    as (Hhead & _ & _ & Hopen).
  split; [| exact Hopen].
  destruct (head (to_model (foldl V1.step V1.connection
                              [Mod MOpen; Tel (TMedia [255; 255])])))
    as [m |] eqn:E.
  - f_equal. by apply Hhead.
  - vm_compute in E. discriminate E.
Defined.

(** ** The two audio paths through the relay *)

(** X21: a telephony media frame. While the model session is not open the
    frame is dropped and the session is as before; in an open session the
    model receives one audio chunk of twice as many samples as the frame
    has bytes, all within -32124..32124, whose even slots are the decoded
    bytes; telephony and the order file are not touched. *)
Theorem media_frame_reaches_the_model (payload : list Z) (s : session) :
  (isSessionOpen s && geminiSession s = false -> forward_media payload s = s) /\
  (isSessionOpen s = true -> geminiSession s = true -> model s = Live ->
   exists pcm16k : list Z,
     to_model (forward_media payload s) = to_model s ++ [RealtimeAudio pcm16k] /\
     length pcm16k = (2 * length payload)%nat /\
     Forall (fun y => -32124 <= y <= 32124) pcm16k /\
     (forall (i : nat) (b : Z),
        payload !! i = Some b -> 0 <= b < 256 ->
        pcm16k !! (2 * i)%nat = Some (Codec.ulawToLinear_entry b)) /\
     to_telephony (forward_media payload s) = to_telephony s /\
     orders_file (forward_media payload s) = orders_file s).
Proof.
  split.
  - intros Hclosed. unfold forward_media. by rewrite Hclosed.
  - intros Hiso Hgs Hlive.
    destruct (forward_media_frame payload s)
      as (_ & _ & _ & Htel & Hfile & _ & _ & Hsent).
    rewrite Hiso, Hgs, Hlive in Hsent. simpl in Hsent.
    eexists. split; [exact Hsent |].
    pose proof (decodeUlaw_bounds payload) as Hdec.
    assert (Hrange : Forall is_int16 (Codec.decodeUlaw payload)).
    { eapply Forall_impl; [exact Hdec |]. unfold is_int16. simpl. lia. }
    split; [| split; [| split; [| done]]].
    + unfold Resampler.upsample8kTo16k, Codec.decodeUlaw.
      by rewrite upsample_loop_length, length_map.
    + by apply upsample_in_range.
    + intros i b Hi Hb.
      pose proof (decodeUlaw_lookup payload i b Hb Hi) as Hd.
      by destruct (upsample_slot _ i _ Hrange Hd) as [-> _].
Qed.

(** X22: the second revision never prompts the model with text: what it
    hands to the model session is caller audio and answers to function
    calls only. *)
Theorem second_revision_sends_no_text (events : list event) (s : session) :
  Forall (fun m => Wire.is_text m = false) (to_model s) ->
  Forall (fun m => Wire.is_text m = false) (to_model (foldl V2.step s events)).
Proof.
  revert s. induction events as [| e events IH]; intros s Hs; simpl; [done |].
  apply IH. destruct (V2_step_frame s e) as (_ & _ & _ & sent & -> & Fs).
  by apply Forall_app.
Qed.

Lemma second_revision_sends_no_text_witness :
  Forall (fun m => Wire.is_text m = false)
    (to_model (foldl V2.step V2.connection
                 [Tel (TStart (Some "MZ1") None); Mod MOpen;
                  Tel (TMedia [255; 127])])).
Proof.
  apply (second_revision_sends_no_text
           [Tel (TStart (Some "MZ1") None); Mod MOpen; Tel (TMedia [255; 127])]
           V2.connection).
  constructor.
Defined.

(** Whatever the input, the revision with gain 2.5 returns 16-bit samples. *)
Lemma gain25_output_range (pcm24k : list Z) :
  Forall is_int16 (Resampler.downsample24kTo8k_gain25 pcm24k).
Proof.
  apply Forall_lookup. intros i y Hy.
  assert (Hi : (i < length pcm24k / 3)%nat).
  { apply lookup_lt_Some in Hy.
    unfold Resampler.downsample24kTo8k_gain25 in Hy.
    by rewrite downsample_loop_length in Hy. }
  destruct (downsample_loop_slot Resampler.tap_gain25 pcm24k i Hi)
    as (a & b & c & _ & _ & _ & Hout).
  unfold Resampler.downsample24kTo8k_gain25 in Hy. rewrite Hout in Hy.
  injection Hy as <-. rewrite tap_gain25_parts. apply float_to_int16_range.
Qed.

(** The encoder never emits one of the two codes of silence. *)
Lemma encoder_never_silent (s : Z) :
  is_int16 s ->
  Codec.linearToUlaw_entry s <> 255 /\ Codec.linearToUlaw_entry s <> 127.
Proof.
  intros Hs.
  pose (p := fun s : Z =>
              negb (Codec.linearToUlaw_entry s =? 255) &&
              negb (Codec.linearToUlaw_entry s =? 127)).
  assert (Hp : p s = true).
  { apply all_int16; [vm_compute; reflexivity | done]. }
  apply andb_prop in Hp as [H1 H2].
  apply negb_true_iff in H1, H2. apply Z.eqb_neq in H1, H2. done.
Qed.

(** X24: audio of the model. The audio branch takes its samples from the
    whole [ArrayBuffer] behind the decoded chunk, not from the chunk's
    window. Without a stream id the audio is dropped. With one (and the
    socket open) telephony receives one media message under that id; its
    payload is the same for every chunk that lies in the same
    [ArrayBuffer], has a third as many bytes as that [ArrayBuffer] has
    16-bit samples (rounded down), which are 1365 bytes for a chunk cut
    from the pool of 8192 bytes, and is the downsampled and encoded chunk
    for a chunk that spans its [ArrayBuffer]. No byte of it is one of the
    silence codes 255 and 127. The model inbox and the order file are not
    touched. *)
Theorem model_audio_reaches_telephony (data : Buffer) (s : session) :
  (truthy (streamSid s) = None -> send_audio data s = s) /\
  (forall data' : Buffer,
     buffer data' = buffer data -> send_audio data' s = send_audio data s) /\
  (forall sid : string,
     truthy (streamSid s) = Some sid -> ws_open s = true ->
     exists payload : list Z,
       to_telephony (send_audio data s) =
         to_telephony s ++ [TelMedia sid payload] /\
       length payload = (length (buffer data) / 3)%nat /\
       (length (buffer data) = 4096%nat -> length payload = 1365%nat) /\
       (byteOffset data = 0%nat ->
        byteLength data = (2 * length (buffer data))%nat ->
        payload =
          Codec.encodeUlaw
            (Resampler.downsample24kTo8k_gain25 (chunk_samples data)) /\
        length payload = (length (chunk_samples data) / 3)%nat) /\
       Forall (fun b => 0 <= b < 256 /\ b <> 255 /\ b <> 127) payload /\
       to_model (send_audio data s) = to_model s /\
       orders_file (send_audio data s) = orders_file s).
Proof.
  split; [| split].
  - intros Hnone. unfold send_audio. by rewrite Hnone.
  - intros data' Hsame. unfold send_audio. by rewrite Hsame.
  - intros sid Hsid Hopen.
    destruct (send_audio_streaming data s sid Hsid Hopen) as (_ & _ & Hout).
    destruct (send_audio_frame data s) as (_ & _ & _ & Hmodel & Hfile & _).
    assert (Hlen : length (Codec.encodeUlaw
                             (Resampler.downsample24kTo8k_gain25 (buffer data))) =
                   (length (buffer data) / 3)%nat).
    { unfold Codec.encodeUlaw. rewrite length_map. apply downsample_loop_length. }
    eexists. split; [exact Hout |].
    split; [exact Hlen |].
    split; [intros H4096; by rewrite Hlen, H4096 |].
    split; [| split; [| done]].
    + intros Hoff Hspan.
      assert (Hchunk : chunk_samples data = buffer data).
      { unfold chunk_samples. rewrite Hoff, Hspan. simpl (0 / 2)%nat.
        rewrite drop_0, Nat.mul_comm, Nat.div_mul by lia.
        by rewrite firstn_all. }
      by rewrite Hchunk.
    + apply Forall_lookup. intros i b Hb.
      unfold Codec.encodeUlaw in Hb. rewrite list_lookup_fmap in Hb.
      destruct (Resampler.downsample24kTo8k_gain25 (buffer data) !! i)
        as [y |] eqn:Hy; [| done].
      assert (Iy : is_int16 y).
      { pose proof (gain25_output_range (buffer data)) as Hall.
        rewrite Forall_lookup in Hall. eauto. }
      simpl in Hb. rewrite (linearToUlaw_get y Iy) in Hb. simpl in Hb.
      injection Hb as <-.
      pose proof (linearToUlaw_entry_range y) as Hr.
      unfold wrap_uint8. rewrite Z.mod_small by done.
      split; [done |]. by apply encoder_never_silent.
Qed.

Lemma model_audio_reaches_telephony_witness :
  exists payload : list Z,
    to_telephony
      (send_audio {| buffer := replicate 4096 0; byteOffset := 4088;
                     byteLength := 6 |}
         Claimed.call_in_progress) =
      to_telephony Claimed.call_in_progress ++ [TelMedia "MZ1" payload] /\
    length payload = 1365%nat.
Proof.
  destruct (model_audio_reaches_telephony
              {| buffer := replicate 4096 0; byteOffset := 4088;
                 byteLength := 6 |}
              Claimed.call_in_progress) as (_ & _ & Hsent).
  destruct (Hsent "MZ1" eq_refl eq_refl)
    as (payload & Hout & _ & Hpool & _).
  exists payload. split; [exact Hout |].
  apply Hpool. cbn [buffer]. apply length_replicate.
Defined.

(** ** Closing, first revision *)

Lemma model_send_close_requested (m : model_msg) (s : session) :
  close_requested (model_send m s) = close_requested s.
Proof. unfold model_send. by destruct s as [? ? ? ? ? []]. Qed.

Lemma ws_send_close_requested (m : tel_msg) (s : session) :
  close_requested (ws_send m s) = close_requested s.
Proof. unfold ws_send. by destruct s as [? ? ? ? []]. Qed.

Lemma toolCalls_close_requested (with_status : bool)
    (calls : list (functionCall * clock)) (s : session) :
  close_requested (foldl (toolCall_iter with_status) s calls) =
  close_requested s.
Proof.
  revert s. induction calls as [| [fc c] calls IH]; intros s; simpl; [done |].
  rewrite IH. unfold toolCall_iter.
  destruct (String.eqb (fc_name fc) "create_order");
    rewrite model_send_close_requested; by destruct s.
Qed.

(** Neither audio path, nor a tool call, nor an interruption asks the
    model session to close. *)
Lemma onmessage_close_requested (with_status : bool) (msg : server_msg)
    (s : session) :
  close_requested (onmessage with_status msg s) = close_requested s.
Proof.
  unfold onmessage.
  set (s1 := match audio msg with
             | Some data => send_audio data s
             | None => s
             end).
  assert (H1 : close_requested s1 = close_requested s).
  { subst s1. destruct (audio msg) as [data |]; [| done].
    unfold send_audio. destruct (truthy (streamSid s)); [| done].
    apply ws_send_close_requested. }
  set (s2 := match toolCall msg with
             | Some calls => foldl (toolCall_iter with_status) s1 calls
             | None => s1
             end).
  assert (H2 : close_requested s2 = close_requested s).
  { subst s2. destruct (toolCall msg) as [calls |]; [| done].
    by rewrite toolCalls_close_requested. }
  destruct (interrupted msg); [| done].
  unfold send_clear. destruct (truthy (streamSid s2)); [| done].
  by rewrite ws_send_close_requested.
Qed.

Lemma forward_media_close_requested (payload : list Z) (s : session) :
  close_requested (forward_media payload s) = close_requested s.
Proof.
  unfold forward_media. destruct (isSessionOpen s && geminiSession s); [| done].
  apply model_send_close_requested.
Qed.

(** In the first revision only a [stop] message asks the model session to
    close. *)
Lemma V1_step_close_requested (s : session) (e : event) :
  close_requested (V1.step s e) =
  match e with Tel TStop => true | _ => close_requested s end.
Proof.
  destruct e as [[sid caller | payload |] | [| msg | |] |];
    cbn [V1.step V1.on_ws_message V1.on_model].
  - by destruct s.
  - apply forward_media_close_requested.
  - done.
  - unfold V1.onopen. rewrite model_send_close_requested. by destruct s.
  - apply onmessage_close_requested.
  - by destruct s.
  - done.
  - by destruct s.
Qed.

Lemma V1_run_close_requested (events : list event) (s : session) :
  close_requested (foldl V1.step s events) = true <->
  close_requested s = true \/ Tel TStop ∈ events.
Proof.
  revert s. induction events as [| e events IH]; intros s; cbn [foldl].
  - split; [by left |]. intros [H | H]; [done |]. by apply elem_of_nil in H.
  - rewrite IH, V1_step_close_requested. rewrite elem_of_cons. split.
    + intros [H | H]; [| by right; right].
      destruct e as [[sid caller | payload |] | m |]; try (by left).
      right. by left.
    + intros [H | [<- | H]]; [| by left | by right].
      left. by destruct e as [[sid caller | payload |] | m |].
Qed.

(** X25: closing in the first revision. The two connections go down
    together when the model session ends: in every state a session can
    reach with the model session closed, the telephony socket is closed and
    [isSessionOpen] is false, so a media frame that still comes is dropped;
    [onclose] itself sends nothing and leaves the order file alone. A
    [stop] message closes nothing by itself: it asks the model session to
    close and leaves the socket, [isSessionOpen], both outboxes and the
    order file as they were. Nothing but a [stop] message asks for that
    close: when the telephony socket closes from the far end, the model
    session is left as it was. *)
Theorem first_revision_closes_both_sides (f : file) (s : session) :
  reachable (set_orders_file f V1.connection) V1.step s ->
  (model s = Closed ->
   ws_open s = false /\ isSessionOpen s = false /\
   forall payload : list Z, forward_media payload s = s) /\
  (ws_open (V1.step s (Mod MClose)) = false /\
   model (V1.step s (Mod MClose)) = Closed /\
   isSessionOpen (V1.step s (Mod MClose)) = false /\
   to_model (V1.step s (Mod MClose)) = to_model s /\
   to_telephony (V1.step s (Mod MClose)) = to_telephony s /\
   orders_file (V1.step s (Mod MClose)) = orders_file s) /\
  (close_requested (V1.step s (Tel TStop)) = true /\
   ws_open (V1.step s (Tel TStop)) = ws_open s /\
   model (V1.step s (Tel TStop)) = model s /\
   isSessionOpen (V1.step s (Tel TStop)) = isSessionOpen s /\
   to_model (V1.step s (Tel TStop)) = to_model s /\
   to_telephony (V1.step s (Tel TStop)) = to_telephony s /\
   orders_file (V1.step s (Tel TStop)) = orders_file s) /\
  (ws_open (V1.step s TelClose) = false /\
   model (V1.step s TelClose) = model s /\
   isSessionOpen (V1.step s TelClose) = isSessionOpen s /\
   close_requested (V1.step s TelClose) = close_requested s) /\
  forall events : list event,
    close_requested (foldl V1.step (set_orders_file f V1.connection) events) =
      true <->
    Tel TStop ∈ events.
Proof.
  intros Hreach.
  split; [| split; [| split; [| split]]].
  - intros Hm.
    destruct (first_revision_onclose_closes_telephony f s Hreach Hm) as [Hw Hi].
    split; [done |]. split; [done |].
    intros payload. unfold forward_media. by rewrite Hi.
  - cbn [V1.step V1.on_model]. by destruct s.
  - cbn [V1.step V1.on_ws_message]. by destruct s.
  - cbn [V1.step]. by destruct s.
  - intros events. rewrite V1_run_close_requested. split.
    + intros [H | H]; [by destruct f | done].
    + intros H. by right.
Qed.

Lemma first_revision_closes_both_sides_witness :
  ws_open (foldl V1.step V1.connection [Mod MOpen; Tel TStop; Mod MClose]) =
    false /\
  isSessionOpen
    (foldl V1.step V1.connection [Mod MOpen; Tel TStop; Mod MClose]) = false /\
  ws_open (foldl V1.step V1.connection [Mod MOpen; Tel TStop]) = true.
Proof.
  assert (Hreach : reachable (set_orders_file NoFile V1.connection) V1.step
                     (foldl V1.step V1.connection
                        [Mod MOpen; Tel TStop; Mod MClose])).
  { cbn [foldl].
    apply reach_step; [apply reach_step; [apply reach_step |] |];
      [apply reach_init | reflexivity ..]. }
  destruct (first_revision_closes_both_sides NoFile _ Hreach)
    as (Hclosed & _).
  destruct (Hclosed eq_refl) as (Hw & Hi & _).
  split; [exact Hw |]. split; [exact Hi |]. reflexivity.
Defined.

(** ** System instruction *)

Lemma get_substitution_plain (matched before after template : string) :
  Prompt.no_dollar template = true ->
  Prompt.get_substitution matched before after template = template.
Proof.
  induction template as [| c rest IH]; [done |].
  cbn [Prompt.no_dollar Prompt.get_substitution]. intros H.
  apply andb_prop in H as [Hc Hrest].
  destruct (Prompt.is_char c "$"); [done |]. by rewrite IH.
Qed.

(** The placeholder stands once in the template, right after
    [prompt_before]. *)
Lemma placeholder_found (x : string) :
  Prompt.split_at_first "{{CALLER_NUMBER}}"
    (Prompt.prompt_before +:+ "{{CALLER_NUMBER}}" +:+ x) =
  Some (Prompt.prompt_before, x).
Proof. reflexivity. Qed.

(** X23: the caller's number in the system instruction. A [start] event
    sets [callerId] to the [caller] parameter, or to "Unknown" when that is
    missing or empty; [startGeminiSession] puts it where the placeholder
    stood, the text before and after unchanged, with [replace]'s dollar
    patterns expanded; a caller id free of [$] appears as it is. *)
Theorem caller_number_enters_the_prompt (date : string) (s : session)
    (sid caller : option string) :
  let s' := V2.on_ws_message (TStart sid caller) s in
  let after := Prompt.prompt_after +:+ date +:+ Prompt.prompt_rest in
  callerId s' = default "Unknown" (truthy caller) /\
  Prompt.dynamicSystemInstruction date (callerId s') =
    Prompt.prompt_before +:+
    Prompt.get_substitution "{{CALLER_NUMBER}}" Prompt.prompt_before after
      (callerId s') +:+ after /\
  (Prompt.no_dollar (callerId s') = true ->
   Prompt.dynamicSystemInstruction date (callerId s') =
     Prompt.prompt_before +:+ callerId s' +:+ after).
Proof.
  intros s' after.
  assert (Hgen : Prompt.dynamicSystemInstruction date (callerId s') =
                 Prompt.prompt_before +:+
                 Prompt.get_substitution "{{CALLER_NUMBER}}" Prompt.prompt_before
                   after (callerId s') +:+ after).
  { unfold Prompt.dynamicSystemInstruction, Prompt.js_replace,
      Prompt.SYSTEM_INSTRUCTION_TEMPLATE.
    fold after. by rewrite (placeholder_found after). }
  split; [by destruct s |]. split; [exact Hgen |].
  intros Hplain. by rewrite Hgen, get_substitution_plain.
Qed.
